(** * FlowBoard: the board store and the chat command parser

    A shallow embedding of [src/hooks/useBoard.ts] (the board store with its
    undo/redo history) and of the pure helpers of
    [src/components/Chatbot.tsx] (task matcher, date phrase resolver,
    reference resolvers and the intent classifier up to its create branch),
    followed by the properties the specification states about them.

    Conventions of the embedding:
    - a JavaScript string is a Rocq [string]; the model agrees with the
      source on ASCII text (lengths, case mapping, [\s], [\w]), and the
      other characters of the fixed reply texts are carried as their UTF-8
      bytes, which no function inspects;
    - a JavaScript number that the code uses as an index or a count is a [Z]
      or a [nat]; the match scores of the task matcher are IEEE binary64
      values ([float]);
    - an object used as a dictionary ([Record<string, Task>]) is a [gmap];
    - a thrown [TypeError] is the result [None] of an operation;
    - reads of the environment ([uuidv4()], [new Date()], the local time
      zone) are parameters of the operation that performs them;
    - React state is threaded explicitly: an operation of the hook maps the
      rendered state to the next one. *)

From Stdlib Require Import ZArith List String Ascii Bool Lia Floats Uint63 Sorted.
From stdpp Require Import gmap strings list.

Local Open Scope string_scope.
Local Open Scope list_scope.
Local Open Scope Z_scope.

(* The number literals 0.3, 0.6 and 1.2 stand for the nearest binary64
   values, as in the host language. *)
Set Warnings "-inexact-float".

(** ** Array and string primitives of the host language *)

Module Js.

(** [Array.prototype.indexOf]: the index of the first element equal to [x],
    or [-1]. *)
Fixpoint indexOf (l : list string) (x : string) : Z :=
  match l with
  | [] => -1
  | y :: l' =>
      if String.eqb y x then 0
      else let r := indexOf l' x in if r <? 0 then -1 else r + 1
  end.

(** The start position [Array.prototype.splice] and [slice] derive from a
    relative index: a negative index counts from the end, and the result is
    clamped to [0, len]. *)
Definition relative_index (len : nat) (i : Z) : nat :=
  if i <? 0 then Z.to_nat (Z.max (Z.of_nat len + i) 0)
  else Z.to_nat (Z.min i (Z.of_nat len)).

(** [l.splice(start, deleteCount, ...items)], as the array it leaves in [l]. *)
Definition splice {A} (l : list A) (start deleteCount : Z) (items : list A) : list A :=
  let s := relative_index (length l) start in
  let dc := Z.to_nat (Z.min (Z.max deleteCount 0) (Z.of_nat (length l) - Z.of_nat s)) in
  take s l ++ items ++ drop (s + dc) l.

(** [l.slice(start)] and [l.slice(start, end)]. *)
Definition slice_from {A} (l : list A) (start : Z) : list A :=
  drop (relative_index (length l) start) l.

Definition slice {A} (l : list A) (start stop : Z) : list A :=
  let s := relative_index (length l) start in
  let e := relative_index (length l) stop in
  take (e - s) (drop s l).

(** Two list operations the specification speaks of: removing the first
    occurrence of an element, and inserting an element at a position. *)
Fixpoint remove_first (x : string) (l : list string) : list string :=
  match l with
  | [] => []
  | y :: l' => if String.eqb y x then l' else y :: remove_first x l'
  end.

Definition insert_at {A} (n : nat) (x : A) (l : list A) : list A :=
  take n l ++ x :: drop n l.

(** Truthiness of a value of type [string | null | undefined]: the outer
    [None] is [undefined], [Some None] is [null]. *)
Definition truthy (v : option (option string)) : bool :=
  match v with
  | Some (Some s) => negb (String.eqb s EmptyString)
  | _ => false
  end.

End Js.

(** ** The data model ([src/types]) *)

Inductive Priority := high | medium | low.
Inductive ColumnId := todo | in_progress | done.

Record Task := mkTask {
  id : string;
  title : string;
  description : string;
  priority : Priority;
  dueDate : option string;
  tags : list string;
  createdAt : string;
  completedAt : option string;
  columnId : ColumnId
}.

(** [Partial<Omit<Task, 'id' | 'createdAt'>>]: every field may be missing. *)
Record Updates := mkUpdates {
  u_title : option string;
  u_description : option string;
  u_priority : option Priority;
  u_dueDate : option (option string);
  u_tags : option (list string);
  u_completedAt : option (option string);
  u_columnId : option ColumnId
}.

Definition no_updates : Updates := mkUpdates None None None None None None None.

(** The objects a store can hold under a task id. Every writer of the store
    produces a complete [Task] except a spread over a missing entry
    ([{...undefined, ...updates}]), which yields an object with the fields of
    the update only; since an update never carries [id] or [createdAt], such
    an object stays partial. *)
Inductive TaskObj :=
| Full (t : Task)
| Partial (u : Updates).

Record Column := mkColumn {
  col_id : ColumnId;
  col_title : string;
  taskIds : list string
}.

(** [Record<ColumnId, Column>]: one entry per column identifier. *)
Record Columns := mkColumns {
  col_todo : Column;
  col_in_progress : Column;
  col_done : Column
}.

Record BoardState := mkBoard {
  tasks : gmap string TaskObj;
  columns : Columns;
  columnOrder : list ColumnId
}.

#[global] Instance ColumnId_eq_dec : EqDecision ColumnId.
Proof. solve_decision. Defined.

#[global] Instance Priority_eq_dec : EqDecision Priority.
Proof. solve_decision. Defined.

(** ** The board store ([src/hooks/useBoard.ts]) *)

Module Board.

(** [cols[c]] and [{...cols, [c]: v}]. *)
Definition get_col (cols : Columns) (c : ColumnId) : Column :=
  match c with
  | todo => col_todo cols
  | in_progress => col_in_progress cols
  | done => col_done cols
  end.

Definition set_col (cols : Columns) (c : ColumnId) (v : Column) : Columns :=
  match c with
  | todo => mkColumns v (col_in_progress cols) (col_done cols)
  | in_progress => mkColumns (col_todo cols) v (col_done cols)
  | done => mkColumns (col_todo cols) (col_in_progress cols) v
  end.

(** [{...col, taskIds: ids}]. *)
Definition with_taskIds (col : Column) (ids : list string) : Column :=
  mkColumn (col_id col) (col_title col) ids.

(** Property reads on a stored object. *)
Definition obj_columnId (o : TaskObj) : option ColumnId :=
  match o with
  | Full t => Some (columnId t)
  | Partial u => u_columnId u
  end.

Definition obj_completedAt (o : TaskObj) : option (option string) :=
  match o with
  | Full t => Some (completedAt t)
  | Partial u => u_completedAt u
  end.

(** [{...t, ...u}] on a complete task. *)
Definition apply_updates (t : Task) (u : Updates) : Task :=
  {| id := id t;
     title := default (title t) (u_title u);
     description := default (description t) (u_description u);
     priority := default (priority t) (u_priority u);
     dueDate := default (dueDate t) (u_dueDate u);
     tags := default (tags t) (u_tags u);
     createdAt := createdAt t;
     completedAt := default (completedAt t) (u_completedAt u);
     columnId := default (columnId t) (u_columnId u) |}.

Definition later {A} (old new : option A) : option A :=
  match new with Some _ => new | None => old end.

(** [{...p, ...u}] on a partial object. *)
Definition merge_updates (p u : Updates) : Updates :=
  {| u_title := later (u_title p) (u_title u);
     u_description := later (u_description p) (u_description u);
     u_priority := later (u_priority p) (u_priority u);
     u_dueDate := later (u_dueDate p) (u_dueDate u);
     u_tags := later (u_tags p) (u_tags u);
     u_completedAt := later (u_completedAt p) (u_completedAt u);
     u_columnId := later (u_columnId p) (u_columnId u) |}.

(** [{...prev.tasks[taskId], ...u}]: spreading [undefined] adds nothing. *)
Definition spread (o : option TaskObj) (u : Updates) : TaskObj :=
  match o with
  | None => Partial u
  | Some (Full t) => Full (apply_updates t u)
  | Some (Partial p) => Partial (merge_updates p u)
  end.

(** *** [createDefaultBoard] and the empty board

    [uuid n] is the result of the n-th call of [uuidv4()], and [iso d] is
    [new Date(Date.now() + 86400000 * d).toISOString()]. *)
Definition sampleTasks (uuid : nat -> string) (iso : Z -> string) : list Task :=
  [ mkTask (uuid 0%nat) "Design homepage mockup"
      "Create wireframes and high-fidelity mockups for the new landing page redesign."
      high (Some (substring 0 10 (iso 2))) ["design"; "ui"] (iso (-3)) None todo;
    mkTask (uuid 1%nat) "Set up CI/CD pipeline"
      "Configure GitHub Actions for automated testing and deployment."
      medium (Some (substring 0 10 (iso 5))) ["devops"; "backend"] (iso (-2)) None todo;
    mkTask (uuid 2%nat) "Write API documentation"
      "Document all REST API endpoints with request/response examples."
      low (Some (substring 0 10 (iso 7))) ["docs"] (iso (-1)) None todo;
    mkTask (uuid 3%nat) "Implement user authentication"
      "Build login/signup flow with OAuth and JWT tokens."
      high (Some (substring 0 10 (iso 1))) ["backend"; "security"] (iso (-5)) None in_progress;
    mkTask (uuid 4%nat) "Optimize database queries"
      "Review and optimize slow SQL queries identified in performance monitoring."
      medium (Some (substring 0 10 (iso (-1)))) ["backend"; "performance"] (iso (-4)) None in_progress;
    mkTask (uuid 5%nat) "Setup project repository"
      "Initialize repo with proper folder structure, linting, and README."
      high None ["devops"] (iso (-10)) (Some (iso (-7))) done ].

Definition ids_in (c : ColumnId) (ts : list Task) : list string :=
  map id (filter (fun t => columnId t = c) ts).

(** The board [createDefaultBoard] assembles from its sample tasks. *)
Definition board_of_tasks (ts : list Task) : BoardState :=
  {| tasks := foldl (fun m t => <[id t := Full t]> m) ∅ ts;
     columns :=
       {| col_todo := mkColumn todo "To Do" (ids_in todo ts);
          col_in_progress := mkColumn in_progress "In Progress" (ids_in in_progress ts);
          col_done := mkColumn done "Done" (ids_in done ts) |};
     columnOrder := [todo; in_progress; done] |}.

Definition createDefaultBoard (uuid : nat -> string) (iso : Z -> string) : BoardState :=
  board_of_tasks (sampleTasks uuid iso).

Definition emptyBoard : BoardState :=
  {| tasks := ∅;
     columns :=
       {| col_todo := mkColumn todo "To Do" [];
          col_in_progress := mkColumn in_progress "In Progress" [];
          col_done := mkColumn done "Done" [] |};
     columnOrder := [todo; in_progress; done] |}.

(** *** The state updaters passed to [setBoard]

    [newId] and [now] are the values [uuidv4()] and
    [new Date().toISOString()] return inside the operation. *)
Definition addTask_board (newId now : string)
    (col : ColumnId) (ttl descr : string) (pri : Priority)
    (due : option string) (tgs : list string) (prev : BoardState) : BoardState :=
  let task :=
    {| id := newId; title := ttl; description := descr; priority := pri;
       dueDate := due; tags := tgs; createdAt := now;
       completedAt := if decide (col = done) then Some now else None;
       columnId := col |} in
  {| tasks := <[newId := Full task]> (tasks prev);
     columns :=
       set_col (columns prev) col
         (with_taskIds (get_col (columns prev) col)
            (taskIds (get_col (columns prev) col) ++ [newId]));
     columnOrder := columnOrder prev |}.

Definition updateTask_board (taskId : string) (updates : Updates)
    (prev : BoardState) : BoardState :=
  {| tasks := <[taskId := spread (tasks prev !! taskId) updates]> (tasks prev);
     columns := columns prev;
     columnOrder := columnOrder prev |}.

(** [prev.columns[task.columnId].taskIds] throws when the stored object has
    no [columnId]. *)
Definition deleteTask_board (taskId : string) (prev : BoardState) : option BoardState :=
  match tasks prev !! taskId with
  | None => Some prev
  | Some task =>
      match obj_columnId task with
      | None => None
      | Some c =>
          Some {| tasks := delete taskId (tasks prev);
                  columns :=
                    set_col (columns prev) c
                      (with_taskIds (get_col (columns prev) c)
                         (filter (fun i => i ≠ taskId)
                            (taskIds (get_col (columns prev) c))));
                  columnOrder := columnOrder prev |}
      end
  end.

(** The [completedAt] expression of [moveTask],
    [destCol === 'done' && !t.completedAt ? now
       : destCol !== 'done' ? null : t.completedAt],
    as the arm it selects and the value of that arm. Reading [.completedAt]
    of a missing entry throws; the read happens only when [destCol] is
    ['done']. *)
Inductive CompletedAtRule := SetNow | Clear | Keep.

Definition move_rule (destCol : ColumnId) (entry : option TaskObj)
  : option CompletedAtRule :=
  if decide (destCol = done) then
    match entry with
    | None => None
    | Some o => if negb (Js.truthy (obj_completedAt o)) then Some SetNow else Some Keep
    end
  else Some Clear.

Definition rule_value (now : string) (r : CompletedAtRule)
    (entry : option TaskObj) : option (option string) :=
  match r with
  | SetNow => Some (Some now)
  | Clear => Some None
  | Keep => entry ≫= obj_completedAt
  end.

Definition moveTask_board (now : string) (taskId : string)
    (sourceCol destCol : ColumnId) (destIndex : Z)
    (prev : BoardState) : option BoardState :=
  let sourceTaskIds :=
    Js.splice (taskIds (get_col (columns prev) sourceCol))
      (Js.indexOf (taskIds (get_col (columns prev) sourceCol)) taskId) 1 [] in
  let destTaskIds :=
    Js.splice
      (if decide (sourceCol = destCol) then sourceTaskIds
       else taskIds (get_col (columns prev) destCol))
      destIndex 0 [taskId] in
  match move_rule destCol (tasks prev !! taskId) with
  | None => None
  | Some rule =>
      let completed := rule_value now rule (tasks prev !! taskId) in
      let updatedTask :=
        spread (tasks prev !! taskId)
          {| u_title := None; u_description := None; u_priority := None;
             u_dueDate := None; u_tags := None;
             u_completedAt := completed; u_columnId := Some destCol |} in
      let cols1 :=
        set_col (columns prev) sourceCol
          (with_taskIds (get_col (columns prev) sourceCol)
             (if decide (sourceCol = destCol) then destTaskIds else sourceTaskIds)) in
      let cols2 :=
        if decide (sourceCol = destCol) then cols1
        else set_col cols1 destCol
               (with_taskIds (get_col (columns prev) destCol) destTaskIds) in
      Some {| tasks := <[taskId := updatedTask]> (tasks prev);
              columns := cols2;
              columnOrder := columnOrder prev |}
  end.

(** *** The hook state: the board with its undo and redo stacks *)
Record Store := mkStore {
  board : BoardState;
  history : list BoardState;
  future : list BoardState
}.

(** [setHistory(h => [...h.slice(-49), prev]); setFuture([])]. *)
Definition pushHistory (prev : BoardState) (s : Store) : Store :=
  {| board := board s;
     history := Js.slice_from (history s) (-49) ++ [prev];
     future := [] |}.

Definition undo (s : Store) : Store :=
  match last (history s) with
  | None => s
  | Some prev =>
      {| board := prev;
         history := Js.slice (history s) 0 (-1);
         future := future s ++ [board s] |}
  end.

Definition redo (s : Store) : Store :=
  match last (future s) with
  | None => s
  | Some next =>
      {| board := next;
         history := history s ++ [board s];
         future := Js.slice (future s) 0 (-1) |}
  end.

Definition canUndo (s : Store) : bool := (0 <? length (history s))%nat.
Definition canRedo (s : Store) : bool := (0 <? length (future s))%nat.

(** Every mutation first pushes the rendered board and then updates it. *)
Definition with_board (f : BoardState -> option BoardState) (s : Store) : option Store :=
  let s' := pushHistory (board s) s in
  b ← f (board s');
  Some {| board := b; history := history s'; future := future s' |}.

Definition addTask (newId now : string) (col : ColumnId) (ttl descr : string)
    (pri : Priority) (due : option string) (tgs : list string) (s : Store)
  : option Store :=
  with_board (fun b => Some (addTask_board newId now col ttl descr pri due tgs b)) s.

Definition updateTask (taskId : string) (updates : Updates) (s : Store) : option Store :=
  with_board (fun b => Some (updateTask_board taskId updates b)) s.

Definition deleteTask (taskId : string) (s : Store) : option Store :=
  with_board (deleteTask_board taskId) s.

Definition moveTask (now taskId : string) (sourceCol destCol : ColumnId)
    (destIndex : Z) (s : Store) : option Store :=
  with_board (moveTask_board now taskId sourceCol destCol destIndex) s.

Definition resetBoard (uuid : nat -> string) (iso : Z -> string) (s : Store) : option Store :=
  with_board (fun _ => Some (createDefaultBoard uuid iso)) s.

Definition clearBoard (s : Store) : option Store :=
  with_board (fun _ => Some emptyBoard) s.

(** The six mutations of the hook with the arguments of one call. *)
Inductive Mutation :=
| MAdd (newId now : string) (col : ColumnId) (ttl descr : string)
       (pri : Priority) (due : option string) (tgs : list string)
| MUpdate (taskId : string) (updates : Updates)
| MDelete (taskId : string)
| MMove (now taskId : string) (sourceCol destCol : ColumnId) (destIndex : Z)
| MReset (uuid : nat -> string) (iso : Z -> string)
| MClear.

Definition mutate (m : Mutation) (s : Store) : option Store :=
  match m with
  | MAdd newId now col ttl descr pri due tgs =>
      addTask newId now col ttl descr pri due tgs s
  | MUpdate taskId updates => updateTask taskId updates s
  | MDelete taskId => deleteTask taskId s
  | MMove now taskId sourceCol destCol destIndex =>
      moveTask now taskId sourceCol destCol destIndex s
  | MReset uuid iso => resetBoard uuid iso s
  | MClear => clearBoard s
  end.

(** The initial hook state: a loaded board and two empty stacks. *)
Definition initStore (b : BoardState) : Store :=
  {| board := b; history := []; future := [] |}.

End Board.

(** ** Strings of the host language *)

Module Str.

Definition nl : string := String (ascii_of_nat 10) EmptyString.
Definition dquote : ascii := ascii_of_nat 34.
Definition squote : ascii := ascii_of_nat 39.
Definition dq : string := String dquote EmptyString.

Definition chars (s : string) : list ascii := list_ascii_of_string s.
Definition of_chars (l : list ascii) : string := string_of_list_ascii l.

Definition code (a : ascii) : nat := nat_of_ascii a.

Definition between (lo hi : nat) (a : ascii) : bool :=
  (lo <=? code a)%nat && (code a <=? hi)%nat.

Definition lower_char (a : ascii) : ascii :=
  if between 65 90 a then ascii_of_nat (code a + 32) else a.

(** [s.toLowerCase()]. *)
Definition toLowerCase (s : string) : string :=
  of_chars (map lower_char (chars s)).

(** White space as [\s] and [trim] see it. *)
Definition is_space (a : ascii) : bool :=
  between 9 13 a || (code a =? 32)%nat.

Definition is_digit (a : ascii) : bool := between 48 57 a.

(** A word character, [\w]. *)
Definition is_word (a : ascii) : bool :=
  between 97 122 a || between 65 90 a || is_digit a || (code a =? 95)%nat.

Fixpoint trim_start (l : list ascii) : list ascii :=
  match l with
  | a :: l' => if is_space a then trim_start l' else l
  | [] => []
  end.

(** [s.trim()]. *)
Definition trim (s : string) : string :=
  of_chars (rev (trim_start (rev (trim_start (chars s))))).

Fixpoint starts_with (p l : list ascii) : bool :=
  match p, l with
  | [], _ => true
  | a :: p', b :: l' => Ascii.eqb a b && starts_with p' l'
  | _ :: _, [] => false
  end.

Fixpoint includes_chars (l p : list ascii) : bool :=
  starts_with p l ||
  match l with
  | [] => false
  | _ :: l' => includes_chars l' p
  end.

(** [s.includes(p)]. *)
Definition includes (s p : string) : bool := includes_chars (chars s) (chars p).

(** [parts.join(sep)]. *)
Fixpoint join (sep : string) (parts : list string) : string :=
  match parts with
  | [] => EmptyString
  | [p] => p
  | p :: rest => p +:+ sep +:+ join sep rest
  end.

(** [parseInt] on a string of decimal digits. *)
Definition parseInt (s : string) : Z :=
  fold_left (fun n a => 10 * n + Z.of_nat (code a - 48)) (chars s) 0.

End Str.

(** ** Regular expressions

    A backtracking matcher with the semantics of the expressions the source
    uses: ordered alternation, greedy and lazy repetition, capture groups,
    the anchors [^] and [$], the word boundary [\b], and the [i] flag. *)

Module Regex.

Inductive regex :=
| Eps
| Chr (c : ascii)
| Cls (p : ascii -> bool)
| Seq (r1 r2 : regex)
| Alt (r1 r2 : regex)
| Star (greedy : bool) (r : regex)
| Group (n : nat) (r : regex)
| Bol
| Eol
| WordB.

(** The position of the matcher in the subject: the index, the character
    before it and the characters from it on. *)
Record cursor := mkCursor {
  pos : nat;
  before : option ascii;
  rest : list ascii
}.

Definition start_of (l : list ascii) : cursor := mkCursor 0 None l.

Definition advance (c : cursor) (a : ascii) (tl : list ascii) : cursor :=
  mkCursor (S (pos c)) (Some a) tl.

(** Group number, start and end of each capture, the latest first. *)
Definition captures := list (nat * (nat * nat)).

Definition same_char (ci : bool) (x a : ascii) : bool :=
  if ci then Ascii.eqb (Str.lower_char x) (Str.lower_char a) else Ascii.eqb x a.

Definition word_at (o : option ascii) : bool :=
  match o with Some a => Str.is_word a | None => false end.

Definition or_else {A} (x : option A) (y : option A) : option A :=
  match x with Some _ => x | None => y end.

(** [run ci r c caps k]: match [r] at [c] and continue with [k]; [None] asks
    the caller to backtrack. An iteration of a repetition that consumes
    nothing is rejected, as in the host language. *)
Fixpoint run (ci : bool) (r : regex) (c : cursor) (caps : captures)
    (k : cursor -> captures -> option (cursor * captures))
  : option (cursor * captures) :=
  match r with
  | Eps => k c caps
  | Chr x =>
      match rest c with
      | a :: tl => if same_char ci x a then k (advance c a tl) caps else None
      | [] => None
      end
  | Cls p =>
      match rest c with
      | a :: tl => if p a then k (advance c a tl) caps else None
      | [] => None
      end
  | Seq r1 r2 => run ci r1 c caps (fun c' caps' => run ci r2 c' caps' k)
  | Alt r1 r2 => or_else (run ci r1 c caps k) (run ci r2 c caps k)
  | Star greedy r1 =>
      (fix loop (fuel : nat) (c : cursor) (caps : captures) :=
         match fuel with
         | O => k c caps
         | S fuel' =>
             let more :=
               run ci r1 c caps (fun c' caps' =>
                 if (pos c' =? pos c)%nat then None else loop fuel' c' caps') in
             if greedy then or_else more (k c caps)
             else or_else (k c caps) more
         end) (S (length (rest c))) c caps
  | Group n r1 =>
      run ci r1 c caps (fun c' caps' => k c' ((n, (pos c, pos c')) :: caps'))
  | Bol => if (pos c =? 0)%nat then k c caps else None
  | Eol => match rest c with [] => k c caps | _ :: _ => None end
  | WordB =>
      if xorb (word_at (before c)) (word_at (head (rest c))) then k c caps
      else None
  end.

Definition accept (c : cursor) (caps : captures) : option (cursor * captures) :=
  Some (c, caps).

(** A match: where it starts and ends, and its captures. *)
Record found := mkFound {
  m_start : nat;
  m_end : nat;
  m_caps : captures
}.

(** The leftmost match from cursor [c] on. *)
Fixpoint search (ci : bool) (r : regex) (p : nat) (prev : option ascii)
    (l : list ascii) : option found :=
  match run ci r (mkCursor p prev l) [] accept with
  | Some (c', caps) => Some (mkFound p (pos c') caps)
  | None =>
      match l with
      | [] => None
      | a :: tl => search ci r (S p) (Some a) tl
      end
  end.

(** A compiled expression: the pattern and its [i] flag. *)
Record re := mkRe { pattern : regex; ignore_case : bool }.

(** [s.match(re)] for an expression without the [g] flag. *)
Definition exec (e : re) (s : string) : option found :=
  search (ignore_case e) (pattern e) 0 None (Str.chars s).

Definition test (e : re) (s : string) : bool :=
  match exec e s with Some _ => true | None => false end.

Fixpoint lookup_group (n : nat) (caps : captures) : option (nat * nat) :=
  match caps with
  | [] => None
  | (m, span) :: caps' => if (m =? n)%nat then Some span else lookup_group n caps'
  end.

(** [m[n]]: the text of group [n], [None] when the group took no part. *)
Definition group (s : string) (m : found) (n : nat) : option string :=
  match lookup_group n (m_caps m) with
  | Some (a, b) => Some (substring a (b - a) s)
  | None => None
  end.

(** [s.replace(re, '')] for an expression without the [g] flag. *)
Definition remove_match (e : re) (s : string) : string :=
  match exec e s with
  | Some m =>
      substring 0 (m_start m) s +:+
      substring (m_end m) (String.length s - m_end m) s
  | None => s
  end.

(** [s.replace(re, '')] for an expression with the [g] flag: every match
    is removed, the search resuming where the last match ended. *)
Fixpoint remove_all_chars (fuel : nat) (ci : bool) (r : regex) (p : nat)
    (prev : option ascii) (l : list ascii) : list ascii :=
  match fuel with
  | O => l
  | S fuel' =>
      match search ci r p prev l with
      | None => l
      | Some m =>
          let a := (m_start m - p)%nat in
          let b := (m_end m - p)%nat in
          if (a =? b)%nat then
            take a l ++
            match drop a l with
            | [] => []
            | x :: tl => x :: remove_all_chars fuel' ci r (S (p + a)) (Some x) tl
            end
          else
            take a l ++
            remove_all_chars fuel' ci r (p + b) (last (take b l)) (drop b l)
      end
  end.

Definition remove_all (e : re) (s : string) : string :=
  Str.of_chars
    (remove_all_chars (S (String.length s)) (ignore_case e) (pattern e) 0 None
       (Str.chars s)).

(** [s.split(re)] for an expression that matches no empty string: cut at
    every match, keeping empty pieces. *)
Fixpoint split_chars (fuel : nat) (ci : bool) (r : regex) (p : nat)
    (prev : option ascii) (l : list ascii) (piece : list ascii)
  : list (list ascii) :=
  match fuel with
  | O => [rev piece ++ l]
  | S fuel' =>
      match l with
      | [] => [rev piece]
      | a :: tl =>
          match run ci r (mkCursor p prev l) [] accept with
          | Some (c', _) =>
              if (pos c' =? p)%nat then
                split_chars fuel' ci r (S p) (Some a) tl (a :: piece)
              else
                rev piece ::
                split_chars fuel' ci r (pos c') (before c') (rest c') []
          | None => split_chars fuel' ci r (S p) (Some a) tl (a :: piece)
          end
      end
  end.

Definition split (e : re) (s : string) : list string :=
  map Str.of_chars
    (split_chars (S (String.length s)) (ignore_case e) (pattern e) 0 None
       (Str.chars s) []).

(** *** Building expressions *)

Definition lit (s : string) : regex :=
  fold_right (fun a r => Seq (Chr a) r) Eps (Str.chars s).

Fixpoint alts (rs : list regex) : regex :=
  match rs with
  | [] => Cls (fun _ => false)
  | [r] => r
  | r :: rs' => Alt r (alts rs')
  end.

Fixpoint seqs (rs : list regex) : regex :=
  match rs with
  | [] => Eps
  | [r] => r
  | r :: rs' => Seq r (seqs rs')
  end.

Definition words (ws : list string) : regex := alts (map lit ws).
Definition plus (r : regex) : regex := Seq r (Star true r).
Definition plus_lazy (r : regex) : regex := Seq r (Star false r).
Definition star (r : regex) : regex := Star true r.
Definition opt (r : regex) : regex := Alt r Eps.

Definition space : regex := Cls Str.is_space.
Definition digit : regex := Cls Str.is_digit.

(** [.]: any character but a line terminator. *)
Definition any : regex :=
  Cls (fun a => negb ((Str.code a =? 10)%nat || (Str.code a =? 13)%nat)).

Definition one_of (l : list ascii) : regex :=
  Cls (fun a => existsb (Ascii.eqb a) l).
Definition none_of (l : list ascii) : regex :=
  Cls (fun a => negb (existsb (Ascii.eqb a) l)).

Definition quote : regex := one_of [Str.dquote; Str.squote].
Definition not_quote : regex := none_of [Str.dquote; Str.squote].

End Regex.

(** ** Dates of the host language

    A [Date] is its time value, the milliseconds since the epoch in UTC.
    The local time zone is a fixed offset from UTC, and the host's parser
    of free-form date strings ([new Date(text)], which the language leaves
    to the implementation) is a parameter. *)

Module Dates.

Record Clock := mkClock {
  now : Z;                          (* [Date.now()] *)
  offset : Z;                       (* local time minus UTC, in minutes *)
  parse : string -> option Z        (* [new Date(text)]; [None] is an invalid date *)
}.

Definition msPerDay : Z := 86400000.

Definition LocalTime (clk : Clock) (t : Z) : Z := t + offset clk * 60000.
Definition UTC (clk : Clock) (t : Z) : Z := t - offset clk * 60000.

Definition Day (t : Z) : Z := t / msPerDay.
Definition TimeWithinDay (t : Z) : Z := t mod msPerDay.

(** Year, month (1 to 12) and day of the month of a day number. *)
Definition civil_from_days (z : Z) : Z * Z * Z :=
  let z := z + 719468 in
  let era := z / 146097 in
  let doe := z - era * 146097 in
  let yoe := (doe - doe / 1460 + doe / 36524 - doe / 146096) / 365 in
  let doy := doe - (365 * yoe + yoe / 4 - yoe / 100) in
  let mp := (5 * doy + 2) / 153 in
  let d := doy - (153 * mp + 2) / 5 + 1 in
  let m := if mp <? 10 then mp + 3 else mp - 9 in
  (yoe + era * 400 + (if m <=? 2 then 1 else 0), m, d).

(** The day number of a year, month (1 to 12) and day of the month. *)
Definition days_from_civil (y m d : Z) : Z :=
  let y := if m <=? 2 then y - 1 else y in
  let era := y / 400 in
  let yoe := y - era * 400 in
  let doy := (153 * (if 2 <? m then m - 3 else m + 9) + 2) / 5 + d - 1 in
  let doe := yoe * 365 + yoe / 4 - yoe / 100 + doy in
  era * 146097 + doe - 719468.

Definition YearFromTime (t : Z) : Z := fst (fst (civil_from_days (Day t))).
Definition MonthFromTime (t : Z) : Z := snd (fst (civil_from_days (Day t))) - 1.
Definition DateFromTime (t : Z) : Z := snd (civil_from_days (Day t)).
Definition WeekDay (t : Z) : Z := (Day t + 4) mod 7.

(** [MakeDay(year, month, date)], months counted from 0 and carried into
    the year, the date counted on from the first of the month. *)
Definition MakeDay (year month date : Z) : Z :=
  days_from_civil (year + month / 12) (month mod 12 + 1) 1 + date - 1.

Definition MakeDate (day time : Z) : Z := day * msPerDay + time.

(** The methods of [Date] the source calls. *)
Definition setHours0 (clk : Clock) (t : Z) : Z :=
  UTC clk (MakeDate (Day (LocalTime clk t)) 0).

Definition getDate (clk : Clock) (t : Z) : Z := DateFromTime (LocalTime clk t).
Definition getMonth (clk : Clock) (t : Z) : Z := MonthFromTime (LocalTime clk t).
Definition getFullYear (clk : Clock) (t : Z) : Z := YearFromTime (LocalTime clk t).
Definition getDay (clk : Clock) (t : Z) : Z := WeekDay (LocalTime clk t).

Definition setDate (clk : Clock) (t : Z) (date : Z) : Z :=
  let lt := LocalTime clk t in
  UTC clk (MakeDate (MakeDay (YearFromTime lt) (MonthFromTime lt) date)
             (TimeWithinDay lt)).

Definition setMonth (clk : Clock) (t : Z) (month : Z) : Z :=
  let lt := LocalTime clk t in
  UTC clk (MakeDate (MakeDay (YearFromTime lt) month (DateFromTime lt))
             (TimeWithinDay lt)).

(** Decimal digits, padded with zeros to [width]. *)
Fixpoint pad (width : nat) (n : Z) : string :=
  match width with
  | O => EmptyString
  | S w => pad w (n / 10) +:+ String (ascii_of_nat (48 + Z.to_nat (n mod 10))) EmptyString
  end.

(** The date part of [d.toISOString()] for a day number: years outside
    0..9999 are written with a sign and six digits. *)
Definition date_part (z : Z) : string :=
  let '(y, m, d) := civil_from_days z in
  (if (0 <=? y) && (y <=? 9999) then pad 4 y
   else (if y <? 0 then "-" else "+") +:+ pad 6 (Z.abs y))
  +:+ "-" +:+ pad 2 m +:+ "-" +:+ pad 2 d.

Definition time_part (ms : Z) : string :=
  "T" +:+ pad 2 (ms / 3600000) +:+ ":" +:+ pad 2 (ms / 60000 mod 60)
  +:+ ":" +:+ pad 2 (ms / 1000 mod 60) +:+ "." +:+ pad 3 (ms mod 1000) +:+ "Z".

(** [d.toISOString()], from the UTC fields of the time value. The host
    language keeps a time value within 8.64e15 ms of the epoch and throws a
    RangeError here for a date outside that range; this function goes on
    past it, so it stands for the code within the range only. *)
Definition toISOString (t : Z) : string :=
  date_part (Day t) +:+ time_part (TimeWithinDay t).

(** [d.toISOString().slice(0, 10)]. *)
Definition isoDay (t : Z) : string := substring 0 10 (toISOString t).

(** The first ten characters of the date part of a day number: the
    calendar day ["YYYY-MM-DD"] for the years 0 to 9999. *)
Definition dayString (z : Z) : string := substring 0 10 (date_part z).

(** The local calendar day of the clock, as a day number. *)
Definition localDay (clk : Clock) : Z := Day (LocalTime clk (now clk)).

End Dates.

(** ** The chat command parser ([src/components/Chatbot.tsx])

    The functions take the task collection [allTasks], which the source
    obtains as [Object.values(board.tasks)]. *)

Module Chatbot.
Import Regex.

Inductive ChatBotAction :=
| Create (col : ColumnId) (ttl descr : string) (pri : Priority)
         (due : option string) (tgs : list string)
| Update (taskId : string) (updates : Updates)
| Delete (taskId : string)
| Move (taskId : string) (sourceCol destCol : ColumnId).

Record ChatResponse := mkResponse {
  text : string;
  action : option ChatBotAction
}.

Definition COLUMN_NAMES (c : ColumnId) : string :=
  match c with
  | todo => "To Do"
  | in_progress => "In Progress"
  | done => "Done"
  end.

Definition PRIORITY_EMOJI (p : Priority) : string :=
  match p with
  | high => "🔴"
  | medium => "🟡"
  | low => "🟢"
  end.

(** A priority as the string the source holds. *)
Definition priority_name (p : Priority) : string :=
  match p with
  | high => "high"
  | medium => "medium"
  | low => "low"
  end.

(** *** [Array.prototype.sort]

    The sort of the host language is stable; [after a b] says that the
    comparator puts [a] after [b] (it returns a positive number). *)
Fixpoint insert_sorted {A} (after : A -> A -> bool) (x : A) (l : list A) : list A :=
  match l with
  | [] => [x]
  | y :: l' => if after x y then y :: insert_sorted after x l' else x :: l
  end.

Definition sort {A} (after : A -> A -> bool) (l : list A) : list A :=
  foldr (insert_sorted after) [] l.

(** *** [findTaskInMessage] *)

Record Found := mkFoundTask {
  task : option Task;
  candidates : list Task
}.

Definition resolved (t : Task) : Found := mkFoundTask (Some t) [].
Definition unresolved (cs : list Task) : Found := mkFoundTask None cs.

Definition quoted_re : re := mkRe (seqs [quote; Group 1 (plus not_quote); quote]) false.
Definition spaces_re : re := mkRe (plus space) false.

Definition lower_title (t : Task) : string := Str.toLowerCase (title t).

(** The quoted task name of a message, lowercased. *)
Definition quoted_name (message : string) : option string :=
  m ← exec quoted_re message;
  Str.toLowerCase <$> group message m 1.

(** The rule for quoted task names; [None] when it leaves the decision to
    the later rules. *)
Definition quoted_rule (message : string) (allTasks : list Task) : option Found :=
  match quoted_name message with
  | None => None
  | Some q =>
      match find (fun t => String.eqb (lower_title t) q) allTasks with
      | Some exact => Some (resolved exact)
      | None =>
          let partial :=
            filter (fun t => Str.includes (lower_title t) q = true
                             \/ Str.includes q (lower_title t) = true) allTasks in
          match partial with
          | [] => None
          | [t] => Some (resolved t)
          | _ => Some (unresolved (Js.slice partial 0 5))
          end
      end
  end.

(** Strategy 1: the first title, longest first, contained in the message. *)
Definition sortedByLength (allTasks : list Task) : list Task :=
  sort (fun a b => String.length (title a) <? String.length (title b))%nat allTasks.

Definition contained_in (lower : string) (t : Task) : bool :=
  (3 <=? String.length (lower_title t))%nat && Str.includes lower (lower_title t).

Definition substring_rule (lower : string) (allTasks : list Task) : option Task :=
  find (contained_in lower) (sortedByLength allTasks).

(** Strategy 2: word overlap. *)
Definition stopWords : list string :=
  ["create"; "add"; "make"; "new"; "task"; "move"; "delete"; "remove";
   "change"; "set"; "update"; "edit"; "modify"; "rename"; "complete"; "finish";
   "start"; "begin";
   "the"; "a"; "an"; "to"; "from"; "of"; "for"; "with"; "in"; "on"; "at"; "by";
   "priority"; "high"; "medium"; "low"; "due"; "date"; "tag"; "tags"; "title";
   "name";
   "description"; "desc"; "details"; "column"; "status"; "todo"; "progress";
   "done";
   "please"; "can"; "you"; "could"; "would"; "want"; "need"; "like"; "it"; "its";
   "and"; "or"; "but"; "is"; "are"; "was"; "were"; "be"; "been"; "being"; "my";
   "this"; "that"].

Definition messageWords (lower : string) : list string :=
  filter (fun w => (1 < String.length w)%nat /\ w ∉ stopWords)
    (split spaces_re lower).

Definition titleWords (t : Task) : list string :=
  filter (fun w => (1 < String.length w)%nat) (split spaces_re (lower_title t)).

Definition words_match (tw mw : string) : bool :=
  String.eqb tw mw || Str.includes tw mw || Str.includes mw tw.

Definition count_matches (tws mws : list string) : nat :=
  length (filter (fun tw => existsb (words_match tw) mws = true) tws).

(** A number of the host language from a count. *)
Definition number (n : nat) : float := PrimFloat.of_uint63 (Uint63.of_Z (Z.of_nat n)).

Record Scored := mkScored {
  s_task : Task;
  score : float;
  matchCount : nat
}.

Definition score_task (mws : list string) (t : Task) : Scored :=
  let tws := titleWords t in
  let mc := count_matches tws mws in
  {| s_task := t;
     score := if (0 <? length tws)%nat then PrimFloat.div (number mc) (number (length tws))
              else 0%float;
     matchCount := mc |}.

Definition survives (s : Scored) : bool :=
  PrimFloat.ltb 0.3%float (score s) || (2 <=? matchCount s)%nat.

(** A number is truthy unless it is zero or not a number. *)
Definition truthy_number (x : float) : bool :=
  negb (PrimFloat.eqb x 0%float) && negb (PrimFloat.is_nan x).

(** [b.score - a.score || b.matchCount - a.matchCount] is positive. *)
Definition ranks_after (a b : Scored) : bool :=
  let d := PrimFloat.sub (score b) (score a) in
  if truthy_number d then PrimFloat.ltb 0%float d
  else (matchCount a <? matchCount b)%nat.

Definition scored (lower : string) (allTasks : list Task) : list Scored :=
  sort ranks_after
    (filter (fun s => survives s = true) (map (score_task (messageWords lower)) allTasks)).

Definition clear_winner (s0 s1 : Scored) : bool :=
  PrimFloat.leb 0.6%float (score s0) &&
  PrimFloat.ltb (PrimFloat.mul (score s1) 1.2%float) (score s0).

Definition overlap_rule (lower : string) (allTasks : list Task) : Found :=
  match scored lower allTasks with
  | [] => unresolved []
  | [s] => resolved (s_task s)
  | (s0 :: s1 :: _) as ranked =>
      if clear_winner s0 s1 then resolved (s_task s0)
      else unresolved (map s_task (Js.slice ranked 0 5))
  end.

Definition findTaskInMessage (message : string) (allTasks : list Task) : Found :=
  match allTasks with
  | [] => unresolved []
  | _ :: _ =>
      let lower := Str.toLowerCase message in
      match quoted_rule message allTasks with
      | Some decided => decided
      | None =>
          match substring_rule lower allTasks with
          | Some t => resolved t
          | None => overlap_rule lower allTasks
          end
      end
  end.

(** *** [parseNaturalDate] *)

Definition in_days_re : re :=
  mkRe (seqs [lit "in"; plus space; Group 1 (plus digit); plus space; lit "day"]) false.
Definition in_weeks_re : re :=
  mkRe (seqs [lit "in"; plus space; Group 1 (plus digit); plus space; lit "week"]) false.

Definition dayNames : list string :=
  ["sunday"; "monday"; "tuesday"; "wednesday"; "thursday"; "friday"; "saturday"].

Definition next_day_re : re :=
  mkRe (seqs [opt (Group 1 (Seq (lit "next") (plus space)));
              Group 2 (words ["monday"; "tuesday"; "wednesday"; "thursday";
                              "friday"; "saturday"; "sunday"])]) false.

Definition one_of_strings (s : string) (l : list string) : bool :=
  existsb (String.eqb s) l.

Definition parseNaturalDate (clk : Dates.Clock) (text : string) : option string :=
  let lower := Str.trim (Str.toLowerCase text) in
  let today := Dates.setHours0 clk (Dates.now clk) in
  let plus_days n := Dates.setDate clk today (Dates.getDate clk today + n) in
  if one_of_strings lower ["today"; "end of day"; "eod"] then
    Some (Dates.isoDay today)
  else if one_of_strings lower ["tomorrow"; "tmr"; "tmrw"] then
    Some (Dates.isoDay (plus_days 1))
  else if String.eqb lower "next week" then
    Some (Dates.isoDay (plus_days 7))
  else if String.eqb lower "next month" then
    Some (Dates.isoDay (Dates.setMonth clk today (Dates.getMonth clk today + 1)))
  else
    match exec in_days_re lower with
    | Some m =>
        Some (Dates.isoDay (plus_days (Str.parseInt (default EmptyString (group lower m 1)))))
    | None =>
    match exec in_weeks_re lower with
    | Some m =>
        Some (Dates.isoDay
                (plus_days (Str.parseInt (default EmptyString (group lower m 1)) * 7)))
    | None =>
    match exec next_day_re lower with
    | Some m =>
        let targetDay := Js.indexOf dayNames (default EmptyString (group lower m 2)) in
        let currentDay := Dates.getDay clk today in
        let daysUntil := targetDay - currentDay in
        let daysUntil := if daysUntil <=? 0 then daysUntil + 7 else daysUntil in
        Some (Dates.isoDay (plus_days daysUntil))
    | None =>
        match Dates.parse clk lower with
        | Some dateAttempt =>
            if 2000 <? Dates.getFullYear clk dateAttempt
            then Some (Dates.isoDay dateAttempt) else None
        | None => None
        end
    end end end.

(** *** The reference resolvers *)

Definition sep_opt : regex := opt (Cls (fun a => Str.is_space a || Ascii.eqb a "-")).

Definition todo_re : re :=
  mkRe (seqs [WordB;
              alts [seqs [lit "to"; sep_opt; lit "do"]; lit "todo"; lit "backlog"];
              WordB]) false.
Definition in_progress_re : re :=
  mkRe (seqs [WordB;
              alts [seqs [lit "in"; sep_opt; lit "progress"]; lit "doing";
                    lit "working"; lit "active"; lit "started"; lit "wip"];
              WordB]) false.
Definition done_re : re :=
  mkRe (seqs [WordB;
              alts [lit "done"; Seq (lit "complete") (opt (Chr "d"));
                    Seq (lit "finishe") (opt (Chr "d"))];
              WordB]) false.

Definition parseColumnRef (text : string) : option ColumnId :=
  let lower := Str.toLowerCase text in
  if test todo_re lower then Some todo
  else if test in_progress_re lower then Some in_progress
  else if test done_re lower then Some done
  else None.

Definition word_re (ws : list string) : re := mkRe (seqs [WordB; words ws; WordB]) false.

Definition parsePriorityRef (text : string) : option Priority :=
  let lower := Str.toLowerCase text in
  if test (word_re ["high"; "urgent"; "critical"; "important"]) lower then Some high
  else if test (word_re ["medium"; "normal"; "moderate"; "med"]) lower then Some medium
  else if test (word_re ["low"; "minor"; "trivial"]) lower then Some low
  else None.

(** *** [normalizeMessage] *)

(** The words of a phrase, each followed by [\s+]. *)
Definition phrase (ws : list string) : regex :=
  seqs (map (fun w => Seq (lit w) (plus space)) ws).

Definition preamble_re : re :=
  mkRe (Seq Bol
          (Group 1
             (alts [phrase ["please"]; phrase ["can"; "you"]; phrase ["could"; "you"];
                    phrase ["would"; "you"]; phrase ["i"; "want"; "to"];
                    phrase ["i'd"; "like"; "to"]; phrase ["i"; "need"; "to"];
                    phrase ["i"; "want"; "you"; "to"]]))) true.

Definition question_marks_re : re := mkRe (Seq (plus (Chr "?")) Eol) false.

Definition normalizeMessage (msg : string) : string :=
  Str.trim (remove_match question_marks_re (remove_match preamble_re msg)).

Definition formatCandidates (cs : list Task) : string :=
  Str.join Str.nl
    (map (fun c => "• **" +:+ title c +:+ "** (" +:+ COLUMN_NAMES (columnId c)
                   +:+ ", " +:+ priority_name (priority c) +:+ " priority)") cs).

(** *** [processMessage]

    The intents are tried in the order of the source: adding tags, removing
    tags, creating a task, and then the handlers for moving, editing,
    deleting and the read-only questions. The model covers the first three;
    [Later] stands for a message that reaches the later handlers. *)

Inductive Outcome :=
| Replied (r : ChatResponse)
| Later.

Definition reply (t : string) : Outcome := Replied (mkResponse t None).
Definition reply_with (t : string) (a : ChatBotAction) : Outcome :=
  Replied (mkResponse t (Some a)).

Definition tag_word : regex := Seq (lit "tag") (opt (Chr "s")).
Definition a_opt : regex := opt (Seq (lit "a") (plus space)).

Definition add_tag_re : re :=
  mkRe (seqs [Bol; lit "add"; plus space; opt (Group 1 (Seq (lit "a") (plus space)));
              tag_word; WordB]) false.
Definition tag_verb_re : re := mkRe (seqs [Bol; lit "tag"; space]) false.
Definition tag_source_re : re :=
  mkRe (seqs [Alt (seqs [lit "add"; plus space; a_opt; tag_word; plus space])
                  (seqs [lit "tag"; plus space]);
              Group 1 (plus_lazy any);
              alts [seqs [plus space; lit "to"; plus space];
                    seqs [plus space; lit "on"; plus space];
                    seqs [plus space; lit "for"; plus space]];
              Group 2 (plus any)]) true.

Definition remove_tag_re : re :=
  mkRe (seqs [Bol; lit "remove"; plus space; opt (Group 1 (Seq (lit "a") (plus space)));
              tag_word; WordB]) false.
Definition untag_re : re := mkRe (seqs [Bol; lit "untag"; space]) false.
Definition tag_target_re : re :=
  mkRe (seqs [Alt (seqs [lit "remove"; plus space; a_opt; tag_word; plus space])
                  (seqs [lit "untag"; plus space]);
              Group 1 (plus_lazy any);
              alts [seqs [plus space; lit "from"; plus space];
                    seqs [plus space; lit "on"; plus space]];
              Group 2 (plus any)]) true.

Definition list_sep_re : re := mkRe (plus (one_of ["," ; ";" ; "&"]%char)) false.

(** [text.split(/[,;&]+/).map(t => t.trim().toLowerCase())]. *)
Definition tag_list (s : string) : list string :=
  map (fun t => Str.toLowerCase (Str.trim t)) (split list_sep_re s).

Definition nonempty (s : string) : bool := negb (String.eqb s EmptyString).

(** [[...new Set(l)]]: the first occurrence of each element, in order. *)
Definition unique (l : list string) : list string :=
  fold_left (fun acc x => if existsb (String.eqb x) acc then acc else acc ++ [x]) l [].

Definition backticked (ts : list string) : string :=
  Str.join ", " (map (fun t => "`" +:+ t +:+ "`") ts).

Definition plural (ts : list string) : string :=
  if (1 <? length ts)%nat then "s" else EmptyString.

Definition which_task (cs : list Task) : string :=
  "Which task do you mean?" +:+ Str.nl +:+ Str.nl +:+ formatCandidates cs.

Definition not_found (taskRef : string) : string :=
  "❌ I couldn't find a task matching " +:+ Str.dq +:+ "**" +:+ taskRef +:+ "**"
  +:+ Str.dq +:+ ". Please check the name and try again.".

Definition quoted_line (s : string) : string :=
  "• **" +:+ Str.dq +:+ s +:+ Str.dq +:+ "**".

Definition add_tags (normalized : string) (allTasks : list Task) : Outcome :=
  match exec tag_source_re normalized with
  | Some m =>
      let newTags :=
        List.filter nonempty (tag_list (default EmptyString (group normalized m 1))) in
      let taskRef := default EmptyString (group normalized m 2) in
      let f := findTaskInMessage taskRef allTasks in
      match task f with
      | None =>
          if (0 <? length (candidates f))%nat then reply (which_task (candidates f))
          else reply (not_found taskRef)
      | Some t =>
          let merged := unique (tags t ++ newTags) in
          reply_with
            ("🏷️ Added tag" +:+ plural newTags +:+ " **" +:+ Str.join ", " newTags
             +:+ "** to **" +:+ title t +:+ "**." +:+ Str.nl +:+ Str.nl
             +:+ "Current tags: " +:+ backticked merged)
            (Update (id t) (mkUpdates None None None None (Some merged) None None))
      end
  | None =>
      reply ("To add tags, say:" +:+ Str.nl
             +:+ quoted_line "Add tag frontend to [task name]" +:+ Str.nl
             +:+ quoted_line "Add tags design, ui to [task name]")
  end.

Definition remove_tags (normalized : string) (allTasks : list Task) : Outcome :=
  match exec tag_target_re normalized with
  | Some m =>
      let tagsToRemove :=
        List.filter nonempty (tag_list (default EmptyString (group normalized m 1))) in
      let taskRef := default EmptyString (group normalized m 2) in
      let f := findTaskInMessage taskRef allTasks in
      match task f with
      | None =>
          if (0 <? length (candidates f))%nat then reply (which_task (candidates f))
          else reply (not_found taskRef)
      | Some t =>
          let remaining :=
            List.filter (fun x => negb (existsb (String.eqb x) tagsToRemove)) (tags t) in
          reply_with
            ("🏷️ Removed tag" +:+ plural tagsToRemove +:+ " **"
             +:+ Str.join ", " tagsToRemove +:+ "** from **" +:+ title t +:+ "**."
             +:+ (if (0 <? length remaining)%nat
                  then Str.nl +:+ Str.nl +:+ "Remaining tags: " +:+ backticked remaining
                  else Str.nl +:+ Str.nl +:+ "No tags remaining."))
            (Update (id t) (mkUpdates None None None None (Some remaining) None None))
      end
  | None =>
      reply ("To remove tags, say:" +:+ Str.nl
             +:+ quoted_line "Remove tag frontend from [task name]" +:+ Str.nl
             +:+ quoted_line "Remove tags design, ui from [task name]")
  end.

(** The keyword clauses that end a captured title, due date or tag list. *)
Definition to_do : regex := seqs [lit "to"; opt space; lit "do"].
Definition in_progress_tight : regex := seqs [lit "in"; opt space; lit "progress"].
Definition in_progress_loose : regex := seqs [lit "in"; sep_opt; lit "progress"].

Definition in_column (cols : list regex) : regex :=
  seqs [lit "in"; plus space; alts cols].

Definition columns_tight : list regex :=
  [lit "todo"; to_do; in_progress_tight; lit "doing"; lit "done"].
Definition columns_loose : list regex :=
  [lit "todo"; to_do; in_progress_loose; lit "doing"; lit "done"].
Definition columns_completed : list regex :=
  [lit "todo"; to_do; in_progress_loose; lit "doing"; lit "done"; lit "completed"].

Definition clause (kws : list regex) : regex := seqs [plus space; alts kws; WordB].

Definition title_keywords (cols : list regex) : list regex :=
  [lit "with"; lit "priority"; lit "due"; lit "by"; tag_word; lit "tagged";
   in_column cols; lit "description"; lit "desc"].

Definition until (kws : list regex) : regex := Alt (clause kws) Eol.

Definition create_re : re :=
  mkRe (seqs [Bol; Group 1 (words ["create"; "add"; "make"; "new"]); space]) false.
Definition create_bare_re : re :=
  mkRe (seqs [Bol; Group 1 (words ["create"; "add"]); star space; Eol]) false.
Definition question_re : re :=
  mkRe (seqs [Bol; Group 1 (words ["how"; "what"; "when"; "where"; "why"; "can i"]);
              space]) false.

Definition called_re : re :=
  mkRe (seqs [words ["called"; "titled"; "named"]; plus space;
              Group 1 (plus_lazy any); until (title_keywords columns_tight)]) true.
Definition colon_re : re :=
  mkRe (seqs [words ["task"; "item"; "card"]; star space; Chr ":"; star space;
              Group 1 (plus_lazy any); until (title_keywords columns_tight)]) true.
Definition task_re : re :=
  mkRe (seqs [words ["task"; "item"; "card"]; plus space;
              Group 1 (plus_lazy any); until (title_keywords columns_completed)]) true.
Definition direct_re : re :=
  mkRe (seqs [Bol; words ["create"; "add"; "make"; "new"]; plus space;
              opt (Alt (Seq (lit "a") (plus space)) (Seq (lit "an") (plus space)));
              opt (seqs [words ["high"; "medium"; "low"]; sep_opt;
                         opt (Seq (lit "priority") (plus space))]);
              Group 1 (plus_lazy any); until (title_keywords columns_loose)]) true.

Definition article_re : re :=
  mkRe (seqs [Bol; Group 1 (words ["a"; "an"; "the"]); plus space]) true.
Definition called_prefix_re : re :=
  mkRe (seqs [Bol; Group 1 (words ["called"; "titled"; "named"]); plus space]) true.
Definition kind_prefix_re : re :=
  mkRe (seqs [Bol; Group 1 (words ["task"; "item"; "card"]); star space]) true.

Definition due_re : re :=
  mkRe (seqs [words ["due"; "by"; "deadline"]; plus space; Group 1 (plus_lazy any);
              until [lit "with"; lit "priority"; tag_word; lit "tagged";
                     in_column columns_loose; lit "description"; lit "desc"]]) true.
Definition tags_re : re :=
  mkRe (seqs [alts [tag_word; lit "tagged"; Seq (lit "label") (opt (Chr "s"))];
              star space; opt (Chr ":"); star space; Group 1 (plus_lazy any);
              until [lit "with"; lit "priority"; lit "due"; lit "by";
                     in_column columns_loose; lit "description"; lit "desc"]]) true.
Definition description_re : re :=
  mkRe (seqs [words ["description"; "desc"; "details"]; star space; opt (Chr ":");
              star space; Group 1 (plus_lazy any); Eol]) true.
Definition leaked_clause_re : re :=
  mkRe (seqs [plus space; Group 1 (alts (title_keywords columns_loose)); WordB;
              star any; Eol]) true.
Definition outer_quote_re : re :=
  mkRe (Alt (Seq Bol quote) (Seq quote Eol)) false.

Definition captured (e : re) (s : string) : option string :=
  m ← exec e s; group s m 1.

(** The title extraction of the create branch, each rule tried while the
    title is still empty. *)
Definition title_from_quotes (normalized : string) : string :=
  default EmptyString (captured quoted_re normalized).

Definition title_from_called (normalized : string) : string :=
  match captured called_re normalized with
  | Some t => Str.trim t
  | None => EmptyString
  end.

Definition title_from_colon (normalized : string) : string :=
  match captured colon_re normalized with
  | Some t => Str.trim t
  | None => EmptyString
  end.

Definition title_from_task (normalized : string) : string :=
  match captured task_re normalized with
  | Some t => Str.trim (remove_match called_prefix_re (remove_match article_re t))
  | None => EmptyString
  end.

Definition title_from_direct (normalized : string) : string :=
  match captured direct_re normalized with
  | Some t =>
      let candidate :=
        Str.trim (remove_match called_prefix_re (remove_match kind_prefix_re t)) in
      if nonempty candidate
         && negb (String.eqb (Str.toLowerCase candidate) "task")
         && negb (String.eqb (Str.toLowerCase candidate) "a")
         && (1 <? String.length candidate)%nat
      then candidate else EmptyString
  | None => EmptyString
  end.

Definition first_nonempty (rules : list (string -> string)) (normalized : string) : string :=
  fold_left (fun ttl rule => if nonempty ttl then ttl else rule normalized)
    rules EmptyString.

Definition extract_title (normalized : string) : string :=
  first_nonempty
    [title_from_quotes; title_from_called; title_from_colon; title_from_task;
     title_from_direct] normalized.

Definition need_title : string :=
  "I'd be happy to create a task! Please provide a title. Here are some examples:"
  +:+ Str.nl +:+ Str.nl
  +:+ quoted_line "Create task: Fix the login bug" +:+ Str.nl
  +:+ quoted_line "Add a task called Review PR" +:+ Str.nl
  +:+ quoted_line "Create a high priority task 'Deploy v2' due tomorrow" +:+ Str.nl
  +:+ quoted_line "New task Design homepage with tags design, ui" +:+ Str.nl
  +:+ quoted_line "Add task Set up CI/CD in progress".

Definition unclear_title : string :=
  "I couldn't determine the task title. Please try again with a clearer format, like:"
  +:+ Str.nl +:+ Str.nl
  +:+ quoted_line "Create task: Fix the login bug".

Definition create_task (clk : Dates.Clock) (normalized lower : string) : Outcome :=
  let ttl := extract_title normalized in
  if negb (nonempty ttl) then reply need_title
  else
    let pri := default medium (parsePriorityRef lower) in
    let column := default todo (parseColumnRef lower) in
    let due :=
      match captured due_re lower with
      | Some phrase => parseNaturalDate clk (Str.trim phrase)
      | None => None
      end in
    let tgs :=
      match captured tags_re normalized with
      | Some l =>
          List.filter (fun t => (0 <? String.length t)%nat && negb (String.eqb t "and"))
            (tag_list l)
      | None => []
      end in
    let descr :=
      match captured description_re normalized with
      | Some d => Str.trim d
      | None => EmptyString
      end in
    let ttl := Str.trim (remove_match leaked_clause_re ttl) in
    let ttl := Str.trim (remove_all outer_quote_re ttl) in
    if negb (nonempty ttl) then reply unclear_title
    else
      let parts :=
        ["✅ **Task created!**" +:+ Str.nl; "📋 **" +:+ ttl +:+ "**"]
        ++ (if nonempty descr then ["📝 " +:+ descr] else [])
        ++ [PRIORITY_EMOJI pri +:+ " Priority: **" +:+ priority_name pri +:+ "**";
            "📂 Column: **" +:+ COLUMN_NAMES column +:+ "**"]
        ++ (match due with Some d => ["📅 Due: **" +:+ d +:+ "**"] | None => [] end)
        ++ (if (0 <? length tgs)%nat then ["🏷️ Tags: " +:+ backticked tgs] else []) in
      reply_with (Str.join Str.nl parts) (Create column ttl descr pri due tgs).

Definition processMessage (clk : Dates.Clock) (message : string)
    (allTasks : list Task) : Outcome :=
  let normalized := normalizeMessage message in
  let lower := Str.toLowerCase normalized in
  if test add_tag_re lower || test tag_verb_re lower then
    add_tags normalized allTasks
  else if test remove_tag_re lower || test untag_re lower then
    remove_tags normalized allTasks
  else if (test create_re lower || test create_bare_re lower
           || String.eqb lower "new task")
          && negb (test question_re lower) then
    create_task clk normalized lower
  else Later.

End Chatbot.

(** ** Notions the properties are stated with *)

Section StoreNotions.
Import Board.

(** The stores the hook can be in: from a loaded board, any sequence of
    mutations that complete, undos and redos. *)
Inductive reachable (b0 : BoardState) : Store -> Prop :=
| reach_init : reachable b0 (initStore b0)
| reach_mutate m s s' : reachable b0 s -> mutate m s = Some s' -> reachable b0 s'
| reach_undo s : reachable b0 s -> reachable b0 (undo s)
| reach_redo s : reachable b0 s -> reachable b0 (redo s).

(** Which calls run to completion: a delete throws only on a stored object
    without [columnId], a move only when it reads [completedAt] of a missing
    entry. *)
Definition completes (m : Mutation) (b : BoardState) : Prop :=
  match m with
  | MDelete taskId =>
      forall o, tasks b !! taskId = Some o -> is_Some (obj_columnId o)
  | MMove _ taskId _ destCol _ =>
      destCol = done -> is_Some (tasks b !! taskId)
  | _ => True
  end.

(** The ids listed in column [c] of board [b]. *)
Definition col_ids (b : BoardState) (c : ColumnId) : list string :=
  taskIds (get_col (columns b) c).

(** The invariant of the data model: every column carries its own
    identifier; every stored object is a complete task; no column lists an
    id twice; every listed id is stored with the listing column as its
    [columnId]; every stored task is listed in the column its [columnId]
    names. *)
Record board_inv (b : BoardState) : Prop := {
  inv_col_id : forall c, col_id (get_col (columns b) c) = c;
  inv_full : forall tid o, tasks b !! tid = Some o -> exists t, o = Full t;
  inv_nodup : forall c, NoDup (col_ids b c);
  inv_listed : forall c tid, tid ∈ col_ids b c ->
    exists t, tasks b !! tid = Some (Full t) /\ columnId t = c;
  inv_filed : forall tid t, tasks b !! tid = Some (Full t) ->
    tid ∈ col_ids b (columnId t)
}.

(** *** Well-targeted calls

    A call of the store is well-targeted when
    - it is [addTask] with any fields and an id that is not stored (a fresh
      [uuidv4()]);
    - it is [updateTask] on a task that is stored when the call runs, with
      an update that either has no [columnId] or repeats the column the
      task is in;
    - it is [deleteTask] with any id;
    - it is [moveTask] on a task that is stored when the call runs, from
      the column the task is in, to any column and any index.

    The call sites of the application ([App.tsx], [Chatbot.tsx]) pass an id
    and a column they captured earlier: the task of the open edit dialog,
    the task a chat message resolved to, the card of a drag. Such a call is
    well-targeted as long as the task is still stored, and still in that
    column, when the call runs; it is not when the task was deleted, or the
    board was undone, in between. *)
Inductive targeted_call (s : Store) : Store -> Prop :=
| call_addTask newId now col ttl descr pri due tgs s' :
    tasks (board s) !! newId = None ->
    addTask newId now col ttl descr pri due tgs s = Some s' ->
    targeted_call s s'
| call_updateTask taskId t u s' :
    tasks (board s) !! taskId = Some (Full t) ->
    u_columnId u = None \/ u_columnId u = Some (columnId t) ->
    updateTask taskId u s = Some s' ->
    targeted_call s s'
| call_deleteTask taskId s' :
    deleteTask taskId s = Some s' ->
    targeted_call s s'
| call_moveTask now taskId t dst i s' :
    tasks (board s) !! taskId = Some (Full t) ->
    moveTask now taskId (columnId t) dst i s = Some s' ->
    targeted_call s s'.

(** The insertion position the specification describes: [destIndex] clamped
    to the range [0, length]. *)
Definition clamped_index (len : nat) (i : Z) : nat :=
  Z.to_nat (Z.max 0 (Z.min i (Z.of_nat len))).

End StoreNotions.

(** *** Numbers of the host language

    A number is a binary64 value. [signed sx r] says that [r] is a zero, a
    finite number or an infinity of sign [sx] ([false] is the positive
    sign), and [signed_nonzero] leaves the zero out. *)
Section NumberNotions.

Definition signed (sx : bool) (r : spec_float) : Prop :=
  r = S754_zero sx \/ (exists m e, r = S754_finite sx m e) \/ r = S754_infinity sx.

Definition signed_nonzero (sx : bool) (r : spec_float) : Prop :=
  (exists m e, r = S754_finite sx m e) \/ r = S754_infinity sx.

(** The place of a number that is not negative among such numbers: zero,
    then the finite numbers by exponent and mantissa, then infinity. *)
Definition magnitude (r : spec_float) : Z * Z * Z :=
  match r with
  | S754_zero _ => (0, 0, 0)
  | S754_finite _ m e => (1, e, Zpos m)
  | S754_infinity _ => (2, 0, 0)
  | S754_nan => (3, 0, 0)
  end.

Definition lex_lt (p q : Z * Z * Z) : Prop :=
  p.1.1 < q.1.1 \/
  (p.1.1 = q.1.1 /\ (p.1.2 < q.1.2 \/ (p.1.2 = q.1.2 /\ p.2 < q.2))).

Definition lex_eq (p q : Z * Z * Z) : Prop :=
  p.1.1 = q.1.1 /\ p.1.2 = q.1.2 /\ p.2 = q.2.

End NumberNotions.

Section ParserNotions.
Import Dates Chatbot.

(** The tasks a board hands to the parser. The source enumerates them in the
    insertion order of their ids; no property below depends on the order. *)
Definition board_tasks (b : BoardState) : list Task :=
  omap (fun o => match o with Full t => Some t | Partial _ => None end)
    (map_to_list (tasks b)).*2.

Definition fix_login_bug_reply : string :=
  Str.join Str.nl
    ["✅ **Task created!**" +:+ Str.nl;
     "📋 **Fix login bug**";
     "🟡 Priority: **medium**";
     "📂 Column: **To Do**"].

(** A comparator that orders by a key, the largest first, and the order it
    produces. *)
Definition by_key_desc {A} (key : A -> nat) (a b : A) : Prop := (key b <= key a)%nat.
Definition key_after {A} (key : A -> nat) (a b : A) : bool := (key a <? key b)%nat.

(** A comparator is consistent on a list when, on its elements, [a] after
    [b] excludes [b] after [a], and not being after is transitive. The sort
    of the host language promises an ordered result for such comparators
    only. *)
Definition consistent {A} (after : A -> A -> bool) (l : list A) : Prop :=
  (forall a b, a ∈ l -> b ∈ l -> after a b = true -> after b a = false) /\
  (forall a b c, a ∈ l -> b ∈ l -> c ∈ l ->
     after a b = false -> after b c = false -> after a c = false).

(** The tasks that pass the filter of the word-overlap stage, before they
    are ranked. *)
Definition survivors (lower : string) (allTasks : list Task) : list Scored :=
  filter (fun s => survives s = true) (map (score_task (messageWords lower)) allTasks).

(** The order the ranking is said to produce: [a] may stand before [b]
    when its score is the greater one, or the scores are equal and its
    match count is not the smaller one. *)
Definition ranked_desc (a b : Scored) : Prop :=
  PrimFloat.ltb (score b) (score a) = true \/
  (PrimFloat.eqb (score a) (score b) = true /\ (matchCount b <= matchCount a)%nat).

(** An array of the host language holds fewer than [2 ^ 32] elements; so
    does the list of a title's words. *)
Definition array_sized (allTasks : list Task) : Prop :=
  Forall (fun t => Z.of_nat (length (titleWords t)) < 2 ^ 32) allTasks.

(** The UTC day of the resolver's [today], local midnight. *)
Definition resolver_day (clk : Clock) : Z := Day (setHours0 clk (now clk)).

End ParserNotions.

(** ** Sample boards, tasks and clocks *)

Section Samples.
Import Board Dates.

(** A board with one task in To Do, and the task id ["ghost"] unused. *)
Definition sample_task : Task :=
  mkTask "t1" "Review PR" EmptyString medium None [] "2024-01-01T00:00:00.000Z" None todo.

Definition one_task_board : BoardState :=
  {| tasks := {[ "t1" := Full sample_task ]};
     columns :=
       {| col_todo := mkColumn todo "To Do" ["t1"];
          col_in_progress := mkColumn in_progress "In Progress" [];
          col_done := mkColumn done "Done" [] |};
     columnOrder := [todo; in_progress; done] |}.

Definition rename_to (s : string) : Updates :=
  mkUpdates (Some s) None None None None None None.

(** A store with three boards on the redo stack. *)
Definition redoable_store : Store :=
  {| board := emptyBoard;
     history := [];
     future := [emptyBoard; emptyBoard; emptyBoard] |}.

(** A board with one task in To Do and two in Done. *)
Definition three_task_board : BoardState :=
  {| tasks := {[ "x" := Full (mkTask "x" "Write tests" EmptyString medium None []
                                 "2024-01-01T00:00:00.000Z" None todo);
                 "a" := Full (mkTask "a" "Set up repo" EmptyString low None []
                                 "2024-01-01T00:00:00.000Z"
                                 (Some "2024-01-02T00:00:00.000Z") done);
                 "b" := Full (mkTask "b" "Pick a name" EmptyString low None []
                                 "2024-01-01T00:00:00.000Z"
                                 (Some "2024-01-03T00:00:00.000Z") done) ]};
     columns :=
       {| col_todo := mkColumn todo "To Do" ["x"];
          col_in_progress := mkColumn in_progress "In Progress" [];
          col_done := mkColumn done "Done" ["a"; "b"] |};
     columnOrder := [todo; in_progress; done] |}.

(** Six distinct ids and a clock for a concrete seed board. *)
Definition demo_uuid (n : nat) : string :=
  String (ascii_of_nat (97 + n)) EmptyString.

Definition demo_iso (d : Z) : string := "2024-05-05T10:00:00.000Z".

Definition demo_store : Store :=
  initStore (createDefaultBoard demo_uuid demo_iso).

(** Two tasks of which one title contains the other. *)
Definition fix_login : Task :=
  mkTask "t2" "Fix login" EmptyString medium None [] "2024-01-01T00:00:00.000Z" None todo.
Definition fix_login_bug : Task :=
  mkTask "t1" "Fix login bug" EmptyString high None [] "2024-01-01T00:00:00.000Z" None todo.

(** Two tasks that share two of their three words with a message. *)
Definition review_docs : Task :=
  mkTask "r1" "Review PR docs" EmptyString medium None [] "2024-01-01T00:00:00.000Z" None todo.
Definition review_draft : Task :=
  mkTask "r2" "Review PR draft" EmptyString medium None [] "2024-01-01T00:00:00.000Z" None todo.

(** Monday 6 May 2024, 10:00 UTC, read in a zone two hours east of UTC
    (noon, local time), with a date parser that rejects free text. *)
Definition noon_east : Clock :=
  {| now := 1714989600000; offset := 120; parse := fun _ => None |}.

(** The same instant read in UTC. *)
Definition ten_utc : Clock :=
  {| now := 1714989600000; offset := 0; parse := fun _ => None |}.

End Samples.

(** Closes the case analysis on the rule a move selects. *)
Ltac solve_rule :=
  repeat split; try done; try congruence;
  try (intros [? ?]; congruence); try (intros; congruence).

(** ** The action intents after the create intent
    ([src/components/Chatbot.tsx], [processMessage], continued)

    A message that the tag and create intents leave alone ([Later]) reaches
    the handlers for moving, editing and deleting a task, in this order. The
    read-only intents that follow them (greeting, help, summary, ...) carry
    no action and stay [Later] here. *)

Module ChatbotActions.
Import Regex Chatbot.

Definition quoted (s : string) : string := Str.dq +:+ s +:+ Str.dq.
Definition blank : string := Str.nl +:+ Str.nl.

(** [allTasks.slice(0, 8).map(line).join('\n')]. *)
Definition first_tasks (line : Task -> string) (allTasks : list Task) : string :=
  Str.join Str.nl (map line (Js.slice allTasks 0 8)).

(** *** Move, complete, start *)

Definition move_verb_re : re :=
  mkRe (Seq Bol
          (Group 1 (alts [lit "move"; lit "complete"; lit "finish";
                          seqs [lit "done"; plus space; lit "with"];
                          lit "mark"; lit "start"; lit "begin"]))) false.
Definition complete_verb_re : re :=
  mkRe (Seq Bol
          (Group 1 (alts [lit "complete"; lit "finish";
                          seqs [lit "done"; plus space; lit "with"]]))) false.
Definition mark_done_re : re :=
  mkRe (seqs [lit "mark"; star any; opt (Seq (lit "as") (plus space));
              Alt (lit "done") (lit "complete")]) false.
Definition start_verb_re : re :=
  mkRe (Seq Bol (Group 1 (words ["start"; "begin"]))) false.

Definition destination (lower : string) : option ColumnId :=
  if test complete_verb_re lower || test mark_done_re lower then Some done
  else if test start_verb_re lower then Some in_progress
  else parseColumnRef lower.

Definition move_task (normalized lower : string) (allTasks : list Task) : Outcome :=
  match destination lower with
  | None =>
      reply ("Where should I move the task? Options:" +:+ Str.nl
             +:+ "• **To Do**" +:+ Str.nl +:+ "• **In Progress**" +:+ Str.nl
             +:+ "• **Done**" +:+ blank
             +:+ "Example: **" +:+ quoted "Move [task name] to In Progress" +:+ "**")
  | Some destCol =>
      let f := findTaskInMessage normalized allTasks in
      match task f with
      | None =>
          if (0 <? length (candidates f))%nat then
            reply ("Which task do you mean?" +:+ blank
                   +:+ formatCandidates (candidates f) +:+ blank
                   +:+ "Please be more specific.")
          else if (length allTasks =? 0)%nat then
            reply "Your board is empty! Create some tasks first."
          else
            reply ("❌ I couldn't find that task. Here are your current tasks:" +:+ blank
                   +:+ first_tasks (fun t => "• **" +:+ title t +:+ "** ("
                                             +:+ COLUMN_NAMES (columnId t) +:+ ")")
                         allTasks
                   +:+ blank +:+ "Please use the exact task name.")
      | Some t =>
          if decide (columnId t = destCol) then
            reply ("ℹ️ **" +:+ title t +:+ "** is already in **"
                   +:+ COLUMN_NAMES destCol +:+ "**.")
          else
            let emoji :=
              match destCol with
              | done => "🎉"
              | in_progress => "🚀"
              | todo => "📋"
              end in
            reply_with
              (emoji +:+ " **" +:+ title t +:+ "** moved from **"
               +:+ COLUMN_NAMES (columnId t) +:+ "** → **" +:+ COLUMN_NAMES destCol
               +:+ "**!"
               +:+ (if decide (destCol = done)
                    then blank +:+ "Great job completing this task! 🎊"
                    else EmptyString))
              (Move (id t) (columnId t) destCol)
      end
  end.

(** *** Edit *)

Inductive Field := FPriority | FTitle | FDueDate | FDescription.

Definition edit_verb_re : re :=
  mkRe (Seq Bol
          (Group 1 (words ["change"; "set"; "update"; "edit"; "modify"; "rename";
                           "retitle"]))) false.
Definition rename_re : re := mkRe (Seq Bol (lit "rename")) false.

Definition detect_field (lower : string) : option Field :=
  if test (word_re ["priority"; "pri"]) lower then Some FPriority
  else if test rename_re lower || test (word_re ["title"; "name"]) lower then Some FTitle
  else if test (word_re ["due"; "deadline"; "date"]) lower then Some FDueDate
  else if test (word_re ["description"; "desc"; "details"]) lower then Some FDescription
  else None.

(** [/(?:to|as)\s+["']?(.+?)["']?\s*$/i] and its variants. *)
Definition value_tail : regex :=
  seqs [opt quote; Group 1 (plus_lazy any); opt quote; star space; Eol].

Definition to_or_as_re : re :=
  mkRe (seqs [words ["to"; "as"]; plus space; value_tail]) true.
Definition to_or_equals_quoted_re : re :=
  mkRe (seqs [Alt (lit "to") (Chr "="); plus space; value_tail]) true.
Definition description_of_re : re :=
  mkRe (seqs [lit "description"; plus space;
              opt (seqs [lit "of"; plus space; plus_lazy any; plus space]);
              opt (Seq (lit "to") (plus space));
              value_tail]) true.
Definition to_or_equals_re : re :=
  mkRe (seqs [Alt (lit "to") (Chr "="); plus space; Group 1 (plus_lazy any); Eol]) true.
Definition due_word_re : re :=
  mkRe (seqs [words ["due"; "deadline"; "date"]; plus space;
              opt (Alt (Seq (lit "to") (plus space)) (Seq (Chr "=") (plus space)));
              Group 1 (plus_lazy any); Eol]) true.
Definition clear_date_re : re :=
  mkRe (seqs [Bol;
              Group 1 (words ["none"; "clear"; "remove"; "no date"; "unset"; "null"]);
              Eol]) true.

(** [a || b] on two match attempts, as the capture of group 1. *)
Definition captured_either (e1 e2 : re) (s : string) : option string :=
  match exec e1 s with
  | Some m => group s m 1
  | None => captured e2 s
  end.

Definition set_priority (p : Priority) : Updates :=
  mkUpdates None None (Some p) None None None None.
Definition set_title (s : string) : Updates :=
  mkUpdates (Some s) None None None None None None.
Definition set_dueDate (d : option string) : Updates :=
  mkUpdates None None None (Some d) None None None.
Definition set_description (s : string) : Updates :=
  mkUpdates None (Some s) None None None None None.

Definition or_text (v : option string) (fallback : string) : string :=
  match v with
  | Some s => if nonempty s then s else fallback
  | None => fallback
  end.

Definition edit_field (clk : Dates.Clock) (field : Field) (normalized lower : string)
    (t : Task) : Outcome :=
  match field with
  | FPriority =>
      match parsePriorityRef lower with
      | Some newPriority =>
          if decide (newPriority = priority t) then
            reply ("ℹ️ **" +:+ title t +:+ "** is already set to **"
                   +:+ priority_name (priority t) +:+ "** priority.")
          else
            reply_with
              (PRIORITY_EMOJI newPriority +:+ " Updated **" +:+ title t
               +:+ "** priority: **" +:+ priority_name (priority t) +:+ "** → **"
               +:+ priority_name newPriority +:+ "**")
              (Update (id t) (set_priority newPriority))
      | None =>
          reply ("What priority should I set for **" +:+ title t
                 +:+ "**? Options: **high**, **medium**, or **low**." +:+ blank
                 +:+ "Current priority: **" +:+ priority_name (priority t) +:+ "**")
      end
  | FTitle =>
      match captured to_or_as_re normalized with
      | Some raw =>
          if nonempty (Str.trim raw) then
            reply_with
              ("✏️ Renamed: **" +:+ title t +:+ "** → **" +:+ Str.trim raw +:+ "**")
              (Update (id t) (set_title (Str.trim raw)))
          else
            reply ("What should I rename **" +:+ title t +:+ "** to?" +:+ blank
                   +:+ "Example: **"
                   +:+ quoted ("Rename " +:+ title t +:+ " to [new name]") +:+ "**")
      | None =>
          reply ("What should I rename **" +:+ title t +:+ "** to?" +:+ blank
                 +:+ "Example: **"
                 +:+ quoted ("Rename " +:+ title t +:+ " to [new name]") +:+ "**")
      end
  | FDueDate =>
      match captured_either to_or_equals_re due_word_re lower with
      | None =>
          reply ("When is **" +:+ title t +:+ "** due?" +:+ blank
                 +:+ "Examples: **tomorrow**, **next Friday**, **2025-01-15**, **in 3 days**"
                 +:+ blank +:+ "Current due date: **" +:+ or_text (dueDate t) "not set"
                 +:+ "**")
      | Some raw =>
          let dateStr := Str.trim raw in
          if test clear_date_re dateStr then
            reply_with ("📅 Cleared the due date for **" +:+ title t +:+ "**.")
              (Update (id t) (set_dueDate None))
          else
            match parseNaturalDate clk dateStr with
            | Some parsed =>
                if nonempty parsed then
                  reply_with
                    ("📅 Updated due date of **" +:+ title t +:+ "**: **"
                     +:+ or_text (dueDate t) "none" +:+ "** → **" +:+ parsed +:+ "**")
                    (Update (id t) (set_dueDate (Some parsed)))
                else
                  reply ("I couldn't parse " +:+ quoted ("**" +:+ dateStr +:+ "**")
                         +:+ " as a date. Try:" +:+ Str.nl
                         +:+ "• **tomorrow**, **next week**, **next friday**" +:+ Str.nl
                         +:+ "• **in 3 days**, **in 2 weeks**" +:+ Str.nl
                         +:+ "• **2025-01-15**")
            | None =>
                reply ("I couldn't parse " +:+ quoted ("**" +:+ dateStr +:+ "**")
                       +:+ " as a date. Try:" +:+ Str.nl
                       +:+ "• **tomorrow**, **next week**, **next friday**" +:+ Str.nl
                       +:+ "• **in 3 days**, **in 2 weeks**" +:+ Str.nl
                       +:+ "• **2025-01-15**")
            end
      end
  | FDescription =>
      let ask :=
        reply ("What should the description be for **" +:+ title t +:+ "**?" +:+ blank
               +:+ "Example: **"
               +:+ quoted ("Set description of " +:+ title t +:+ " to [new description]")
               +:+ "**" +:+ blank +:+ "Current: "
               +:+ (if nonempty (description t) then description t else "(empty)")) in
      match captured_either to_or_equals_quoted_re description_of_re normalized with
      | Some raw =>
          if nonempty (Str.trim raw) then
            reply_with
              ("📝 Updated description for **" +:+ title t +:+ "**:" +:+ Str.nl
               +:+ quoted (Str.trim raw))
              (Update (id t) (set_description (Str.trim raw)))
          else ask
      | None => ask
      end
  end.

Definition edit_menu (t : Task) : string :=
  "What would you like to change about **" +:+ title t +:+ "**?" +:+ blank
  +:+ quoted_line ("Change priority of " +:+ title t +:+ " to high") +:+ Str.nl
  +:+ quoted_line ("Rename " +:+ title t +:+ " to [new name]") +:+ Str.nl
  +:+ quoted_line ("Set due date of " +:+ title t +:+ " to tomorrow") +:+ Str.nl
  +:+ quoted_line ("Set description of " +:+ title t +:+ " to [text]") +:+ Str.nl
  +:+ quoted_line ("Add tag frontend to " +:+ title t).

Definition edit_help : string :=
  "What would you like to edit? I can change:" +:+ blank
  +:+ "• **Priority** — " +:+ quoted "Change priority of [task] to high" +:+ Str.nl
  +:+ "• **Title** — " +:+ quoted "Rename [task] to [new name]" +:+ Str.nl
  +:+ "• **Due date** — " +:+ quoted "Set due date of [task] to tomorrow" +:+ Str.nl
  +:+ "• **Description** — " +:+ quoted "Set description of [task] to [text]" +:+ Str.nl
  +:+ "• **Tags** — " +:+ quoted "Add tag frontend to [task]".

Definition edit_task (clk : Dates.Clock) (normalized lower : string)
    (allTasks : list Task) : Outcome :=
  let f := findTaskInMessage normalized allTasks in
  match detect_field lower with
  | None =>
      match task f with
      | Some t => reply (edit_menu t)
      | None =>
          if (0 <? length (candidates f))%nat then
            reply ("Which task do you want to edit?" +:+ blank
                   +:+ formatCandidates (candidates f))
          else reply edit_help
      end
  | Some field =>
      match task f with
      | None =>
          if (0 <? length (candidates f))%nat then
            reply ("Which task do you mean?" +:+ blank
                   +:+ formatCandidates (candidates f) +:+ blank
                   +:+ "Please be more specific.")
          else
            reply ("❌ I couldn't find that task. Please check the name and try again."
                   +:+ blank +:+ "Your tasks:" +:+ Str.nl
                   +:+ first_tasks (fun t => "• **" +:+ title t +:+ "**") allTasks)
      | Some t => edit_field clk field normalized lower t
      end
  end.

(** *** Delete *)

Definition delete_verb_re : re :=
  mkRe (seqs [Bol; Group 1 (words ["delete"; "remove"; "trash"; "discard"; "drop"]);
              space]) false.

Definition delete_task (normalized lower : string) (allTasks : list Task) : Outcome :=
  if test remove_tag_re lower then
    reply ("To remove tags, say:" +:+ Str.nl
           +:+ quoted_line "Remove tag frontend from [task name]")
  else
    let f := findTaskInMessage normalized allTasks in
    match task f with
    | None =>
        if (0 <? length (candidates f))%nat then
          reply ("Which task do you want to delete?" +:+ blank
                 +:+ formatCandidates (candidates f) +:+ blank
                 +:+ "Please be more specific.")
        else if (length allTasks =? 0)%nat then
          reply "Your board is empty! There's nothing to delete."
        else
          reply ("❌ I couldn't find that task. Here are your current tasks:" +:+ blank
                 +:+ first_tasks (fun t => "• **" +:+ title t +:+ "** ("
                                           +:+ COLUMN_NAMES (columnId t) +:+ ")")
                       allTasks)
    | Some t =>
        reply_with
          ("🗑️ Deleted **" +:+ title t +:+ "** from **" +:+ COLUMN_NAMES (columnId t)
           +:+ "**." +:+ blank +:+ "You can undo this with **Ctrl+Z**.")
          (Delete (id t))
    end.

(** The handlers in the order of the source. *)
Definition later_intents (clk : Dates.Clock) (normalized : string)
    (allTasks : list Task) : Outcome :=
  let lower := Str.toLowerCase normalized in
  if test move_verb_re lower then move_task normalized lower allTasks
  else if test edit_verb_re lower then edit_task clk normalized lower allTasks
  else if test delete_verb_re lower then delete_task normalized lower allTasks
  else Later.

(** [processMessage] through all of its action intents. *)
Definition processCommand (clk : Dates.Clock) (message : string)
    (allTasks : list Task) : Outcome :=
  match processMessage clk message allTasks with
  | Replied r => Replied r
  | Later => later_intents clk (normalizeMessage message) allTasks
  end.

(** [executeAction]: the store call of an action. [rendered] is the board the
    component was rendered with, whose destination column gives the index
    of a move. *)
Definition executeAction (newId now : string) (rendered : BoardState)
    (a : ChatBotAction) (s : Board.Store) : option Board.Store :=
  match a with
  | Create col ttl descr pri due tgs =>
      Board.addTask newId now col ttl descr pri due tgs s
  | Update taskId updates => Board.updateTask taskId updates s
  | Delete taskId => Board.deleteTask taskId s
  | Move taskId sourceCol destCol =>
      Board.moveTask now taskId sourceCol destCol
        (Z.of_nat (length (taskIds (Board.get_col (columns rendered) destCol)))) s
  end.

End ChatbotActions.

(** ** Due-date predicates ([src/utils/export.ts])

    [new Date(dueDate)] is the [parse] of the clock. *)

Module Utils.
Import Dates.

(** [d.setHours(23, 59, 59, 999)]. *)
Definition setHoursEnd (clk : Clock) (t : Z) : Z :=
  UTC clk (MakeDate (Day (LocalTime clk t)) 86399999).

(** A due date that is neither [null] nor empty, parsed; the inner [None]
    is an invalid date. *)
Definition due_time (clk : Clock) (dueDate : option string) : option (option Z) :=
  match dueDate with
  | Some d => if Chatbot.nonempty d then Some (parse clk d) else None
  | None => None
  end.

Definition isOverdue (clk : Clock) (dueDate : option string) : bool :=
  match due_time clk dueDate with
  | Some (Some due) => setHoursEnd clk due <? now clk
  | _ => false
  end.

Definition isDueToday (clk : Clock) (dueDate : option string) : bool :=
  match due_time clk dueDate with
  | Some (Some due) =>
      let today := now clk in
      (getFullYear clk due =? getFullYear clk today)
      && (getMonth clk due =? getMonth clk today)
      && (getDate clk due =? getDate clk today)
  | _ => false
  end.

Definition isDueThisWeek (clk : Clock) (dueDate : option string) : bool :=
  match due_time clk dueDate with
  | Some (Some due) =>
      let today := now clk in
      let endOfWeek :=
        setHoursEnd clk (setDate clk today (getDate clk today + (7 - getDay clk today))) in
      (today <=? due) && (due <=? endOfWeek)
  | _ => false
  end.

End Utils.

(** ** The handlers of the application ([src/App.tsx]) *)

Module App.
Import Board.

Record TaskData := mkTaskData {
  d_title : string;
  d_description : string;
  d_priority : Priority;
  d_dueDate : option string;
  d_tags : list string;
  d_columnId : ColumnId
}.

Definition data_updates (data : TaskData) : Updates :=
  {| u_title := Some (d_title data);
     u_description := Some (d_description data);
     u_priority := Some (d_priority data);
     u_dueDate := Some (d_dueDate data);
     u_tags := Some (d_tags data);
     u_completedAt := None;
     u_columnId := Some (d_columnId data) |}.

(** A call of the hook from a handler that makes several: each call pushes
    the board of the render, [rendered], and queues its update of the board,
    which runs on the board the earlier updates left. *)
Definition call (rendered : BoardState) (f : BoardState -> option BoardState)
    (s : Store) : option Store :=
  let s' := pushHistory rendered s in
  b ← f (board s');
  Some {| board := b; history := history s'; future := future s' |}.

Definition handleSaveTask (newId now : string) (editingTask : option Task)
    (data : TaskData) (s : Store) : option Store :=
  let rendered := board s in
  match editingTask with
  | Some t =>
      s1 ← (if decide (columnId t = d_columnId data) then Some s
            else call rendered
                   (moveTask_board now (id t) (columnId t) (d_columnId data)
                      (Z.of_nat (length (taskIds (get_col (columns rendered)
                                                    (d_columnId data)))))) s);
      call rendered (fun b => Some (updateTask_board (id t) (data_updates data) b)) s1
  | None =>
      addTask newId now (d_columnId data) (d_title data) (d_description data)
        (d_priority data) (d_dueDate data) (d_tags data) s
  end.

Definition handleDeleteConfirm (deleteTaskId : option string) (s : Store) : option Store :=
  match deleteTaskId with
  | Some taskId => if Chatbot.nonempty taskId then deleteTask taskId s else Some s
  | None => Some s
  end.

Record DraggableLocation := mkLocation {
  droppableId : ColumnId;
  index : Z
}.

Definition onDragEnd (now draggableId : string) (source : DraggableLocation)
    (destination : option DraggableLocation) (s : Store) : option Store :=
  match destination with
  | None => Some s
  | Some d =>
      if bool_decide (droppableId d = droppableId source) && (index d =? index source)
      then Some s
      else moveTask now draggableId (droppableId source) (droppableId d) (index d) s
  end.

(** The counts of the header. A stored object without a due date, or
    without a column, is read as any other. *)
Record Stats := mkStats {
  total : nat;
  st_todo : nat;
  st_inProgress : nat;
  st_done : nat;
  st_overdue : nat
}.

Definition obj_dueDate (o : TaskObj) : option string :=
  match o with
  | Full t => dueDate t
  | Partial u => mjoin (u_dueDate u)
  end.

Definition stats (clk : Dates.Clock) (b : BoardState) : Stats :=
  let all := (map_to_list (tasks b)).*2 in
  {| total := length all;
     st_todo := length (taskIds (get_col (columns b) todo));
     st_inProgress := length (taskIds (get_col (columns b) in_progress));
     st_done := length (taskIds (get_col (columns b) done));
     st_overdue :=
       length (filter (fun o => obj_columnId o <> Some done
                                /\ Utils.isOverdue clk (obj_dueDate o) = true) all) |}.

(** *** [getFilteredTasks]

    Property reads on a stored object; [None] is [undefined]. *)
Definition obj_title (o : TaskObj) : option string :=
  match o with Full t => Some (title t) | Partial u => u_title u end.
Definition obj_description (o : TaskObj) : option string :=
  match o with Full t => Some (description t) | Partial u => u_description u end.
Definition obj_priority (o : TaskObj) : option Priority :=
  match o with Full t => Some (priority t) | Partial u => u_priority u end.
Definition obj_tags (o : TaskObj) : option (list string) :=
  match o with Full t => Some (tags t) | Partial u => u_tags u end.
Definition obj_createdAt (o : TaskObj) : option string :=
  match o with Full t => Some (createdAt t) | Partial _ => None end.

Inductive SortOption := by_created | by_dueDate | by_priority.
Inductive FilterDueDate := due_all | due_overdue | due_today | due_this_week | due_no_date.

(** The search and filter state; [filterPriority = None] is ['all']. *)
Record Filters := mkFilters {
  search : string;
  sortBy : SortOption;
  filterPriority : option Priority;
  filterDueDate : FilterDueDate;
  filterTag : string
}.

(** [l.filter(p)] with a test that may throw ([None]). *)
Fixpoint filter_throwing {A} (p : A -> option bool) (l : list A) : option (list A) :=
  match l with
  | [] => Some []
  | x :: l' =>
      keep ← p x;
      rest ← filter_throwing p l';
      Some (if keep : bool then x :: rest else rest)
  end.

(** The search test; calling [toLowerCase] or [some] on [undefined] throws. *)
Definition matches_search (q : string) (o : TaskObj) : option bool :=
  ttl ← obj_title o;
  if Str.includes (Str.toLowerCase ttl) q then Some true
  else
    descr ← obj_description o;
    if Str.includes (Str.toLowerCase descr) q then Some true
    else
      tgs ← obj_tags o;
      Some (existsb (fun tag => Str.includes (Str.toLowerCase tag) q) tgs).

Definition has_tag (tag : string) (o : TaskObj) : option bool :=
  tgs ← obj_tags o; Some (existsb (String.eqb tag) tgs).

Definition due_test (clk : Dates.Clock) (f : FilterDueDate) (o : TaskObj) : bool :=
  match f with
  | due_all => true
  | due_overdue => Utils.isOverdue clk (obj_dueDate o)
  | due_today => Utils.isDueToday clk (obj_dueDate o)
  | due_this_week => Utils.isDueThisWeek clk (obj_dueDate o)
  | due_no_date => negb (Js.truthy (Some (obj_dueDate o)))
  end.

Definition priorityOrder (p : Priority) : Z :=
  match p with high => 0 | medium => 1 | low => 2 end.

(** [new Date(text).getTime()]; [None] is not a number. *)
Definition getTime (clk : Dates.Clock) (text : option string) : option Z :=
  text ≫= Dates.parse clk.

(** The comparator returns a positive number: [a] is put after [b]. A
    difference that is not a number counts as zero. *)
Definition positive_difference (x y : option Z) : bool :=
  match x, y with
  | Some x, Some y => 0 <? x - y
  | _, _ => false
  end.

Definition comes_after (clk : Dates.Clock) (by_ : SortOption) (a b : TaskObj) : bool :=
  match by_ with
  | by_priority =>
      positive_difference (priorityOrder <$> obj_priority a) (priorityOrder <$> obj_priority b)
  | by_dueDate =>
      let has_a := Js.truthy (Some (obj_dueDate a)) in
      let has_b := Js.truthy (Some (obj_dueDate b)) in
      if negb has_a && negb has_b then false
      else if negb has_a then true
      else if negb has_b then false
      else positive_difference (getTime clk (obj_dueDate a)) (getTime clk (obj_dueDate b))
  | by_created =>
      positive_difference (getTime clk (obj_createdAt b)) (getTime clk (obj_createdAt a))
  end.

(** The four filters, in the order of the source; one that is switched
    off hands the list on. *)
Definition search_filter (f : Filters) (l : list TaskObj) : option (list TaskObj) :=
  if Chatbot.nonempty (search f)
  then filter_throwing (matches_search (Str.toLowerCase (search f))) l
  else Some l.

Definition priority_filter (f : Filters) (l : list TaskObj) : list TaskObj :=
  match filterPriority f with
  | Some p => filter (fun o => obj_priority o = Some p) l
  | None => l
  end.

Definition due_filter (clk : Dates.Clock) (f : Filters) (l : list TaskObj) : list TaskObj :=
  match filterDueDate f with
  | due_all => l
  | by_due => filter (fun o => due_test clk by_due o = true) l
  end.

Definition tag_filter (f : Filters) (l : list TaskObj) : option (list TaskObj) :=
  if Chatbot.nonempty (filterTag f)
  then filter_throwing (has_tag (filterTag f)) l
  else Some l.

Definition getFilteredTasks (clk : Dates.Clock) (b : BoardState) (f : Filters)
    (taskIds : list string) : option (list TaskObj) :=
  let found := omap (fun taskId => tasks b !! taskId) taskIds in
  searched ← search_filter f found;
  tagged ← tag_filter f (due_filter clk f (priority_filter f searched));
  Some (Chatbot.sort (comes_after clk (sortBy f)) tagged).

End App.

(** ** Notions for the whole application *)

Section AppNotions.
Import Board.

(** Every stored task is stored under its own [id]. *)
Definition keyed_by_id (b : BoardState) : Prop :=
  forall tid t, tasks b !! tid = Some (Full t) -> id t = tid.

(** The steps of the store that are well-targeted: a well-targeted call,
    undo and redo, clearing the board, and resetting it to a seed board
    with six distinct new ids. *)
Inductive targeted_step (s : Store) : Store -> Prop :=
| step_call s' : targeted_call s s' -> targeted_step s s'
| step_undo : targeted_step s (undo s)
| step_redo : targeted_step s (redo s)
| step_clear s' : clearBoard s = Some s' -> targeted_step s s'
| step_reset uuid iso s' :
    NoDup (map uuid (seq 0 6)) ->
    resetBoard uuid iso s = Some s' -> targeted_step s s'.

(** All boards a store holds. *)
Definition boards (s : Store) : list BoardState :=
  board s :: history s ++ future s.

End AppNotions.

Section ChatNotions.
Import Chatbot.

(** What a rule of the task matcher may decide on a collection: a task of
    the collection and no candidates, or candidates of the collection, none
    or two to five. *)
Definition decision_ok (allTasks : list Task) (f : Found) : Prop :=
  (forall t, task f = Some t -> t ∈ allTasks /\ candidates f = []) /\
  (forall c, c ∈ candidates f -> c ∈ allTasks) /\
  (candidates f = [] \/ (2 <= length (candidates f) <= 5)%nat).

(** The number of fields an update sets. *)
Definition fields_set (u : Updates) : nat :=
  let one {A} (v : option A) : nat :=
    match v with Some _ => 1%nat | None => 0%nat end in
  (one (u_title u) + one (u_description u) + one (u_priority u) + one (u_dueDate u)
   + one (u_tags u) + one (u_completedAt u) + one (u_columnId u))%nat.

(** An action that fits a task collection: a new task has a title; an
    update sets one field of a task of the collection, which is neither the
    column nor the completion time, and no empty title; a deletion names a
    task of the collection; a move names a task of the collection, the
    column it is in, and another column as the destination. *)
Definition action_fits (allTasks : list Task) (a : ChatBotAction) : Prop :=
  match a with
  | Create _ ttl _ _ _ _ => ttl <> EmptyString
  | Update taskId u =>
      (exists t, t ∈ allTasks /\ id t = taskId) /\
      fields_set u = 1%nat /\ u_columnId u = None /\ u_completedAt u = None /\
      u_title u <> Some EmptyString
  | Delete taskId => exists t, t ∈ allTasks /\ id t = taskId
  | Move taskId sourceCol destCol =>
      exists t, t ∈ allTasks /\ id t = taskId /\ sourceCol = columnId t /\
                destCol <> sourceCol
  end.

Definition outcome_fits (allTasks : list Task) (o : Outcome) : Prop :=
  match o with
  | Replied r =>
      match action r with
      | Some a => action_fits allTasks a
      | None => True
      end
  | Later => True
  end.

End ChatNotions.

(** Splits the goal along the branches of a handler; a branch that replies
    with a text alone fits. *)
Ltac split_outcome :=
  repeat match goal with
  | |- outcome_fits _ (Chatbot.reply _) => exact I
  | |- outcome_fits _ (match ?x with _ => _ end) => destruct x eqn:?
  | |- outcome_fits _ (if ?x then _ else _) => destruct x eqn:?
  | |- outcome_fits _ (let _ := _ in _) => cbv zeta
  end.

Section ViewNotions.
Import App.

(** The tasks stored under the ids of a list, in the order of the list; an
    id without a stored task is skipped. *)
Definition stored_tasks (b : BoardState) (ids : list string) : list Task :=
  omap (fun tid => match tasks b !! tid with Some (Full t) => Some t | _ => None end) ids.

(** The tests of the search and the three filters on a task; a filter
    that is switched off lets every task pass. *)
Definition search_ok (f : Filters) (t : Task) : bool :=
  if Chatbot.nonempty (search f) then
    let q := Str.toLowerCase (search f) in
    Str.includes (Str.toLowerCase (title t)) q
    || Str.includes (Str.toLowerCase (description t)) q
    || existsb (fun tag => Str.includes (Str.toLowerCase tag) q) (tags t)
  else true.

Definition priority_ok (f : Filters) (t : Task) : bool :=
  match filterPriority f with
  | Some p => bool_decide (priority t = p)
  | None => true
  end.

Definition due_ok (clk : Dates.Clock) (f : Filters) (t : Task) : bool :=
  due_test clk (filterDueDate f) (Full t).

Definition tag_ok (f : Filters) (t : Task) : bool :=
  if Chatbot.nonempty (filterTag f)
  then existsb (String.eqb (filterTag f)) (tags t) else true.

Definition passes (clk : Dates.Clock) (f : Filters) (t : Task) : bool :=
  search_ok f t && priority_ok f t && due_ok clk f t && tag_ok f t.

(** High before medium before low. *)
Definition priority_le (a b : TaskObj) : Prop :=
  match obj_priority a, obj_priority b with
  | Some pa, Some pb => priorityOrder pa <= priorityOrder pb
  | _, _ => False
  end.

End ViewNotions.

(** ** Sample clocks with a date parser *)

Section DateSamples.
Import Dates.

(** [new Date(text)] on the date-only strings of the first days of May
    2024, which the host language reads as midnight UTC. *)
Definition may_2024 (text : string) : option Z :=
  if String.eqb text "2024-05-05" then Some (19848 * msPerDay)
  else if String.eqb text "2024-05-06" then Some (19849 * msPerDay)
  else if String.eqb text "2024-05-07" then Some (19850 * msPerDay)
  else if String.eqb text "2024-05-08" then Some (19851 * msPerDay)
  else None.

(** Monday 6 May 2024, 10:00 UTC, read in UTC, five hours west of UTC and
    two hours east of it. *)
Definition may_utc : Clock := {| now := 1714989600000; offset := 0; parse := may_2024 |}.
Definition may_west : Clock := {| now := 1714989600000; offset := -300; parse := may_2024 |}.
Definition may_east : Clock := {| now := 1714989600000; offset := 120; parse := may_2024 |}.

End DateSamples.


(** * Properties *)

(** ** Array primitives *)

Section JsLists.
Context {A : Type}.
Implicit Types l : list A.

Lemma relative_index_le len i : (Js.relative_index len i <= len)%nat.
Proof. unfold Js.relative_index. destruct (Z.ltb_spec i 0); lia. Qed.

Lemma relative_index_nonneg len i :
  0 <= i -> Js.relative_index len i = Nat.min (Z.to_nat i) len.
Proof. unfold Js.relative_index. destruct (Z.ltb_spec i 0); lia. Qed.

Lemma relative_index_neg len i :
  i < 0 -> Js.relative_index len i = (len - Z.to_nat (- i))%nat.
Proof. unfold Js.relative_index. destruct (Z.ltb_spec i 0); lia. Qed.

Lemma slice_from_length l i :
  i < 0 -> (length (Js.slice_from l i) <= Z.to_nat (- i))%nat.
Proof.
  intros Hi. unfold Js.slice_from.
  rewrite length_drop, relative_index_neg by done. lia.
Qed.

Lemma slice_drop_last l : Js.slice l 0 (-1) = take (length l - 1) l.
Proof.
  unfold Js.slice. cbv zeta.
  rewrite (relative_index_nonneg _ 0), (relative_index_neg _ (-1)) by lia.
  rewrite Nat.min_0_l, drop_0. f_equal. simpl. lia.
Qed.

Lemma slice_drop_last_snoc l x : Js.slice (l ++ [x]) 0 (-1) = l.
Proof.
  rewrite slice_drop_last, length_app. simpl.
  replace (length l + 1 - 1)%nat with (length l) by lia.
  by rewrite take_app_length.
Qed.

Lemma slice_drop_last_length l :
  length (Js.slice l 0 (-1)) = (length l - 1)%nat.
Proof. rewrite slice_drop_last, length_take. lia. Qed.

Lemma last_is_Some_length l x : last l = Some x -> (0 < length l)%nat.
Proof. destruct l; [done | simpl; lia]. Qed.

End JsLists.

(** ** The undo and redo stacks *)

Section History.
Import Board.

Lemma with_board_inv f s s' :
  with_board f s = Some s' ->
  history s' = Js.slice_from (history s) (-49) ++ [board s] /\
  future s' = [] /\ f (board s) = Some (board s').
Proof.
  unfold with_board. simpl. destruct (f (board s)) as [b|] eqn:Hf; [|done].
  simpl. intros [= <-]. done.
Qed.

Lemma mutate_inv m s s' :
  mutate m s = Some s' ->
  history s' = Js.slice_from (history s) (-49) ++ [board s] /\ future s' = [].
Proof.
  destruct m; simpl; unfold addTask, updateTask, deleteTask, moveTask,
    resetBoard, clearBoard; intros H%with_board_inv; tauto.
Qed.

Lemma undo_after_mutate m s s' :
  mutate m s = Some s' ->
  undo s' = {| board := board s;
               history := Js.slice_from (history s) (-49);
               future := [board s'] |}.
Proof.
  intros [Hh Hf]%mutate_inv. unfold undo.
  rewrite Hh, last_snoc, slice_drop_last_snoc, Hf. done.
Qed.

Lemma redo_undo_after_mutate m s s' :
  mutate m s = Some s' -> redo (undo s') = s'.
Proof.
  intros H. rewrite (undo_after_mutate _ _ _ H).
  destruct (mutate_inv _ _ _ H) as [Hh Hf].
  unfold redo. simpl. destruct s'; simpl in *. by subst.
Qed.

Lemma stacks_bounded b0 s :
  reachable b0 s -> (length (history s) + length (future s) <= 50)%nat.
Proof.
  induction 1 as [|m s s' _ IH Hm|s _ IH|s _ IH].
  - simpl. lia.
  - destruct (mutate_inv _ _ _ Hm) as [-> ->].
    rewrite length_app. simpl.
    pose proof (slice_from_length (history s) (-49)). lia.
  - unfold undo. destruct (last (history s)) as [prev|] eqn:Hl; [|done].
    simpl. rewrite slice_drop_last_length, length_app. simpl.
    apply last_is_Some_length in Hl. lia.
  - unfold redo. destruct (last (future s)) as [next|] eqn:Hl; [|done].
    simpl. rewrite slice_drop_last_length, length_app. simpl.
    apply last_is_Some_length in Hl. lia.
Qed.

Lemma canUndo_spec s : canUndo s = true <-> history s <> [].
Proof.
  unfold canUndo. destruct (history s); simpl; split; try done.
Qed.

Lemma canRedo_spec s : canRedo s = true <-> future s <> [].
Proof.
  unfold canRedo. destruct (future s); simpl; split; try done.
Qed.

Lemma mutate_completes m s :
  completes m (board s) -> is_Some (mutate m s).
Proof.
  destruct m; simpl; unfold addTask, updateTask, deleteTask, moveTask,
    resetBoard, clearBoard, with_board; simpl; intros H; try by eauto.
  - unfold deleteTask_board.
    destruct (tasks (board s) !! taskId) as [o|] eqn:Ho; simpl; [|eauto].
    destruct (H o eq_refl) as [c ->]. simpl. eauto.
  - unfold moveTask_board, move_rule.
    destruct (decide (destCol = done)) as [Hd|Hd].
    + destruct (H Hd) as [o ->].
      destruct (negb _); simpl; eauto.
    + simpl. eauto.
Qed.

(** C2. After any single mutation that completes, [undo] restores the exact
    prior board and a following [redo] restores the post-mutation board; in
    every reachable hook state the undo stack holds at most 50 boards; and
    [canUndo] / [canRedo] hold exactly when the respective stack is
    non-empty. Every mutation aimed at a stored complete task (or at no task
    at all) completes. *)
Theorem undo_redo_history :
  (forall m s s', mutate m s = Some s' ->
     board (undo s') = board s /\ board (redo (undo s')) = board s') /\
  (forall m s, completes m (board s) -> is_Some (mutate m s)) /\
  (forall b0 s, reachable b0 s -> (length (history s) <= 50)%nat) /\
  (forall s, (canUndo s = true <-> history s <> []) /\
             (canRedo s = true <-> future s <> [])).
Proof.
  split; [|split; [|split]].
  - intros m s s' H. split.
    + by rewrite (undo_after_mutate _ _ _ H).
    + by rewrite (redo_undo_after_mutate _ _ _ H).
  - apply mutate_completes.
  - intros b0 s H%stacks_bounded. lia.
  - intros s. split; [apply canUndo_spec | apply canRedo_spec].
Qed.

Lemma undo_redo_history_witness :
  exists s', mutate MClear (initStore one_task_board) = Some s' /\
    board s' = emptyBoard /\
    board (undo s') = one_task_board /\
    board (redo (undo s')) = emptyBoard /\
    canUndo s' = true /\ canRedo (undo s') = true.
Proof.
  destruct (mutate MClear (initStore one_task_board)) as [s'|] eqn:Hm;
    [|discriminate Hm].
  destruct (proj1 undo_redo_history MClear (initStore one_task_board) s' Hm)
    as [Hundo Hredo].
  exists s'. split; [reflexivity|].
  injection Hm as <-.
  split; [reflexivity|]. split; [exact Hundo|]. split; [exact Hredo|].
  split; reflexivity.
Defined.

End History.

(** ** Removing and inserting a task id *)

Section Splice.

Lemma indexOf_ge_m1 l x : -1 <= Js.indexOf l x.
Proof.
  induction l as [|y l IH]; simpl; [lia|].
  destruct (String.eqb y x); [lia|].
  destruct (Z.ltb_spec (Js.indexOf l x) 0); lia.
Qed.

Lemma indexOf_notin l x : x ∉ l -> Js.indexOf l x = -1.
Proof.
  induction l as [|y l IH]; simpl; intros Hx; [done|].
  apply not_elem_of_cons in Hx as [Hne Hx].
  destruct (String.eqb_spec y x); [congruence|].
  rewrite IH by done. done.
Qed.

Lemma indexOf_in l x :
  x ∈ l -> 0 <= Js.indexOf l x < Z.of_nat (length l).
Proof.
  induction l as [|y l IH]; simpl; intros Hx; [by apply elem_of_nil in Hx|].
  destruct (String.eqb_spec y x); [lia|].
  apply elem_of_cons in Hx as [->|Hx]; [done|].
  specialize (IH Hx). destruct (Z.ltb_spec (Js.indexOf l x) 0); lia.
Qed.

Lemma splice_delete_cons (y : string) l i :
  0 <= i < Z.of_nat (length l) ->
  Js.splice (y :: l) (i + 1) 1 [] = y :: Js.splice l i 1 [].
Proof.
  intros Hi. unfold Js.splice. cbv zeta. simpl length.
  rewrite !relative_index_nonneg by lia.
  replace (Nat.min (Z.to_nat (i + 1)) (S (length l)))
    with (S (Nat.min (Z.to_nat i) (length l))) by lia.
  match goal with
  | |- context [drop (S ?s + ?a) (y :: l)] =>
      match goal with
      | |- context [drop (s + ?b) l] => replace a with b by lia
      end
  end.
  reflexivity.
Qed.

(** Splicing one element out at [indexOf] removes the first occurrence. *)
Lemma splice_indexOf l x :
  x ∈ l -> Js.splice l (Js.indexOf l x) 1 [] = Js.remove_first x l.
Proof.
  induction l as [|y l IH]; intros Hx; [by apply elem_of_nil in Hx|].
  simpl. destruct (String.eqb_spec y x) as [->|Hne].
  - unfold Js.splice. cbv zeta.
    rewrite relative_index_nonneg by lia. simpl length.
    replace (Z.to_nat (Z.min (Z.max 1 0) _)) with 1%nat by lia.
    reflexivity.
  - apply elem_of_cons in Hx as [->|Hx]; [done|].
    pose proof (indexOf_in _ _ Hx).
    destruct (Z.ltb_spec (Js.indexOf l x) 0); [lia|].
    rewrite splice_delete_cons by lia. by rewrite IH.
Qed.

(** When the id is not in the list, [indexOf] is [-1] and the splice drops
    the last element instead. *)
Lemma splice_indexOf_notin l x :
  x ∉ l -> Js.splice l (Js.indexOf l x) 1 [] = take (length l - 1) l.
Proof.
  intros Hx. rewrite indexOf_notin by done.
  unfold Js.splice. cbv zeta. rewrite relative_index_neg by lia.
  change (Z.to_nat (- -1)) with 1%nat.
  rewrite (drop_ge l) by lia. by rewrite !app_nil_r.
Qed.

Lemma splice_insert {A} (l : list A) i x :
  Js.splice l i 0 [x] = Js.insert_at (Js.relative_index (length l) i) x l.
Proof.
  unfold Js.splice, Js.insert_at. cbv zeta.
  replace (Z.to_nat (Z.min (Z.max 0 0) _)) with 0%nat.
  - by rewrite Nat.add_0_r.
  - pose proof (relative_index_le (length l) i). lia.
Qed.

Lemma remove_first_perm l x : x ∈ l -> l ≡ₚ (x :: Js.remove_first x l).
Proof.
  induction l as [|y l IH]; intros Hx; [by apply elem_of_nil in Hx|].
  simpl. destruct (String.eqb_spec y x) as [->|Hne]; [done|].
  apply elem_of_cons in Hx as [->|Hx]; [done|].
  rewrite (IH Hx) at 1. apply Permutation_swap.
Qed.

Lemma insert_at_perm {A} n (x : A) l : Js.insert_at n x l ≡ₚ (x :: l).
Proof.
  unfold Js.insert_at. rewrite <- Permutation_middle.
  by rewrite take_drop.
Qed.

Lemma remove_first_NoDup l x :
  NoDup l -> x ∈ l ->
  NoDup (Js.remove_first x l) /\ (x ∉ Js.remove_first x l) /\
  (forall y, y ∈ Js.remove_first x l <-> y ∈ l /\ y <> x).
Proof.
  intros Hnd Hx. pose proof (remove_first_perm l x Hx) as Hp.
  assert (NoDup (x :: Js.remove_first x l)) as Hnd' by (by rewrite <- Hp).
  apply NoDup_cons in Hnd' as [Hnx Hnd'].
  split; [done|]. split; [done|].
  intros y. destruct (elem_of_Permutation_proper y _ _ Hp) as [H1 H2].
  split.
  - intros Hy. split; [apply H2; by right|]. by intros ->.
  - intros [Hy Hne]. apply H1, elem_of_cons in Hy as [->|Hy]; done.
Qed.

Lemma remove_first_length l x :
  x ∈ l -> length (Js.remove_first x l) = (length l - 1)%nat.
Proof.
  intros Hx. apply remove_first_perm, Permutation_length in Hx.
  simpl in Hx. lia.
Qed.

Lemma remove_first_insert_at l n x :
  x ∉ l -> Js.remove_first x (Js.insert_at n x l) = l.
Proof.
  unfold Js.insert_at. revert n.
  induction l as [|y l IH]; intros n Hx.
  - destruct n; simpl; by rewrite String.eqb_refl.
  - apply not_elem_of_cons in Hx as [Hne Hx].
    destruct n as [|n]; simpl.
    + by rewrite String.eqb_refl.
    + destruct (String.eqb_spec y x); [congruence|]. by rewrite IH.
Qed.

(** Putting an id back at the index of its only occurrence restores the
    list. *)
Lemma insert_at_remove_first l (j : nat) x :
  NoDup l -> l !! j = Some x -> Js.insert_at j x (Js.remove_first x l) = l.
Proof.
  unfold Js.insert_at. revert j.
  induction l as [|y l IH]; intros j Hnd Hj; [done|].
  apply NoDup_cons in Hnd as [Hy Hnd]. simpl.
  destruct (String.eqb_spec y x) as [->|Hne].
  - destruct j as [|j]; [by rewrite take_0, drop_0|].
    simpl in Hj. apply list_elem_of_lookup_2 in Hj. done.
  - destruct j as [|j]; simpl in Hj; [congruence|].
    simpl. f_equal. by apply IH.
Qed.

Lemma elem_of_insert_at {A} n (x y : A) l :
  y ∈ Js.insert_at n x l <-> y = x \/ y ∈ l.
Proof. by rewrite insert_at_perm, elem_of_cons. Qed.

Lemma insert_at_NoDup {A} n (x : A) l :
  NoDup l -> x ∉ l -> NoDup (Js.insert_at n x l).
Proof. intros Hnd Hx. rewrite insert_at_perm. by apply NoDup_cons. Qed.

End Splice.

(** ** Mutations aimed at a missing task id *)

Section MissingTarget.
Import Board.

Lemma deleteTask_board_missing b taskId :
  tasks b !! taskId = None -> deleteTask_board taskId b = Some b.
Proof. intros H. unfold deleteTask_board. by rewrite H. Qed.

(** C10. Deleting an id that is not in the store leaves the board as it was
    but still pushes the prior board on the undo stack and empties the redo
    stack: afterwards [canUndo] holds, [canRedo] does not, and an [undo]
    yields a board equal to the current one. *)
Theorem delete_missing_still_pushes_history s taskId :
  tasks (board s) !! taskId = None ->
  exists s', deleteTask taskId s = Some s' /\
    board s' = board s /\
    history s' = Js.slice_from (history s) (-49) ++ [board s] /\
    future s' = [] /\
    canUndo s' = true /\ canRedo s' = false /\
    board (undo s') = board s'.
Proof.
  intros H. unfold deleteTask, with_board. simpl.
  rewrite (deleteTask_board_missing _ _ H). simpl.
  eexists. split; [reflexivity|]. simpl.
  repeat split.
  - unfold canUndo. simpl. rewrite length_app. simpl.
    apply Nat.ltb_lt. lia.
  - unfold undo. simpl. by rewrite last_snoc.
Qed.

Lemma delete_missing_still_pushes_history_witness :
  exists s', deleteTask "ghost" redoable_store = Some s' /\
    board s' = board redoable_store /\
    history s' = Js.slice_from (history redoable_store) (-49) ++ [board redoable_store] /\
    future s' = [] /\
    canUndo s' = true /\ canRedo s' = false /\
    board (undo s') = board s'.
Proof.
  apply (delete_missing_still_pushes_history redoable_store "ghost").
  reflexivity.
Defined.

(** What [updateTask] and [moveTask] do with an id that is not in the
    store: the update stores an object made of the update's fields alone;
    the move throws when the destination is the done column, and otherwise
    stores such an object, drops the last id of the source column and puts
    the unknown id into the destination column. *)
Lemma update_move_missing b taskId :
  tasks b !! taskId = None ->
  (forall u, tasks (updateTask_board taskId u b) !! taskId = Some (Partial u)) /\
  (forall now src i, moveTask_board now taskId src done i b = None) /\
  (forall now src dst i, dst <> done ->
     exists b', moveTask_board now taskId src dst i b = Some b' /\
       is_Some (tasks b' !! taskId) /\
       taskId ∈ taskIds (get_col (columns b') dst)).
Proof.
  intros H. split; [|split].
  - intros u. unfold updateTask_board. simpl. by rewrite lookup_insert_eq, H.
  - intros now src i. unfold moveTask_board, move_rule. by rewrite H.
  - intros now src dst i Hd. unfold moveTask_board, move_rule. rewrite H.
    destruct (decide (dst = done)) as [|_]; [done|].
    eexists. split; [reflexivity|]. simpl. split.
    + rewrite lookup_insert_eq. eauto.
    + rewrite !splice_insert.
      destruct (decide (src = dst)) as [->|Hne].
      * destruct dst; simpl; apply elem_of_insert_at; by left.
      * destruct src, dst; simpl; try done; apply elem_of_insert_at; by left.
Qed.

(** C4, at a failing input. On a board that holds only task ["t1"], the
    calls aimed at the unused id ["ghost"] behave as follows: [deleteTask]
    returns the board unchanged; [updateTask] adds an entry under ["ghost"];
    [moveTask] to the done column throws; [moveTask] to In Progress removes
    ["t1"] from To Do, files ["ghost"] under In Progress and adds an entry
    for it. *)
Theorem missing_target_not_noop :
  deleteTask_board "ghost" one_task_board = Some one_task_board /\
  tasks (updateTask_board "ghost" (rename_to "x") one_task_board) !! "ghost"
    = Some (Partial (rename_to "x")) /\
  updateTask_board "ghost" (rename_to "x") one_task_board <> one_task_board /\
  moveTask_board "now" "ghost" todo done 0 one_task_board = None /\
  exists b', moveTask_board "now" "ghost" todo in_progress 0 one_task_board = Some b' /\
    taskIds (get_col (columns b') todo) = [] /\
    taskIds (get_col (columns b') in_progress) = ["ghost"] /\
    is_Some (tasks b' !! "ghost") /\
    b' <> one_task_board.
Proof.
  split; [reflexivity|]. split; [by vm_compute|]. split.
  { intros Heq. apply (f_equal (fun b => tasks b !! "ghost")) in Heq.
    vm_compute in Heq. discriminate. }
  split; [reflexivity|].
  eexists. split; [reflexivity|]. split; [reflexivity|]. split; [reflexivity|].
  split; [by vm_compute; eauto|].
  intros Heq. apply (f_equal (fun b => taskIds (get_col (columns b) todo))) in Heq.
  vm_compute in Heq. discriminate.
Qed.

End MissingTarget.

(** ** Moving a task *)

Section Move.
Import Board.

Lemma move_rule_Some dst o : is_Some (move_rule dst (Some o)).
Proof.
  unfold move_rule. destruct (decide (dst = done)); [|eauto].
  destruct (negb _); eauto.
Qed.

Lemma get_set_col_eq cols c v : get_col (set_col cols c v) c = v.
Proof. by destruct c. Qed.

Lemma get_set_col_ne cols c c' v :
  c <> c' -> get_col (set_col cols c v) c' = get_col cols c'.
Proof. by destruct c, c'. Qed.

(** The columns [moveTask] leaves behind, for a task id that is in the
    source list. *)
Lemma moveTask_board_columns b now taskId src dst i b' :
  taskId ∈ taskIds (get_col (columns b) src) ->
  moveTask_board now taskId src dst i b = Some b' ->
  let removed := Js.remove_first taskId (taskIds (get_col (columns b) src)) in
  let base := if decide (src = dst) then removed
              else taskIds (get_col (columns b) dst) in
  taskIds (get_col (columns b') dst)
    = Js.insert_at (Js.relative_index (length base) i) taskId base /\
  (src <> dst -> taskIds (get_col (columns b') src) = removed) /\
  (forall c, c <> src -> c <> dst -> get_col (columns b') c = get_col (columns b) c).
Proof.
  intros Hin. unfold moveTask_board.
  destruct (move_rule dst (tasks b !! taskId)) as [rule|]; [|done].
  intros [= <-]. cbv zeta. simpl columns.
  rewrite !splice_indexOf, !splice_insert by done.
  destruct (decide (src = dst)) as [->|Hne].
  - rewrite get_set_col_eq. simpl. split; [done|]. split; [done|].
    intros c Hc _. by rewrite get_set_col_ne.
  - rewrite get_set_col_eq. simpl. split; [done|]. split.
    + intros _. rewrite get_set_col_ne, get_set_col_eq by done. done.
    + intros c Hs Hd. by rewrite !get_set_col_ne.
Qed.

(** C3. Moving a stored task selects exactly one of three rules for its
    [completedAt]: it becomes the current timestamp iff the destination is
    the done column and it was absent; it becomes null iff the destination
    is not the done column; it keeps its value iff the destination is the
    done column and it was set. The task's [columnId] becomes the
    destination. ([completedAt] is a timestamp or null, never the empty
    string.) *)
Theorem move_completedAt_rules b now taskId t src dst i :
  tasks b !! taskId = Some (Full t) ->
  completedAt t <> Some EmptyString ->
  exists rule b' t',
    move_rule dst (tasks b !! taskId) = Some rule /\
    moveTask_board now taskId src dst i b = Some b' /\
    tasks b' !! taskId = Some (Full t') /\
    completedAt t' =
      match rule with
      | SetNow => Some now
      | Clear => None
      | Keep => completedAt t
      end /\
    columnId t' = dst /\
    (rule = SetNow <-> dst = done /\ completedAt t = None) /\
    (rule = Clear <-> dst <> done) /\
    (rule = Keep <-> dst = done /\ completedAt t <> None) /\
    (completedAt t' = None <-> dst <> done).
Proof.
  intros Ht Hne. unfold moveTask_board. rewrite Ht.
  unfold move_rule. simpl obj_completedAt.
  destruct (decide (dst = done)) as [Hd|Hd].
  - destruct (completedAt t) as [c|] eqn:Hc; simpl Js.truthy.
    + assert (String.eqb c EmptyString = false) as ->.
      { apply String.eqb_neq. congruence. }
      simpl. exists Keep. do 2 eexists.
      split; [done|]. split; [reflexivity|]. simpl.
      rewrite lookup_insert_eq. split; [reflexivity|]. simpl.
      rewrite Hc. solve_rule.
    + simpl. exists SetNow. do 2 eexists.
      split; [done|]. split; [reflexivity|]. simpl.
      rewrite lookup_insert_eq. split; [reflexivity|]. simpl.
      solve_rule.
  - exists Clear. do 2 eexists.
    split; [done|]. split; [reflexivity|]. simpl.
    rewrite lookup_insert_eq. split; [reflexivity|]. simpl.
    solve_rule.
Qed.

Lemma move_completedAt_rules_witness :
  exists rule b' t',
    move_rule done (tasks one_task_board !! "t1") = Some rule /\
    moveTask_board "2024-05-05T10:00:00.000Z" "t1" todo done 0 one_task_board = Some b' /\
    tasks b' !! "t1" = Some (Full t') /\
    completedAt t' =
      match rule with
      | SetNow => Some "2024-05-05T10:00:00.000Z"
      | Clear => None
      | Keep => completedAt sample_task
      end /\
    columnId t' = done /\
    (rule = SetNow <-> done = done /\ completedAt sample_task = None) /\
    (rule = Clear <-> done <> done) /\
    (rule = Keep <-> done = done /\ completedAt sample_task <> None) /\
    (completedAt t' = None <-> done <> done).
Proof.
  apply (move_completedAt_rules one_task_board "2024-05-05T10:00:00.000Z"
           "t1" sample_task todo done 0).
  - reflexivity.
  - discriminate.
Defined.

(** C5, as amended. For a stored task whose id is in the source list,
    [moveTask] removes the id from the source list and inserts it into the
    destination list; when both are the same column the removal happens
    first. A [destIndex >= 0] is clamped to the length of the list; a
    negative [destIndex] counts from the end of the list (and is clamped to
    0 only when it reaches before the start). *)
Theorem move_positions b now taskId src dst i :
  is_Some (tasks b !! taskId) ->
  taskId ∈ taskIds (get_col (columns b) src) ->
  exists b', moveTask_board now taskId src dst i b = Some b' /\
    let removed := Js.remove_first taskId (taskIds (get_col (columns b) src)) in
    let base := if decide (src = dst) then removed
                else taskIds (get_col (columns b) dst) in
    let pos := if i <? 0 then Z.max (Z.of_nat (length base) + i) 0
               else Z.min i (Z.of_nat (length base)) in
    taskIds (get_col (columns b') dst) = Js.insert_at (Z.to_nat pos) taskId base /\
    (0 <= i -> Z.to_nat pos = clamped_index (length base) i) /\
    (src <> dst -> taskIds (get_col (columns b') src) = removed) /\
    (forall c, c <> src -> c <> dst -> get_col (columns b') c = get_col (columns b) c).
Proof.
  intros [o Ho] Hin.
  destruct (moveTask_board now taskId src dst i b) as [b'|] eqn:Hm.
  - exists b'. split; [done|].
    destruct (moveTask_board_columns _ _ _ _ _ _ _ Hin Hm) as (Hd & Hs & Hc).
    cbv zeta. split; [|split; [|split]]; try done.
    + rewrite Hd. unfold Js.relative_index. by destruct (i <? 0).
    + intros Hi. unfold clamped_index. destruct (Z.ltb_spec i 0); lia.
  - exfalso. unfold moveTask_board in Hm. rewrite Ho in Hm.
    destruct (move_rule_Some dst o) as [r Hr]. by rewrite Hr in Hm.
Qed.

Lemma move_positions_witness :
  exists b', moveTask_board "now" "x" todo done 5 three_task_board = Some b' /\
    taskIds (get_col (columns b') done) = ["a"; "b"; "x"] /\
    taskIds (get_col (columns b') todo) = [].
Proof.
  destruct (move_positions three_task_board "now" "x" todo done 5)
    as (b' & Hm & Hd & _ & Hs & _).
  - vm_compute. eauto.
  - simpl. apply elem_of_cons. by left.
  - exists b'. split; [exact Hm|]. split; [exact Hd|]. by apply Hs.
Defined.

(** C5, counterexample. A negative [destIndex] is not clamped to 0: [-1]
    puts the id before the last element of the destination list, where the
    clamped position would be the head of the list. *)
Lemma move_negative_index_counts_from_end :
  exists b', moveTask_board "now" "x" todo done (-1) three_task_board = Some b' /\
    taskIds (get_col (columns b') done) = ["a"; "x"; "b"] /\
    Js.insert_at (clamped_index 2 (-1)) "x" ["a"; "b"] = ["x"; "a"; "b"] /\
    taskIds (get_col (columns b') done)
      <> Js.insert_at (clamped_index 2 (-1)) "x" ["a"; "b"].
Proof.
  eexists. split; [reflexivity|]. split; [reflexivity|]. split; [reflexivity|].
  vm_compute. discriminate.
Qed.

End Move.

(** ** Column membership *)

Section Membership.
Import Board.

Lemma get_set_col cols c c' v :
  get_col (set_col cols c v) c' = if decide (c = c') then v else get_col cols c'.
Proof. destruct c, c'; done. Qed.

Lemma inv_unlisted b tid c :
  board_inv b -> tasks b !! tid = None -> tid ∉ col_ids b c.
Proof.
  intros Hb Hn Hin. destruct (inv_listed b Hb c tid Hin) as (t & Ht & _).
  congruence.
Qed.

Lemma inv_only_column b tid t c :
  board_inv b -> tasks b !! tid = Some (Full t) -> tid ∈ col_ids b c ->
  c = columnId t.
Proof.
  intros Hb Ht Hin. destruct (inv_listed b Hb c tid Hin) as (t' & Ht' & <-).
  congruence.
Qed.

(** *** The seed board *)

Lemma foldl_insert_notin (ts : list Task) (m : gmap string TaskObj) k :
  k ∉ map id ts ->
  foldl (fun m t => <[id t := Full t]> m) m ts !! k = m !! k.
Proof.
  revert m. induction ts as [|t ts IH]; intros m Hk; [done|].
  simpl in *. apply not_elem_of_cons in Hk as [Hne Hk].
  rewrite IH by done. by rewrite lookup_insert_ne.
Qed.

Lemma foldl_insert_in (ts : list Task) (m : gmap string TaskObj) t :
  NoDup (map id ts) -> t ∈ ts ->
  foldl (fun m t => <[id t := Full t]> m) m ts !! id t = Some (Full t).
Proof.
  revert m. induction ts as [|t0 ts IH]; intros m Hnd Ht.
  - by apply elem_of_nil in Ht.
  - simpl in *. apply NoDup_cons in Hnd as [Hn0 Hnd].
    apply elem_of_cons in Ht as [->|Ht].
    + rewrite foldl_insert_notin by done. by rewrite lookup_insert_eq.
    + by apply IH.
Qed.

Lemma foldl_insert_lookup (ts : list Task) k o :
  NoDup (map id ts) ->
  foldl (fun m t => <[id t := Full t]> m) (∅ : gmap string TaskObj) ts !! k = Some o ->
  exists t, t ∈ ts /\ id t = k /\ o = Full t.
Proof.
  intros Hnd Hk. destruct (decide (k ∈ map id ts)) as [Hin|Hnin].
  - apply list_elem_of_fmap in Hin as (t & -> & Ht).
    rewrite foldl_insert_in in Hk by done. exists t. by injection Hk as <-.
  - rewrite foldl_insert_notin in Hk by done. by rewrite lookup_empty in Hk.
Qed.

Lemma elem_of_ids_in c ts k :
  k ∈ ids_in c ts <-> exists t, t ∈ ts /\ id t = k /\ columnId t = c.
Proof.
  unfold ids_in. rewrite list_elem_of_fmap. split.
  - intros (t & -> & [Hc Ht]%list_elem_of_filter). eauto.
  - intros (t & Ht & <- & Hc). exists t. split; [done|].
    apply list_elem_of_filter. done.
Qed.

Lemma ids_in_NoDup c ts : NoDup (map id ts) -> NoDup (ids_in c ts).
Proof.
  unfold ids_in. induction ts as [|t ts IH]; simpl; intros Hnd; [constructor|].
  apply NoDup_cons in Hnd as [Hn Hnd].
  rewrite filter_cons. destruct (decide (columnId t = c)); [|by apply IH].
  simpl. apply NoDup_cons. split; [|by apply IH].
  intros Hin. apply Hn. apply list_elem_of_fmap in Hin as (t' & -> & Ht').
  apply list_elem_of_filter in Ht' as [_ Ht'].
  apply list_elem_of_fmap. eauto.
Qed.

Lemma col_ids_board_of_tasks ts c : col_ids (board_of_tasks ts) c = ids_in c ts.
Proof. by destruct c. Qed.

Lemma board_of_tasks_inv ts : NoDup (map id ts) -> board_inv (board_of_tasks ts).
Proof.
  intros Hnd. split.
  - by intros [].
  - intros tid o Ho. apply foldl_insert_lookup in Ho as (t & _ & _ & ->); eauto.
  - intros c. rewrite col_ids_board_of_tasks. by apply ids_in_NoDup.
  - intros c tid. rewrite col_ids_board_of_tasks.
    intros (t & Ht & <- & <-)%elem_of_ids_in.
    exists t. split; [|done]. by apply foldl_insert_in.
  - intros tid t Ht. rewrite col_ids_board_of_tasks.
    apply foldl_insert_lookup in Ht as (t' & Ht' & <- & [= <-]); [|done].
    apply elem_of_ids_in. eauto.
Qed.

Lemma createDefaultBoard_inv uuid iso :
  NoDup (map uuid (seq 0 6)) -> board_inv (createDefaultBoard uuid iso).
Proof. intros Hnd. apply board_of_tasks_inv. exact Hnd. Qed.

(** [updateTask] never touches the columns: an update that names another
    column changes the task's [columnId] and leaves the task listed where it
    was. *)
Lemma updateTask_keeps_columns b taskId u :
  columns (updateTask_board taskId u b) = columns b.
Proof. reflexivity. Qed.

Lemma update_to_other_column_unfiles :
  exists t,
    tasks (updateTask_board "t1" (mkUpdates None None None None None None (Some done))
             one_task_board) !! "t1" = Some (Full t) /\
    columnId t = done /\
    col_ids (updateTask_board "t1" (mkUpdates None None None None None None (Some done))
               one_task_board) done = [] /\
    col_ids (updateTask_board "t1" (mkUpdates None None None None None None (Some done))
               one_task_board) todo = ["t1"].
Proof. eexists. split; [by vm_compute|]. by vm_compute. Qed.

(** *** The four operations preserve the invariant *)

Lemma col_id_set cols c ids c' :
  col_id (get_col (set_col cols c (with_taskIds (get_col cols c) ids)) c')
  = col_id (get_col cols c').
Proof. by destruct c, c'. Qed.

Lemma col_ids_set b c v c' cols order tks :
  columns b = cols ->
  col_ids (mkBoard tks (set_col cols c v) order) c'
    = if decide (c = c') then taskIds v else col_ids b c'.
Proof.
  intros <-. unfold col_ids. simpl. rewrite get_set_col.
  by destruct (decide (c = c')).
Qed.

Lemma addTask_board_inv b newId now col ttl descr pri due tgs :
  board_inv b -> tasks b !! newId = None ->
  board_inv (addTask_board newId now col ttl descr pri due tgs b).
Proof.
  intros Hb Hnew. unfold addTask_board.
  split.
  - intros c. simpl. rewrite col_id_set. apply (inv_col_id b Hb).
  - intros tid o. simpl. rewrite lookup_insert.
    destruct (decide (newId = tid)); [intros [= <-]; eauto|].
    apply (inv_full b Hb).
  - intros c. rewrite (col_ids_set b) by done. simpl.
    destruct (decide (col = c)) as [<-|]; [|apply (inv_nodup b Hb)].
    apply NoDup_app. split; [apply (inv_nodup b Hb)|].
    split; [|apply NoDup_singleton].
    intros x Hx ->%list_elem_of_singleton.
    by apply (inv_unlisted b newId col Hb Hnew).
  - intros c tid. rewrite (col_ids_set b) by done. simpl.
    intros Hin. destruct (decide (tid = newId)) as [->|Hne].
    + rewrite lookup_insert_eq. eexists. split; [done|]. simpl.
      destruct (decide (col = c)) as [|Hc]; [done|].
      by apply (inv_unlisted b newId c Hb Hnew) in Hin.
    + rewrite lookup_insert_ne by done. apply (inv_listed b Hb).
      destruct (decide (col = c)) as [<-|]; [|done].
      apply elem_of_app in Hin as [|Hin%list_elem_of_singleton]; done.
  - intros tid t. simpl. rewrite lookup_insert, (col_ids_set b) by done. simpl.
    destruct (decide (newId = tid)) as [<-|Hne].
    + intros [= <-]. simpl. rewrite decide_True by done.
      apply elem_of_app. right. by apply list_elem_of_singleton.
    + intros Ht. pose proof (inv_filed b Hb tid t Ht).
      destruct (decide (col = columnId t)) as [Heq|]; [|done].
      apply elem_of_app. left. by rewrite Heq.
Qed.

Lemma updateTask_board_inv b taskId t u :
  board_inv b -> tasks b !! taskId = Some (Full t) ->
  u_columnId u = None \/ u_columnId u = Some (columnId t) ->
  board_inv (updateTask_board taskId u b).
Proof.
  intros Hb Ht Hu. unfold updateTask_board. rewrite Ht. simpl spread.
  assert (columnId (apply_updates t u) = columnId t) as Hcol.
  { simpl. by destruct Hu as [-> | ->]. }
  split.
  - apply (inv_col_id b Hb).
  - intros tid o. simpl. rewrite lookup_insert.
    destruct (decide (taskId = tid)); [intros [= <-]; eauto|].
    apply (inv_full b Hb).
  - apply (inv_nodup b Hb).
  - intros c tid Hin. simpl.
    destruct (inv_listed b Hb c tid Hin) as (t' & Ht' & Hc).
    destruct (decide (taskId = tid)) as [<-|Hne].
    + rewrite lookup_insert_eq. eexists. split; [done|]. congruence.
    + rewrite lookup_insert_ne by done. eauto.
  - intros tid t'. simpl. rewrite lookup_insert.
    destruct (decide (taskId = tid)) as [<-|Hne].
    + intros [= <-]. rewrite Hcol. by apply (inv_filed b Hb).
    + apply (inv_filed b Hb).
Qed.

Lemma deleteTask_board_inv b taskId b' :
  board_inv b -> deleteTask_board taskId b = Some b' -> board_inv b'.
Proof.
  intros Hb. unfold deleteTask_board.
  destruct (tasks b !! taskId) as [o|] eqn:Ho; [|by intros [= <-]].
  destruct (inv_full b Hb _ _ Ho) as [t ->]. simpl.
  intros [= <-]. split.
  - intros c. simpl. rewrite col_id_set. apply (inv_col_id b Hb).
  - intros tid o. simpl. rewrite lookup_delete.
    destruct (decide (taskId = tid)); [done|]. apply (inv_full b Hb).
  - intros c. rewrite (col_ids_set b) by done. simpl.
    destruct (decide (columnId t = c)); [|apply (inv_nodup b Hb)].
    apply NoDup_filter, (inv_nodup b Hb).
  - intros c tid. rewrite (col_ids_set b) by done. simpl. intros Hin.
    assert (tid ∈ col_ids b c /\ tid <> taskId) as [Hin' Hne].
    { destruct (decide (columnId t = c)) as [<-|Hc].
      - by apply list_elem_of_filter in Hin as [? ?].
      - split; [done|]. intros ->.
        by apply Hc; symmetry; apply (inv_only_column b taskId). }
    rewrite lookup_delete_ne by done. by apply (inv_listed b Hb).
  - intros tid t'. simpl. rewrite lookup_delete, (col_ids_set b) by done. simpl.
    destruct (decide (taskId = tid)) as [|Hne]; [done|].
    intros Ht'. pose proof (inv_filed b Hb tid t' Ht').
    destruct (decide (columnId t = columnId t')) as [Heq|]; [|done].
    apply list_elem_of_filter. split; [congruence|]. by rewrite Heq.
Qed.

Lemma moveTask_board_col_id b now taskId src dst i b' :
  moveTask_board now taskId src dst i b = Some b' ->
  forall c, col_id (get_col (columns b') c) = col_id (get_col (columns b) c).
Proof.
  unfold moveTask_board.
  destruct (move_rule dst (tasks b !! taskId)) as [rule|]; [|done].
  intros [= <-] c. cbv zeta. simpl columns.
  destruct (decide (src = dst)) as [->|Hne]; [by destruct dst, c|].
  by destruct src, dst, c.
Qed.

Lemma moveTask_board_inv b now taskId t src dst i b' :
  board_inv b -> tasks b !! taskId = Some (Full t) -> columnId t = src ->
  moveTask_board now taskId src dst i b = Some b' -> board_inv b'.
Proof.
  intros Hb Ht Hsrc Hm.
  assert (taskId ∈ col_ids b src) as Hin by (subst; by apply (inv_filed b Hb)).
  destruct (moveTask_board_columns _ _ _ _ _ _ _ Hin Hm) as (Hd & Hs & Hc).
  cbv zeta in Hd, Hs.
  destruct (remove_first_NoDup _ taskId (inv_nodup b Hb src) Hin)
    as (Hrn & Hrx & Hrm).
  assert (exists t', tasks b' = <[taskId := Full t']> (tasks b) /\ columnId t' = dst)
    as (t' & Htasks & Hcol').
  { unfold moveTask_board in Hm. rewrite Ht in Hm.
    destruct (move_rule dst (Some (Full t))); [|done].
    injection Hm as <-. simpl. eauto. }
  (* the lists of the new board, column by column *)
  assert (forall c x, x ∈ col_ids b' c <->
            (c = dst /\ x = taskId) \/ (x <> taskId /\ x ∈ col_ids b c)) as Hmem.
  { intros c x. unfold col_ids in *.
    destruct (decide (c = dst)) as [->|Hcd].
    - rewrite Hd, elem_of_insert_at.
      destruct (decide (src = dst)) as [->|Hsd].
      + rewrite Hrm. intuition congruence.
      + split; [|intuition congruence].
        intros [->|Hx]; [by left|]. right. split; [|done]. intros ->.
        apply Hsd. rewrite <- Hsrc. symmetry. by apply (inv_only_column b taskId).
    - destruct (decide (c = src)) as [->|Hcs].
      + rewrite Hs, Hrm by done. intuition congruence.
      + rewrite Hc by done. split; [|intuition congruence].
        intros Hx. right. split; [|done]. intros ->.
        apply Hcs. rewrite <- Hsrc. by apply (inv_only_column b taskId). }
  split.
  - intros c. rewrite (moveTask_board_col_id _ _ _ _ _ _ _ Hm).
    apply (inv_col_id b Hb).
  - intros tid o. rewrite Htasks, lookup_insert.
    destruct (decide (taskId = tid)); [intros [= <-]; eauto|].
    apply (inv_full b Hb).
  - intros c. unfold col_ids in *.
    destruct (decide (c = dst)) as [->|Hcd].
    + rewrite Hd. apply insert_at_NoDup.
      * destruct (decide (src = dst)); [done|apply (inv_nodup b Hb)].
      * destruct (decide (src = dst)) as [|Hsd]; [done|]. intros Hx.
        apply Hsd. rewrite <- Hsrc. symmetry. by apply (inv_only_column b taskId).
    + destruct (decide (c = src)) as [->|Hcs].
      * by rewrite Hs.
      * rewrite Hc by done. apply (inv_nodup b Hb).
  - intros c tid. rewrite Hmem, Htasks. intros [[-> ->]|[Hne Hx]].
    + rewrite lookup_insert_eq. eauto.
    + rewrite lookup_insert_ne by done. by apply (inv_listed b Hb).
  - intros tid t0. rewrite Htasks, lookup_insert, Hmem.
    destruct (decide (taskId = tid)) as [<-|Hne].
    + intros [= <-]. by left.
    + intros Ht0. right. split; [done|]. by apply (inv_filed b Hb).
Qed.

(** Moving a task to another place and then back to the index it came
    from restores every column list and the task's [columnId]. *)
Theorem move_round_trip b now1 now2 taskId t src dst i (j : nat) b1 :
  board_inv b ->
  tasks b !! taskId = Some (Full t) ->
  columnId t = src ->
  col_ids b src !! j = Some taskId ->
  moveTask_board now1 taskId src dst i b = Some b1 ->
  exists b2 t2,
    moveTask_board now2 taskId dst src (Z.of_nat j) b1 = Some b2 /\
    (forall c, col_ids b2 c = col_ids b c) /\
    tasks b2 !! taskId = Some (Full t2) /\
    columnId t2 = columnId t /\
    (forall k, k <> taskId -> tasks b2 !! k = tasks b !! k).
Proof.
  intros Hb Ht Hsrc Hj Hm1.
  assert (taskId ∈ col_ids b src) as Hin by (by eapply list_elem_of_lookup_2).
  pose proof (inv_nodup b Hb src) as Hnd.
  destruct (moveTask_board_columns _ _ _ _ _ _ _ Hin Hm1) as (Hd1 & Hs1 & Hc1).
  cbv zeta in Hd1, Hs1. fold (col_ids b src) in Hd1, Hs1.
  destruct (remove_first_NoDup _ taskId Hnd Hin) as (_ & Hrx & _).
  assert (exists t1, tasks b1 = <[taskId := Full t1]> (tasks b)) as (t1 & Htasks1).
  { unfold moveTask_board in Hm1. rewrite Ht in Hm1.
    destruct (move_rule dst (Some (Full t))); [|done].
    injection Hm1 as <-. simpl. eauto. }
  assert (taskId ∈ col_ids b1 dst) as Hin1.
  { unfold col_ids. rewrite Hd1. apply elem_of_insert_at. by left. }
  assert (tasks b1 !! taskId = Some (Full t1)) as Hl1
    by (rewrite Htasks1; apply lookup_insert_eq).
  destruct (moveTask_board now2 taskId dst src (Z.of_nat j) b1) as [b2|] eqn:Hm2.
  2: { exfalso. unfold moveTask_board in Hm2. rewrite Hl1 in Hm2.
       destruct (move_rule_Some src (Full t1)) as [r Hr]. by rewrite Hr in Hm2. }
  destruct (moveTask_board_columns _ _ _ _ _ _ _ Hin1 Hm2) as (Hd2 & Hs2 & Hc2).
  cbv zeta in Hd2, Hs2. fold (col_ids b1 dst) in Hd2, Hs2.
  assert (exists t2, tasks b2 = <[taskId := Full t2]> (tasks b1) /\ columnId t2 = src)
    as (t2 & Htasks2 & Hcol2).
  { unfold moveTask_board in Hm2. rewrite Hl1 in Hm2.
    destruct (move_rule src (Some (Full t1))); [|done].
    injection Hm2 as <-. simpl. eauto. }
  assert (j <= length (Js.remove_first taskId (col_ids b src)))%nat as Hjlen.
  { rewrite remove_first_length by done. apply lookup_lt_Some in Hj. lia. }
  exists b2, t2. split; [done|]. split; [|split; [|split]].
  - intros c. unfold col_ids in *.
    destruct (decide (src = dst)) as [<-|Hne].
    + rewrite decide_True in Hd2 by done.
      destruct (decide (c = src)) as [->|Hc]; [|by rewrite Hc2, Hc1].
      rewrite Hd2, Hd1, remove_first_insert_at by done.
      rewrite relative_index_nonneg, Nat2Z.id, Nat.min_l by lia.
      by apply insert_at_remove_first.
    + rewrite decide_False in Hd2 by congruence.
      destruct (decide (c = src)) as [->|Hcs].
      * rewrite Hd2, Hs1 by done.
        rewrite relative_index_nonneg, Nat2Z.id, Nat.min_l by lia.
        by apply insert_at_remove_first.
      * destruct (decide (c = dst)) as [->|Hcd]; [|by rewrite Hc2, Hc1].
        rewrite Hs2, Hd1 by done. apply remove_first_insert_at.
        intros Hx. apply Hne. rewrite <- Hsrc. symmetry.
        by apply (inv_only_column b taskId).
  - by rewrite Htasks2, lookup_insert_eq.
  - congruence.
  - intros k Hk. by rewrite Htasks2, Htasks1, !lookup_insert_ne.
Qed.

Lemma move_round_trip_witness :
  exists b1 b2,
    moveTask_board "2024-05-06T09:00:00.000Z" "b" todo done 0
      (createDefaultBoard demo_uuid demo_iso) = Some b1 /\
    col_ids b1 todo = ["a"; "c"] /\ col_ids b1 done = ["b"; "f"] /\
    moveTask_board "2024-05-06T09:30:00.000Z" "b" done todo 1 b1 = Some b2 /\
    (forall c, col_ids b2 c = col_ids (createDefaultBoard demo_uuid demo_iso) c).
Proof.
  destruct (moveTask_board "2024-05-06T09:00:00.000Z" "b" todo done 0
              (createDefaultBoard demo_uuid demo_iso)) as [b1|] eqn:Hm1;
    [|by vm_compute in Hm1].
  destruct (tasks (createDefaultBoard demo_uuid demo_iso) !! "b") as [[t|u]|] eqn:Ht;
    [|by vm_compute in Ht|by vm_compute in Ht].
  destruct (move_round_trip (createDefaultBoard demo_uuid demo_iso)
              "2024-05-06T09:00:00.000Z" "2024-05-06T09:30:00.000Z" "b" t
              todo done 0 1 b1) as (b2 & t2 & Hm2 & Hcols & _).
  - apply createDefaultBoard_inv. apply (bool_decide_unpack _). vm_compute. exact I.
  - exact Ht.
  - vm_compute in Ht. by injection Ht as <-.
  - reflexivity.
  - exact Hm1.
  - exists b1, b2. injection Hm1 as <-.
    split; [reflexivity|]. split; [reflexivity|]. split; [reflexivity|].
    split; [exact Hm2|exact Hcols].
Defined.

Lemma targeted_call_inv s s' :
  targeted_call s s' -> board_inv (board s) -> board_inv (board s').
Proof.
  intros [newId now col ttl descr pri due tgs s1 Hnew Hop
         |taskId t u s1 Ht Hu Hop
         |taskId s1 Hop
         |now taskId t dst i s1 Ht Hop] Hb;
    unfold addTask, updateTask, deleteTask, moveTask in Hop;
    apply with_board_inv in Hop as (_ & _ & Hop).
  - injection Hop as <-. by apply addTask_board_inv.
  - injection Hop as <-. by eapply updateTask_board_inv.
  - by eapply deleteTask_board_inv.
  - by eapply moveTask_board_inv.
Qed.

Lemma targeted_calls_inv s0 s :
  rtc targeted_call s0 s -> board_inv (board s0) -> board_inv (board s).
Proof. induction 1; eauto using targeted_call_inv. Qed.

(** Under well-targeted calls the seed board keeps each stored task in
    exactly one column, once, the one its [columnId] names. (The six ids of
    the seed board are distinct.) *)
Lemma targeted_calls_one_column uuid iso s :
  NoDup (map uuid (seq 0 6)) ->
  rtc targeted_call (initStore (createDefaultBoard uuid iso)) s ->
  forall tid o, tasks (board s) !! tid = Some o ->
    exists t, o = Full t /\
      tid ∈ col_ids (board s) (columnId t) /\
      col_id (get_col (columns (board s)) (columnId t)) = columnId t /\
      (forall c, tid ∈ col_ids (board s) c -> c = columnId t) /\
      NoDup (col_ids (board s) (columnId t)).
Proof.
  intros Hnd Hreach tid o Ho.
  assert (board_inv (board s)) as Hb.
  { eapply targeted_calls_inv; [exact Hreach|].
    by apply createDefaultBoard_inv. }
  destruct (inv_full _ Hb tid o Ho) as [t ->]. exists t.
  split; [done|]. split; [by apply (inv_filed _ Hb)|].
  split; [apply (inv_col_id _ Hb)|].
  split; [|apply (inv_nodup _ Hb)].
  intros c Hin. by apply (inv_only_column (board s) tid).
Qed.

Lemma unlisted_everywhere (b : BoardState) tid :
  bool_decide (tid ∉ col_ids b todo ++ col_ids b in_progress ++ col_ids b done) = true ->
  forall c, tid ∉ col_ids b c.
Proof.
  intros H%bool_decide_eq_true c Hc. apply H.
  rewrite !elem_of_app. destruct c; tauto.
Qed.

(** C1, at two failing inputs. The calls the application makes do not keep
    every stored id in exactly one column. The edit dialog saves with the
    task it captured when it was opened, and [updateTask] has no guard
    against an id that is no longer stored.
    - On the seed board, with the dialog of the first task open, the chat
      command "delete Design homepage mockup" deletes the task; saving the
      dialog then stores an object under the id, which is not a complete
      task and which no column lists.
    - After adding a task and opening its dialog, an undo takes the task
      away; saving the dialog has the same effect. *)
Theorem stale_save_unfiles_the_task :
  let now := "2024-05-06T10:00:00.000Z" in
  let data := App.mkTaskData "Design landing page" EmptyString high None ["design"] todo in
  (exists t r s1 s2 o,
     tasks (board demo_store) !! "a" = Some (Full t) /\
     columnId t = todo /\
     ChatbotActions.processCommand ten_utc "delete Design homepage mockup"
       (board_tasks (board demo_store)) = Chatbot.Replied r /\
     Chatbot.action r = Some (Chatbot.Delete "a") /\
     ChatbotActions.executeAction "n1" now (board demo_store) (Chatbot.Delete "a")
       demo_store = Some s1 /\
     App.handleSaveTask "n2" now (Some t) data s1 = Some s2 /\
     tasks (board s2) !! "a" = Some o /\
     (forall t', o <> Full t') /\
     (forall c, "a" ∉ col_ids (board s2) c)) /\
  (exists s1 t s2 o,
     addTask "n1" now todo "Design landing" EmptyString medium None [] demo_store
       = Some s1 /\
     tasks (board s1) !! "n1" = Some (Full t) /\
     "n1" ∈ col_ids (board s1) (columnId t) /\
     App.handleSaveTask "n2" now (Some t) data (undo s1) = Some s2 /\
     tasks (board s2) !! "n1" = Some o /\
     (forall t', o <> Full t') /\
     (forall c, "n1" ∉ col_ids (board s2) c)).
Proof.
  cbv zeta. split.
  - do 5 eexists.
    split; [vm_compute; reflexivity|]. split; [reflexivity|].
    split; [vm_compute; reflexivity|]. split; [reflexivity|].
    split; [vm_compute; reflexivity|]. split; [vm_compute; reflexivity|].
    split; [vm_compute; reflexivity|]. split; [discriminate|].
    apply unlisted_everywhere. vm_compute. reflexivity.
  - do 4 eexists.
    split; [vm_compute; reflexivity|]. split; [vm_compute; reflexivity|].
    split; [apply (bool_decide_unpack _); vm_compute; exact I|].
    split; [vm_compute; reflexivity|].
    split; [vm_compute; reflexivity|]. split; [discriminate|].
    apply unlisted_everywhere. vm_compute. reflexivity.
Qed.

End Membership.

(** ** The numbers of the host language

    The scores of the task matcher are binary64 numbers. The lemmas of this
    section follow the operations of the standard library's specification
    of the format far enough to order the scores: a count is zero or a
    positive finite number, so is a quotient of counts, and the sign of a
    difference of two such numbers is the way they compare. *)

Section Binary64.
Import Chatbot.

Lemma digits2_pos_bounds m :
  2 ^ (Zpos (digits2_pos m) - 1) <= Zpos m < 2 ^ Zpos (digits2_pos m).
Proof.
  induction m as [p IH|p IH|]; simpl digits2_pos.
  - rewrite Pos2Z.inj_succ, Z.pow_succ_r by lia.
    replace (Z.succ (Z.pos (digits2_pos p)) - 1) with (Z.succ (Z.pos (digits2_pos p) - 1)) by lia.
    rewrite Z.pow_succ_r by lia. lia.
  - rewrite Pos2Z.inj_succ, Z.pow_succ_r by lia.
    replace (Z.succ (Z.pos (digits2_pos p)) - 1) with (Z.succ (Z.pos (digits2_pos p) - 1)) by lia.
    rewrite Z.pow_succ_r by lia. lia.
  - simpl. lia.
Qed.

Lemma shr_1_m mrs : 0 <= shr_m mrs -> shr_m (shr_1 mrs) = shr_m mrs / 2.
Proof.
  destruct mrs as [m r s]. cbn [shr_m]. intros Hm.
  destruct m as [|[p|p|]|p]; cbn [shr_1 shr_m]; try lia; try reflexivity.
  - change (Z.pos p~1) with (2 * Z.pos p + 1). Z.div_mod_to_equations. lia.
  - change (Z.pos p~0) with (2 * Z.pos p). Z.div_mod_to_equations. lia.
Qed.

Lemma shr_m_iter p mrs :
  0 <= shr_m mrs -> shr_m (SpecFloat.iter_pos shr_1 p mrs) = shr_m mrs / 2 ^ Zpos p.
Proof.
  revert mrs. induction p as [p IH|p IH|]; intros mrs Hm; cbn [SpecFloat.iter_pos].
  - assert (0 <= shr_m (shr_1 mrs)) as H1 by (rewrite shr_1_m by done; apply Z.div_pos; lia).
    assert (0 <= shr_m (SpecFloat.iter_pos shr_1 p (shr_1 mrs))) as H2
      by (rewrite IH by done; apply Z.div_pos; [done|apply Z.pow_pos_nonneg; lia]).
    rewrite IH, IH, shr_1_m by done.
    assert (2 ^ Z.pos p~1 = 2 * 2 ^ Z.pos p * 2 ^ Z.pos p) as ->.
    { rewrite <- Z.mul_assoc, <- Z.pow_add_r, <- Z.pow_succ_r by lia. f_equal. lia. }
    rewrite !Zdiv_Zdiv by (try apply Z.mul_nonneg_nonneg; try apply Z.pow_nonneg; lia).
    f_equal. lia.
  - assert (0 <= shr_m (SpecFloat.iter_pos shr_1 p mrs)) as H2
      by (rewrite IH by done; apply Z.div_pos; [done|apply Z.pow_pos_nonneg; lia]).
    rewrite IH, IH by done.
    assert (2 ^ Z.pos p~0 = 2 ^ Z.pos p * 2 ^ Z.pos p) as ->.
    { rewrite <- Z.pow_add_r by lia. f_equal. lia. }
    rewrite !Zdiv_Zdiv by (try apply Z.pow_nonneg; lia). done.
  - rewrite shr_1_m by done. done.
Qed.

Lemma Zdigits2_pos m :
  0 < m -> 2 ^ (Zdigits2 m - 1) <= m < 2 ^ Zdigits2 m /\ 0 < Zdigits2 m.
Proof.
  destruct m as [|p|p]; try lia. intros _. simpl Zdigits2.
  split; [apply digits2_pos_bounds|lia].
Qed.

Lemma Zdigits2_le m k : 0 <= k -> 0 <= m < 2 ^ k -> Zdigits2 m <= k.
Proof.
  intros Hk [Hm Hlt]. destruct (Z.eq_dec m 0) as [->|Hne]; [simpl; lia|].
  destruct (Zdigits2_pos m) as [[Hlo _] Hd]; [lia|].
  destruct (Z.le_gt_cases (Zdigits2 m) k) as [|Hgt]; [done|].
  assert (2 ^ k <= 2 ^ (Zdigits2 m - 1)) by (apply Z.pow_le_mono_r; lia). lia.
Qed.

Lemma shr_m_of_loc m l : shr_m (shr_record_of_loc m l) = m.
Proof. by destruct l as [|[]]. Qed.

(** The two results of [shr_fexp] on a mantissa that is not negative. *)
Lemma shr_fexp_spec m e l :
  0 <= m ->
  let n := Z.max 0 (fexp prec emax (Zdigits2 m + e) - e) in
  shr_m (fst (shr_fexp prec emax m e l)) = m / 2 ^ n /\
  snd (shr_fexp prec emax m e l) = e + n.
Proof.
  intros Hm. cbv zeta. unfold shr_fexp, shr.
  destruct (fexp prec emax (Zdigits2 m + e) - e) as [|p|p] eqn:Hn; cbn [fst snd].
  - rewrite shr_m_of_loc. change (Z.max 0 0) with 0. rewrite Z.pow_0_r, Z.div_1_r. lia.
  - rewrite shr_m_iter by (rewrite shr_m_of_loc; done).
    rewrite shr_m_of_loc. rewrite Z.max_r by lia. done.
  - rewrite shr_m_of_loc. rewrite Z.max_l by lia. rewrite Z.pow_0_r, Z.div_1_r. lia.
Qed.

Lemma emin_value : emin = -1074.
Proof. reflexivity. Qed.

Lemma fexp_value k : fexp prec emax k = Z.max (k - 53) (-1074).
Proof. reflexivity. Qed.

(** A positive mantissa at an exponent of the format stays positive. *)
Lemma shr_fexp_pos m e l :
  0 < m -> -1074 <= e ->
  0 < shr_m (fst (shr_fexp prec emax m e l)) /\
  -1074 <= snd (shr_fexp prec emax m e l).
Proof.
  intros Hm He. destruct (shr_fexp_spec m e l) as [-> ->]; [lia|].
  rewrite fexp_value. destruct (Zdigits2_pos m Hm) as [[Hlo Hhi] Hd].
  split; [|lia].
  apply Z.div_str_pos. split; [apply Z.pow_pos_nonneg; lia|].
  etrans; [|exact Hlo]. apply Z.pow_le_mono_r; lia.
Qed.

Lemma round_nearest_even_bounds m l :
  m <= round_nearest_even m l <= m + 1.
Proof.
  unfold round_nearest_even. destruct l as [|[]]; try lia. destruct (Z.even m); lia.
Qed.

Lemma binary_round_aux_signed sx mx ex lx :
  0 <= mx -> signed sx (binary_round_aux prec emax sx mx ex lx).
Proof.
  intros Hm. unfold binary_round_aux.
  pose proof (shr_fexp_spec mx ex lx Hm) as [H1 _].
  destruct (shr_fexp prec emax mx ex lx) as [mrs' e']. cbn [fst] in H1.
  set (m1 := round_nearest_even (shr_m mrs') (loc_of_shr_record mrs')).
  assert (0 <= m1) as Hm1.
  { pose proof (round_nearest_even_bounds (shr_m mrs') (loc_of_shr_record mrs')).
    assert (0 <= shr_m mrs') by (rewrite H1; apply Z.div_pos; [lia|apply Z.pow_pos_nonneg; lia]).
    subst m1. lia. }
  pose proof (shr_fexp_spec m1 e' loc_Exact Hm1) as [H2 _].
  destruct (shr_fexp prec emax m1 e' loc_Exact) as [mrs'' e'']. cbn [fst] in H2.
  assert (0 <= shr_m mrs'') as H3
    by (rewrite H2; apply Z.div_pos; [lia|apply Z.pow_pos_nonneg; lia]).
  destruct (shr_m mrs'') as [|p|p]; [by left| |lia].
  destruct (e'' <=? emax - prec); right; [left; eauto|by right].
Qed.

Lemma binary_round_aux_nonzero sx mx ex lx :
  0 < mx -> -1074 <= ex -> signed_nonzero sx (binary_round_aux prec emax sx mx ex lx).
Proof.
  intros Hm He. unfold binary_round_aux.
  pose proof (shr_fexp_pos mx ex lx Hm He) as [H1 He1].
  destruct (shr_fexp prec emax mx ex lx) as [mrs' e']. cbn [fst snd] in H1, He1.
  set (m1 := round_nearest_even (shr_m mrs') (loc_of_shr_record mrs')).
  assert (0 < m1) as Hm1.
  { pose proof (round_nearest_even_bounds (shr_m mrs') (loc_of_shr_record mrs')).
    subst m1. lia. }
  pose proof (shr_fexp_pos m1 e' loc_Exact Hm1 He1) as [H2 _].
  destruct (shr_fexp prec emax m1 e' loc_Exact) as [mrs'' e'']. cbn [fst] in H2.
  destruct (shr_m mrs'') as [|p|p]; [lia| |lia].
  destruct (e'' <=? emax - prec); [left; eauto|by right].
Qed.

Lemma pos_iter_xO m d : Zpos (Pos.iter xO m d) = Zpos m * 2 ^ Zpos d.
Proof.
  induction d as [|d IH] using Pos.peano_ind.
  - simpl. lia.
  - rewrite Pos.iter_succ, Pos2Z.inj_xO, IH, Pos2Z.inj_succ, Z.pow_succ_r by lia. lia.
Qed.

Lemma shl_align_spec mx ex ex' :
  snd (shl_align mx ex ex') = Z.min ex ex' /\
  Zpos (fst (shl_align mx ex ex')) = Zpos mx * 2 ^ (ex - snd (shl_align mx ex ex')).
Proof.
  unfold shl_align. destruct (ex' - ex) as [|d|d] eqn:Hd; cbn [fst snd].
  - split; [lia|]. rewrite Z.sub_diag. simpl. lia.
  - split; [lia|]. rewrite Z.sub_diag. simpl. lia.
  - split; [lia|]. rewrite pos_iter_xO. f_equal. f_equal. lia.
Qed.

Lemma binary_round_nonzero sx m e :
  -1074 <= e -> signed_nonzero sx (binary_round prec emax sx m e).
Proof.
  intros He. unfold binary_round.
  pose proof (shl_align_spec m e (fexp prec emax (Z.pos (digits2_pos m) + e))) as [H1 _].
  destruct (shl_align m e _) as [mz ez]. cbn [snd] in H1.
  apply binary_round_aux_nonzero; [lia|]. rewrite H1, fexp_value. lia.
Qed.

(** A difference that is not zero does not round to zero. *)
Lemma binary_normalize_sign m e :
  -1074 <= e ->
  match m with
  | 0 => binary_normalize prec emax m e false = S754_zero false
  | Zpos _ => signed_nonzero false (binary_normalize prec emax m e false)
  | Zneg _ => signed_nonzero true (binary_normalize prec emax m e false)
  end.
Proof.
  intros He. destruct m; [done| |]; by apply binary_round_nonzero.
Qed.

(** No overflow for a mantissa and an exponent that are small enough. *)
Lemma binary_round_aux_finite sx mx ex lx :
  0 <= mx -> ex <= 971 -> Zdigits2 mx + ex <= 1023 ->
  binary_round_aux prec emax sx mx ex lx <> S754_infinity sx.
Proof.
  intros Hm He Hd. unfold binary_round_aux.
  pose proof (shr_fexp_spec mx ex lx Hm) as [H1 He1].
  destruct (shr_fexp prec emax mx ex lx) as [mrs' e']. cbn [fst snd] in H1, He1.
  set (n1 := Z.max 0 (fexp prec emax (Zdigits2 mx + ex) - ex)) in *.
  set (m1 := round_nearest_even (shr_m mrs') (loc_of_shr_record mrs')).
  assert (0 <= shr_m mrs') as Hm'
    by (rewrite H1; apply Z.div_pos; [lia|apply Z.pow_pos_nonneg; lia]).
  assert (0 <= m1 <= shr_m mrs' + 1) as Hm1.
  { pose proof (round_nearest_even_bounds (shr_m mrs') (loc_of_shr_record mrs')).
    subst m1. lia. }
  assert (mx < 2 ^ Zdigits2 mx) as Hmx.
  { destruct (Z.eq_dec mx 0) as [->|]; [done|].
    destruct (Zdigits2_pos mx) as [[_ ?] _]; lia. }
  assert (0 <= Zdigits2 mx) as Hdx.
  { destruct mx; simpl; lia. }
  assert (Zdigits2 m1 + e' <= Z.max (Zdigits2 mx + ex + 1) (e' + 1)) as Hd1.
  { destruct (Z.le_gt_cases n1 (Zdigits2 mx)) as [Hn|Hn].
    - assert (Zdigits2 m1 <= Zdigits2 mx - n1 + 1); [|lia].
      apply Zdigits2_le; [lia|]. split; [lia|].
      assert (shr_m mrs' < 2 ^ (Zdigits2 mx - n1)).
      { rewrite H1. apply Z.div_lt_upper_bound; [apply Z.pow_pos_nonneg; lia|].
        rewrite <- Z.pow_add_r by lia.
        replace (n1 + (Zdigits2 mx - n1)) with (Zdigits2 mx) by lia. done. }
      rewrite Z.pow_add_r, Z.pow_1_r by lia. lia.
    - assert (shr_m mrs' = 0) as Hz.
      { rewrite H1. apply Z.div_small. split; [done|].
        eapply Z.lt_le_trans; [exact Hmx|]. apply Z.pow_le_mono_r; lia. }
      assert (Zdigits2 m1 <= 1); [|lia].
      apply Zdigits2_le; [lia|]. rewrite Hz in Hm1. simpl. lia. }
  pose proof (shr_fexp_spec m1 e' loc_Exact (proj1 Hm1)) as [H2 He2].
  destruct (shr_fexp prec emax m1 e' loc_Exact) as [mrs'' e'']. cbn [fst snd] in H2, He2.
  assert (e'' <= 971) as He''.
  { rewrite He2, fexp_value. subst e'. subst n1. rewrite fexp_value in *. lia. }
  destruct (shr_m mrs''); try done.
  destruct (Z.leb_spec e'' (emax - prec)) as [|Hgt]; [done|].
  change (emax - prec) with 971 in Hgt. lia.
Qed.

(** The number of a count below [2^63]: zero, or positive and finite. *)
Lemma binary_normalize_count z :
  0 <= z < 2 ^ 63 ->
  (z = 0 /\ binary_normalize prec emax z 0 false = S754_zero false) \/
  (0 < z /\ exists m e, binary_normalize prec emax z 0 false = S754_finite false m e).
Proof.
  intros [Hz Hlt]. destruct z as [|p|p]; [by left| |lia].
  right. split; [lia|].
  pose proof (binary_round_nonzero false p 0 ltac:(lia)) as [Hfin|Hinf]; [exact Hfin|].
  exfalso. revert Hinf. cbn [binary_normalize]. unfold binary_round.
  pose proof (shl_align_spec p 0 (fexp prec emax (Z.pos (digits2_pos p) + 0))) as [H1 H2].
  destruct (shl_align p 0 _) as [mz ez]. cbn [fst snd] in H1, H2.
  assert (Zdigits2 (Z.pos p) <= 63) as Hd by (apply Zdigits2_le; lia).
  destruct (Zdigits2_pos (Z.pos p)) as [[_ Hhi] Hpos]; [lia|].
  apply binary_round_aux_finite; [lia|lia|].
  assert (Zdigits2 (Z.pos mz) <= Zdigits2 (Z.pos p) - ez); [|lia].
  apply Zdigits2_le; [lia|]. split; [lia|].
  rewrite H2. replace (Zdigits2 (Z.pos p) - ez) with (Zdigits2 (Z.pos p) + (0 - ez)) by lia.
  rewrite Z.pow_add_r by lia.
  apply Z.mul_lt_mono_pos_r; [apply Z.pow_pos_nonneg; lia|done].
Qed.

Lemma Prim2SF_number n :
  Z.of_nat n < 2 ^ 63 ->
  (n = 0%nat /\ Prim2SF (number n) = S754_zero false) \/
  ((0 < n)%nat /\ exists m e, Prim2SF (number n) = S754_finite false m e).
Proof.
  intros Hn. unfold number. rewrite of_uint63_spec, Uint63.of_Z_spec.
  rewrite Z.mod_small by (change wB with (2 ^ 63); lia).
  destruct (binary_normalize_count (Z.of_nat n)) as [[H0 ->]|[Hp H]]; [lia| |].
  - left. split; [lia|done].
  - right. split; [lia|done].
Qed.

Lemma SFdiv_core_nonneg m1 e1 m2 e2 :
  0 <= fst (fst (SFdiv_core_binary prec emax (Zpos m1) e1 (Zpos m2) e2)).
Proof.
  unfold SFdiv_core_binary. cbv zeta.
  set (m' := match _ with Z0 => Zpos m1 | Zpos _ => _ | Zneg _ => 0 end).
  assert (0 <= m') as Hm'.
  { subst m'. destruct (_ - _); [lia| |lia]. apply Z.shiftl_nonneg. lia. }
  pose proof (Z.div_pos m' (Zpos m2) Hm' ltac:(lia)) as Hq.
  unfold Z.div in Hq. destruct (Z.div_eucl m' (Z.pos m2)) as [q r]. done.
Qed.

(** A quotient of a count by a positive count is a number that is not
    negative. *)
Lemma SFdiv_signed A m e :
  signed false A -> A <> S754_infinity false ->
  signed false (SF64div A (S754_finite false m e)).
Proof.
  intros [HA|[(ma & ea & HA)|HA]] Hinf; subst A; [by left| |done].
  unfold SF64div, SFdiv.
  pose proof (SFdiv_core_nonneg ma ea m e) as Hq.
  destruct (SFdiv_core_binary prec emax (Z.pos ma) ea (Z.pos m) e) as [[mz ez] lz].
  by apply binary_round_aux_signed.
Qed.

(** What validity says of a finite number: the exponent lies in the
    format, the mantissa has at most 53 digits, and exactly 53 above the
    smallest exponent. *)
Lemma valid_finite s m e :
  valid_binary (S754_finite s m e) = true ->
  -1074 <= e /\ Zpos (digits2_pos m) <= 53 /\ (-1074 < e -> Zpos (digits2_pos m) = 53).
Proof.
  unfold SpecFloat.valid_binary, bounded, canonical_mantissa.
  intros [Hc _]%andb_true_iff. apply Z.eqb_eq in Hc. rewrite fexp_value in Hc. lia.
Qed.

(** Two valid positive numbers compare as their mantissas do once they are
    aligned to the smaller exponent. *)
Lemma aligned_compare mx ex my ey :
  valid_binary (S754_finite false mx ex) = true ->
  valid_binary (S754_finite false my ey) = true ->
  let ez := Z.min ey ex in
  let X := Zpos (fst (shl_align mx ex ez)) in
  let Y := Zpos (fst (shl_align my ey ez)) in
  match SFcompare (S754_finite false mx ex) (S754_finite false my ey) with
  | Some Lt => X < Y
  | Some Eq => X = Y
  | Some Gt => Y < X
  | None => False
  end.
Proof.
  intros (Hex & Hdx & Hnx)%valid_finite (Hey & Hdy & Hny)%valid_finite. cbv zeta.
  destruct (shl_align_spec mx ex (Z.min ey ex)) as [Hsx ->].
  destruct (shl_align_spec my ey (Z.min ey ex)) as [Hsy ->].
  rewrite Hsx, Hsy. clear Hsx Hsy.
  replace (Z.min ex (Z.min ey ex)) with (Z.min ey ex) by lia.
  replace (Z.min ey (Z.min ey ex)) with (Z.min ey ex) by lia.
  pose proof (digits2_pos_bounds mx) as [Hxl Hxh].
  pose proof (digits2_pos_bounds my) as [Hyl Hyh].
  cbn [SFcompare]. destruct (Z.compare_spec ex ey) as [Heq|Hlt|Hgt].
  - subst ey. rewrite !Z.min_id, Z.sub_diag. simpl (2 ^ 0). rewrite !Z.mul_1_r.
    change (Pos.compare_cont Eq mx my) with (Pos.compare mx my).
    destruct (Pos.compare_spec mx my); [congruence|lia|lia].
  - replace (Z.min ey ex) with ex by lia.
    rewrite Z.sub_diag. simpl (2 ^ 0). rewrite Z.mul_1_r.
    rewrite Hny in Hyl by lia.
    assert (2 ^ 1 <= 2 ^ (ey - ex)) as Hp by (apply Z.pow_le_mono_r; lia).
    assert (Z.pos mx < 2 ^ 53).
    { eapply Z.lt_le_trans; [exact Hxh|]. apply Z.pow_le_mono_r; lia. }
    change (2 ^ 1) with 2 in Hp. change (2 ^ (53 - 1)) with 4503599627370496 in Hyl.
    change (2 ^ 53) with 9007199254740992 in *. nia.
  - replace (Z.min ey ex) with ey by lia.
    rewrite Z.sub_diag. simpl (2 ^ 0). rewrite Z.mul_1_r.
    rewrite Hnx in Hxl by lia.
    assert (2 ^ 1 <= 2 ^ (ex - ey)) as Hp by (apply Z.pow_le_mono_r; lia).
    assert (Z.pos my < 2 ^ 53).
    { eapply Z.lt_le_trans; [exact Hyh|]. apply Z.pow_le_mono_r; lia. }
    change (2 ^ 1) with 2 in Hp. change (2 ^ (53 - 1)) with 4503599627370496 in Hxl.
    change (2 ^ 53) with 9007199254740992 in *. nia.
Qed.

(** The sign of a difference of two valid numbers that are not negative
    is the way they compare. *)
Lemma SFsub_sign x y :
  signed false x -> signed false y ->
  valid_binary x = true -> valid_binary y = true ->
  match SFcompare x y with
  | Some Lt => signed_nonzero false (SF64sub y x)
  | Some Gt => signed_nonzero true (SF64sub y x)
  | Some Eq => SF64sub y x = S754_zero false \/ SF64sub y x = S754_nan
  | None => False
  end.
Proof.
  intros [Hx|[(mx & ex & Hx)|Hx]] [Hy|[(my & ey & Hy)|Hy]] Hvx Hvy; subst x y;
    try (cbn; by eauto using (or_introl), (or_intror));
    try (cbn; left; by eauto); try (cbn; right; done).
  pose proof (aligned_compare mx ex my ey Hvx Hvy) as Hc. cbv zeta in Hc.
  destruct (valid_finite _ _ _ Hvx) as (Hex & _), (valid_finite _ _ _ Hvy) as (Hey & _).
  unfold SF64sub, SFsub. cbn [cond_Zopp].
  pose proof (binary_normalize_sign
    (Z.pos (fst (shl_align my ey (Z.min ey ex))) - Z.pos (fst (shl_align mx ex (Z.min ey ex))))
    (Z.min ey ex) ltac:(lia)) as Hn.
  destruct (SFcompare (S754_finite false mx ex) (S754_finite false my ey)) as [[]|];
    [| | |done].
  - rewrite Hc, Z.sub_diag in *. by left.
  - destruct (_ - _) eqn:Hd in Hn; rewrite Hd; [lia|done|lia].
  - destruct (_ - _) eqn:Hd in Hn; rewrite Hd; [lia|lia|done].
Qed.


(** Numbers that are not negative compare as their magnitudes do. *)
Lemma SFcompare_magnitude x y :
  signed false x -> signed false y ->
  (SFcompare x y = Some Lt /\ lex_lt (magnitude x) (magnitude y)) \/
  (SFcompare x y = Some Eq /\ lex_eq (magnitude x) (magnitude y)) \/
  (SFcompare x y = Some Gt /\ lex_lt (magnitude y) (magnitude x)).
Proof.
  intros [Hx|[(mx & ex & Hx)|Hx]] [Hy|[(my & ey & Hy)|Hy]]; subst x y;
    unfold lex_lt, lex_eq; cbn [SFcompare magnitude fst snd];
    try (left; split; [reflexivity|lia]);
    try (right; left; split; [reflexivity|lia]);
    try (right; right; split; [reflexivity|lia]).
  change (Pos.compare_cont Eq mx my) with (Pos.compare mx my).
  destruct (Z.compare_spec ex ey) as [Heq|Hlt|Hgt];
    [|left; split; [reflexivity|lia]|right; right; split; [reflexivity|lia]].
  destruct (Pos.compare_spec mx my) as [Hm|Hm|Hm].
  - right. left. split; [reflexivity|lia].
  - left. split; [reflexivity|lia].
  - right. right. split; [reflexivity|lia].
Qed.

Lemma Prim2SF_zero : Prim2SF 0%float = S754_zero false.
Proof. reflexivity. Qed.

(** A number that is not zero equals itself, differs from zero, and is
    above zero iff its sign is the positive one. *)
Lemma signed_nonzero_tests s D :
  signed_nonzero s D ->
  SFeqb D D = true /\ SFeqb D (S754_zero false) = false /\
  SFltb (S754_zero false) D = negb s.
Proof.
  intros [(m & e & ->)| ->]; unfold SFeqb, SFltb; cbn [SFcompare].
  - rewrite Z.compare_refl.
    change (Pos.compare_cont Eq m m) with (Pos.compare m m).
    rewrite Pos.compare_refl. by destruct s.
  - by destruct s.
Qed.

(** [d || m > 0], with [d] the difference [y - x] of two numbers that are
    not negative: true when [x] is below [y], the test on [m] when they
    are equal, false otherwise. *)
Lemma difference_decides (x y : float) (B : bool) :
  signed false (Prim2SF x) -> signed false (Prim2SF y) ->
  (if truthy_number (PrimFloat.sub y x) then PrimFloat.ltb 0 (PrimFloat.sub y x) else B)
  = match SFcompare (Prim2SF x) (Prim2SF y) with
    | Some Lt => true
    | Some Eq => B
    | _ => false
    end.
Proof.
  intros Hx Hy. unfold truthy_number, PrimFloat.is_nan.
  rewrite !FloatAxioms.eqb_spec, FloatAxioms.ltb_spec, FloatAxioms.sub_spec, Prim2SF_zero.
  pose proof (SFsub_sign _ _ Hx Hy (Prim2SF_valid x) (Prim2SF_valid y)) as Hd.
  destruct (SFcompare (Prim2SF x) (Prim2SF y)) as [[]|]; [| | |done].
  - by destruct Hd as [-> | ->].
  - destruct (signed_nonzero_tests _ _ Hd) as (-> & -> & ->). done.
  - destruct (signed_nonzero_tests _ _ Hd) as (-> & -> & ->). done.
Qed.

(** The comparator of the ranking, on scores that are not negative: [a]
    ranks after [b] iff its score is the smaller one, or the scores are
    equal and its match count is the smaller one. *)
Lemma ranks_after_spec a b :
  signed false (Prim2SF (score a)) -> signed false (Prim2SF (score b)) ->
  ranks_after a b = true <->
  lex_lt (magnitude (Prim2SF (score a))) (magnitude (Prim2SF (score b))) \/
  (lex_eq (magnitude (Prim2SF (score a))) (magnitude (Prim2SF (score b))) /\
   (matchCount a < matchCount b)%nat).
Proof.
  intros Ha Hb. unfold ranks_after. cbv zeta. rewrite (difference_decides _ _ _ Ha Hb).
  destruct (SFcompare_magnitude _ _ Ha Hb) as [[-> H]|[[-> H]|[-> H]]];
    unfold lex_lt, lex_eq in *; rewrite ?Nat.ltb_lt; split; try done; lia.
Qed.

(** The order of two scores that are not negative, read off their
    magnitudes. *)
Lemma score_order (x y : float) :
  signed false (Prim2SF x) -> signed false (Prim2SF y) ->
  (lex_lt (magnitude (Prim2SF y)) (magnitude (Prim2SF x)) -> PrimFloat.ltb y x = true) /\
  (lex_eq (magnitude (Prim2SF x)) (magnitude (Prim2SF y)) -> PrimFloat.eqb x y = true).
Proof.
  intros Hx Hy. rewrite FloatAxioms.ltb_spec, FloatAxioms.eqb_spec. unfold SFltb, SFeqb.
  destruct (SFcompare_magnitude _ _ Hy Hx) as [[-> H]|[[-> H]|[-> H]]];
    destruct (SFcompare_magnitude _ _ Hx Hy) as [[-> H']|[[-> H']|[-> H']]];
    unfold lex_lt, lex_eq in *; split; intros; try done; lia.
Qed.

(** A score is zero, a positive finite number or infinity. *)
Lemma score_signed mws t :
  Z.of_nat (length (titleWords t)) < 2 ^ 32 ->
  signed false (Prim2SF (score (score_task mws t))).
Proof.
  intros Hlen. unfold score_task. cbv zeta. cbn [score].
  assert (2 ^ 32 < 2 ^ 63) as Hpow by done.
  pose proof (length_filter (fun tw => existsb (words_match tw) mws = true) (titleWords t))
    as Hmc. fold (count_matches (titleWords t) mws) in Hmc.
  destruct (0 <? length (titleWords t))%nat eqn:Hpos; [|by left].
  apply Nat.ltb_lt in Hpos. rewrite FloatAxioms.div_spec.
  destruct (Prim2SF_number (length (titleWords t))) as [[H0 _]|[_ (m & e & ->)]]; [lia|lia|].
  destruct (Prim2SF_number (count_matches (titleWords t) mws))
    as [[_ ->]|[_ (m' & e' & ->)]]; [lia| |].
  - apply SFdiv_signed; [by left|done].
  - apply SFdiv_signed; [right; left; eauto|done].
Qed.

(** On scores that are not negative the comparator of the ranking is
    consistent. *)
Lemma ranks_after_consistent l :
  Forall (fun s => signed false (Prim2SF (score s))) l -> consistent ranks_after l.
Proof.
  intros Hl. rewrite Forall_forall in Hl. split.
  - intros a b Ha Hb Hab. apply not_true_is_false. intros Hba.
    apply (ranks_after_spec a b) in Hab; [|by apply Hl..].
    apply (ranks_after_spec b a) in Hba; [|by apply Hl..].
    unfold lex_lt, lex_eq in *. lia.
  - intros a b c Ha Hb Hc Hab Hbc. apply not_true_is_false. intros Hac.
    apply not_true_iff_false in Hab, Hbc.
    rewrite (ranks_after_spec a b) in Hab by by apply Hl.
    rewrite (ranks_after_spec b c) in Hbc by by apply Hl.
    apply (ranks_after_spec a c) in Hac; [|by apply Hl..].
    unfold lex_lt, lex_eq in *. lia.
Qed.

(** Not ranking after is the order the ranking is said to produce. *)
Lemma not_after_ranked_desc a b :
  signed false (Prim2SF (score a)) -> signed false (Prim2SF (score b)) ->
  ranks_after a b = false -> ranked_desc a b.
Proof.
  intros Ha Hb Hab. apply not_true_iff_false in Hab.
  rewrite (ranks_after_spec a b Ha Hb) in Hab.
  destruct (score_order (score a) (score b) Ha Hb) as [Hlt Heq].
  unfold ranked_desc.
  destruct (SFcompare_magnitude _ _ Ha Hb) as [[_ H]|[[_ H]|[_ H]]].
  - exfalso. apply Hab. by left.
  - right. split; [by apply Heq|]. unfold lex_lt, lex_eq in *. lia.
  - left. by apply Hlt.
Qed.

Lemma survivors_signed lower allTasks :
  array_sized allTasks ->
  Forall (fun s => signed false (Prim2SF (score s))) (survivors lower allTasks).
Proof.
  intros Hsz. apply Forall_forall. intros s Hs.
  unfold survivors in Hs. apply list_elem_of_filter in Hs as [_ Hs].
  apply list_elem_of_fmap in Hs as (t & -> & Ht).
  apply score_signed. unfold array_sized in Hsz. rewrite Forall_forall in Hsz.
  by apply Hsz.
Qed.

End Binary64.

(** ** The create intent *)

Section CreateIntent.
Import Chatbot.

(** C9. The message "Create task: Fix login bug" yields, on the empty board
    (and on any other), for any clock, the confirmation reply and exactly
    the action Create with column To Do, title "Fix login bug", priority
    medium, no due date, no tags and an empty description. *)
Theorem create_fix_login_bug :
  forall clk,
    processMessage clk "Create task: Fix login bug" (board_tasks Board.emptyBoard)
      = Replied
          {| text := fix_login_bug_reply;
             action := Some (Create todo "Fix login bug" EmptyString medium None []) |}
    /\ forall allTasks,
         processMessage clk "Create task: Fix login bug" allTasks
         = processMessage clk "Create task: Fix login bug" (board_tasks Board.emptyBoard).
Proof.
  intros clk. split.
  - vm_compute. reflexivity.
  - intros allTasks. vm_compute. reflexivity.
Qed.

End CreateIntent.

(** ** The sort of the host language *)

Section Sort.
Context {A : Type}.
Implicit Types (after : A -> A -> bool) (l : list A).

Lemma insert_sorted_perm after x l : Chatbot.insert_sorted after x l ≡ₚ (x :: l).
Proof.
  induction l as [|y l IH]; simpl; [done|].
  destruct (after x y); [|done].
  rewrite IH. apply Permutation_swap.
Qed.

Lemma sort_perm after l : Chatbot.sort after l ≡ₚ l.
Proof.
  induction l as [|x l IH]; simpl; [done|].
  rewrite insert_sorted_perm. by rewrite IH.
Qed.

Lemma elem_of_insert_sorted after x l y :
  y ∈ Chatbot.insert_sorted after x l <-> y = x \/ y ∈ l.
Proof.
  rewrite (elem_of_Permutation_proper y _ _ (insert_sorted_perm after x l)).
  apply elem_of_cons.
Qed.

(** Under a consistent comparator no element of the sorted list comes
    after a later one. *)
Lemma insert_sorted_ordered after x l (u : list A) :
  consistent after u -> x ∈ u -> (forall y, y ∈ l -> y ∈ u) ->
  StronglySorted (fun a b => after a b = false) l ->
  StronglySorted (fun a b => after a b = false) (Chatbot.insert_sorted after x l).
Proof.
  intros [Hasym Htrans] Hx Hl Hs.
  induction Hs as [|y l Hs IH Hy]; simpl.
  - repeat constructor.
  - assert (y ∈ u) as Hyu by (apply Hl; apply elem_of_cons; by left).
    assert (forall z, z ∈ l -> z ∈ u) as Hl'
      by (intros z Hz; apply Hl; apply elem_of_cons; by right).
    rewrite Forall_forall in Hy.
    destruct (after x y) eqn:Hxy.
    + constructor; [by apply IH|].
      apply Forall_forall. intros z [->|Hz]%elem_of_insert_sorted.
      * by apply Hasym.
      * by apply Hy.
    + constructor; [by constructor; [|apply Forall_forall]|].
      constructor; [done|].
      apply Forall_forall. intros z Hz.
      apply (Htrans x y z); auto.
Qed.

Lemma sort_ordered after l :
  consistent after l ->
  StronglySorted (fun a b => after a b = false) (Chatbot.sort after l).
Proof.
  intros Hc.
  assert (forall k, (forall y, y ∈ k -> y ∈ l) ->
            StronglySorted (fun a b => after a b = false) (Chatbot.sort after k)) as H.
  { induction k as [|x k IH]; intros Hk; simpl; [constructor|].
    apply (insert_sorted_ordered after x _ l Hc).
    - apply Hk, elem_of_cons. by left.
    - intros y Hy. apply Hk, elem_of_cons. right.
      by rewrite (elem_of_Permutation_proper y _ _ (sort_perm after k)) in Hy.
    - apply IH. intros y Hy. apply Hk, elem_of_cons. by right. }
  by apply H.
Qed.

(** A comparator that orders by a key, largest first, sorts by that key. *)
Context (key : A -> nat).


Lemma insert_sorted_desc x l :
  StronglySorted (by_key_desc key) l ->
  StronglySorted (by_key_desc key) (Chatbot.insert_sorted (key_after key) x l).
Proof.
  induction 1 as [|y l Hs IH Hy]; simpl.
  - repeat constructor.
  - unfold key_after at 1. destruct (Nat.ltb_spec (key x) (key y)).
    + constructor; [done|].
      rewrite Forall_forall in *. intros z Hz.
      apply (elem_of_Permutation_proper z _ _ (insert_sorted_perm _ x l)) in Hz.
      apply elem_of_cons in Hz as [->|Hz]; [unfold by_key_desc; lia|by apply Hy].
    + constructor; [by constructor|].
      constructor; [done|].
      rewrite Forall_forall in *. intros z Hz.
      specialize (Hy z Hz). unfold by_key_desc in *. lia.
Qed.

Lemma sort_desc l : StronglySorted (by_key_desc key) (Chatbot.sort (key_after key) l).
Proof.
  induction l as [|x l IH]; simpl; [constructor|].
  by apply insert_sorted_desc.
Qed.

(** The first element of a sorted list that passes a test has the largest
    key among those that pass. *)
Lemma find_sorted_largest (p : A -> bool) l t0 :
  StronglySorted (by_key_desc key) l -> find p l = Some t0 ->
  forall t, t ∈ l -> p t = true -> (key t <= key t0)%nat.
Proof.
  induction 1 as [|y l Hs IH Hy]; simpl; [done|].
  destruct (p y) eqn:Hpy.
  - intros [= <-] t Ht _. apply elem_of_cons in Ht as [->|Ht]; [done|].
    rewrite Forall_forall in Hy. by apply Hy.
  - intros Hf t Ht Hpt. apply elem_of_cons in Ht as [->|Ht]; [congruence|].
    by apply IH.
Qed.

Lemma find_is_Some (p : A -> bool) l t :
  t ∈ l -> p t = true -> is_Some (find p l).
Proof.
  intros Ht Hp. destruct (find p l) eqn:Hf; [eauto|].
  apply list_elem_of_In in Ht.
  pose proof (find_none _ _ Hf _ Ht). congruence.
Qed.

End Sort.

(** ** The task matcher *)

Section TaskMatcher.
Import Chatbot.

Lemma sortedByLength_key allTasks :
  sortedByLength allTasks
  = Chatbot.sort (key_after (fun t => String.length (title t))) allTasks.
Proof. reflexivity. Qed.

(** C6. When the quoted-name rule leaves the decision open and some title
    of at least three characters is contained in the message (both in lower
    case), the matcher resolves to a task with such a title, and no task
    with such a title has a longer one. With the tasks "Fix login bug" and
    "Fix login", in either order, the text "fix login bug" resolves to
    "Fix login bug". *)
Theorem longest_contained_title_wins :
  (forall message allTasks,
     quoted_rule message allTasks = None ->
     (exists t, t ∈ allTasks /\ contained_in (Str.toLowerCase message) t = true) ->
     exists t0,
       findTaskInMessage message allTasks = resolved t0 /\
       t0 ∈ allTasks /\
       contained_in (Str.toLowerCase message) t0 = true /\
       forall t, t ∈ allTasks -> contained_in (Str.toLowerCase message) t = true ->
         (String.length (title t) <= String.length (title t0))%nat) /\
  findTaskInMessage "fix login bug" [fix_login_bug; fix_login] = resolved fix_login_bug /\
  findTaskInMessage "fix login bug" [fix_login; fix_login_bug] = resolved fix_login_bug.
Proof.
  split; [|split; vm_compute; reflexivity].
  intros message allTasks Hq (t & Ht & Hp).
  set (lower := Str.toLowerCase message) in *.
  assert (t ∈ sortedByLength allTasks) as Ht'.
  { unfold sortedByLength. by rewrite sort_perm. }
  destruct (find_is_Some _ _ _ Ht' Hp) as [t0 Hf].
  exists t0. split; [|split; [|split]].
  - unfold findTaskInMessage. destruct allTasks as [|a l]; [by apply elem_of_nil in Ht|].
    rewrite Hq. fold lower. unfold substring_rule. by rewrite Hf.
  - apply find_some in Hf as [Hin _]. apply list_elem_of_In in Hin.
    unfold sortedByLength in Hin. by rewrite sort_perm in Hin.
  - by apply find_some in Hf as [_ ?].
  - intros u Hu Hpu.
    apply (find_sorted_largest (fun t => String.length (title t))
             (contained_in lower) (sortedByLength allTasks) t0).
    + rewrite sortedByLength_key. apply sort_desc.
    + exact Hf.
    + unfold sortedByLength. by rewrite sort_perm.
    + exact Hpu.
Qed.

Lemma slice_prefix {A} (l : list A) (n : nat) :
  Js.slice l 0 (Z.of_nat n) = take n l.
Proof.
  unfold Js.slice. cbv zeta.
  rewrite !relative_index_nonneg by lia.
  rewrite Nat.min_0_l, drop_0, Nat.sub_0_r, Nat2Z.id.
  destruct (Nat.le_ge_cases n (length l)).
  - by rewrite Nat.min_l.
  - rewrite Nat.min_r by done. by rewrite !take_ge by lia.
Qed.

Lemma scored_perm lower allTasks : scored lower allTasks ≡ₚ survivors lower allTasks.
Proof. apply sort_perm. Qed.

(** When the comparator of the ranking is consistent on the survivors, no
    task of the ranked list ranks after a later one: the list descends by
    score and, among equal scores, by match count. *)
Lemma scored_ordered lower allTasks :
  consistent ranks_after (survivors lower allTasks) ->
  StronglySorted (fun a b => ranks_after a b = false) (scored lower allTasks).
Proof. apply sort_ordered. Qed.

Lemma StronglySorted_weaken {A} (R R' : A -> A -> Prop) (P : A -> Prop) l :
  Forall P l -> (forall a b, P a -> P b -> R a b -> R' a b) ->
  StronglySorted R l -> StronglySorted R' l.
Proof.
  intros HP Himp Hs. induction Hs as [|a l Hs IH Hall]; [constructor|].
  apply Forall_cons in HP as [Pa Pl]. constructor; [by apply IH|].
  rewrite Forall_forall in Hall, Pl. apply Forall_forall. intros b Hb.
  apply Himp; [done|by apply Pl|by apply Hall].
Qed.

(** The ranked list descends by score and, among equal scores, by match
    count. *)
Lemma scored_descends lower allTasks :
  array_sized allTasks -> StronglySorted ranked_desc (scored lower allTasks).
Proof.
  intros Hsz. pose proof (survivors_signed lower _ Hsz) as Hs.
  apply (StronglySorted_weaken (fun a b => ranks_after a b = false) _
           (fun s => signed false (Prim2SF (score s)))).
  - by rewrite scored_perm.
  - intros a b Ha Hb. by apply not_after_ranked_desc.
  - by apply scored_ordered, ranks_after_consistent.
Qed.



Lemma longest_contained_title_wins_witness :
  exists t0,
    findTaskInMessage "please fix login bug today" [fix_login; fix_login_bug]
      = resolved t0 /\
    (String.length (title fix_login) <= String.length (title t0))%nat.
Proof.
  destruct (proj1 longest_contained_title_wins "please fix login bug today"
              [fix_login; fix_login_bug]) as (t0 & Hres & _ & _ & Hmax).
  - vm_compute. reflexivity.
  - exists fix_login. split; [apply elem_of_cons; by left|vm_compute; reflexivity].
  - exists t0. split; [exact Hres|]. apply Hmax.
    + apply elem_of_cons. by left.
    + vm_compute. reflexivity.
Defined.

End TaskMatcher.

(** ** The calendar *)

Section Calendar.
Import Dates.

Lemma civil_roundtrip z :
  let '(y, m, d) := civil_from_days z in
  days_from_civil y m d = z /\ 1 <= m <= 12 /\ 1 <= d <= 31.
Proof.
  unfold civil_from_days, days_from_civil. cbv zeta.
  set (z1 := z + 719468).
  set (era := z1 / 146097).
  set (doe := z1 - era * 146097).
  set (yoe := (doe - doe / 1460 + doe / 36524 - doe / 146096) / 365).
  set (doy := doe - (365 * yoe + yoe / 4 - yoe / 100)).
  set (mp := (5 * doy + 2) / 153).
  assert (0 <= doe < 146097) by (subst doe era; Z.div_mod_to_equations; lia).
  assert (0 <= yoe <= 399) by (subst yoe; Z.div_mod_to_equations; lia).
  assert (0 <= doy <= 365) by (subst doy yoe; Z.div_mod_to_equations; lia).
  assert (0 <= mp <= 11) by (subst mp; Z.div_mod_to_equations; lia).
  destruct (Z.ltb_spec mp 10).
  - destruct (Z.leb_spec (mp + 3) 2); [lia|].
    destruct (Z.ltb_spec 2 (mp + 3)); [|lia].
    split; [|subst mp; split; Z.div_mod_to_equations; lia].
    subst mp doy yoe doe era z1. Z.div_mod_to_equations. lia.
  - destruct (Z.leb_spec (mp - 9) 2); [|lia].
    destruct (Z.ltb_spec 2 (mp - 9)); [lia|].
    split; [|subst mp; split; Z.div_mod_to_equations; lia].
    subst mp doy yoe doe era z1. Z.div_mod_to_equations. lia.
Qed.

Lemma days_from_civil_shift y m d k :
  days_from_civil y m (d + k) = days_from_civil y m d + k.
Proof. unfold days_from_civil. cbv zeta. lia. Qed.

(** Counting on from the date of a time value moves its day by as much. *)
Lemma MakeDay_shift t k :
  MakeDay (YearFromTime t) (MonthFromTime t) (DateFromTime t + k) = Day t + k.
Proof.
  unfold MakeDay, YearFromTime, MonthFromTime, DateFromTime.
  pose proof (civil_roundtrip (Day t)) as H.
  destruct (civil_from_days (Day t)) as [[y m] d]. simpl.
  destruct H as (H & Hm & Hd).
  replace ((m - 1) / 12) with 0 by (Z.div_mod_to_equations; lia).
  replace ((m - 1) mod 12 + 1) with m by (Z.div_mod_to_equations; lia).
  rewrite Z.add_0_r.
  replace (days_from_civil y m 1 + (d + k) - 1) with (days_from_civil y m (1 + (d - 1)) + k).
  - replace (1 + (d - 1)) with d by lia. lia.
  - rewrite days_from_civil_shift. lia.
Qed.

Lemma setDate_shift clk t k :
  setDate clk t (getDate clk t + k) = t + k * msPerDay.
Proof.
  unfold setDate, getDate. cbv zeta. rewrite MakeDay_shift.
  unfold UTC, MakeDate, LocalTime, Day, TimeWithinDay, msPerDay.
  Z.div_mod_to_equations. lia.
Qed.

Lemma Day_shift t k : Day (t + k * msPerDay) = Day t + k.
Proof. unfold Day, msPerDay. Z.div_mod_to_equations. lia. Qed.

(** Midnight of the local day, as a time value. *)
Lemma setHours0_local clk :
  LocalTime clk (setHours0 clk (now clk)) = localDay clk * msPerDay.
Proof. unfold setHours0, localDay, LocalTime, UTC, MakeDate. lia. Qed.

(** The UTC day of local midnight is the local day at or west of UTC, and
    the day before it east of UTC. *)
Lemma setHours0_day_west clk :
  -1440 < offset clk <= 0 -> Day (setHours0 clk (now clk)) = localDay clk.
Proof.
  intros H. unfold setHours0, localDay, UTC, MakeDate, Day, msPerDay.
  Z.div_mod_to_equations. lia.
Qed.

Lemma setHours0_day_east clk :
  0 < offset clk <= 1440 -> Day (setHours0 clk (now clk)) = localDay clk - 1.
Proof.
  intros H. unfold setHours0, localDay, UTC, MakeDate, Day, msPerDay.
  Z.div_mod_to_equations. lia.
Qed.

Lemma getDay_setHours0 clk :
  getDay clk (setHours0 clk (now clk)) = (localDay clk + 4) mod 7.
Proof.
  unfold getDay, WeekDay. rewrite setHours0_local.
  unfold Day, msPerDay. f_equal. f_equal. Z.div_mod_to_equations. lia.
Qed.

Lemma length_append (a b : string) :
  String.length (a +:+ b) = (String.length a + String.length b)%nat.
Proof. induction a as [|c a IH]; simpl; [done|]. by rewrite IH. Qed.

Lemma length_pad w n : String.length (pad w n) = w.
Proof.
  revert n. induction w as [|w IH]; intros n; simpl; [done|].
  rewrite length_append, IH. simpl. lia.
Qed.

Lemma substring_append_l n (a b : string) :
  (n <= String.length a)%nat -> substring 0 n (a +:+ b) = substring 0 n a.
Proof.
  revert n. induction a as [|c a IH]; intros n Hn; simpl in *.
  - assert (n = 0)%nat as -> by lia. by destruct b.
  - destruct n as [|n]; [done|]. simpl. rewrite IH by lia. done.
Qed.

Lemma length_date_part z : (10 <= String.length (date_part z))%nat.
Proof.
  unfold date_part. destruct (civil_from_days z) as [[y m] d].
  rewrite !length_append, !length_pad.
  destruct ((0 <=? y) && (y <=? 9999)).
  - rewrite length_pad. simpl. lia.
  - rewrite length_append, length_pad. simpl. lia.
Qed.

(** The day string of a time value depends on its UTC day only. *)
Lemma isoDay_dayString t : isoDay t = dayString (Day t).
Proof.
  unfold isoDay, dayString, toISOString.
  apply substring_append_l, length_date_part.
Qed.

End Calendar.

(** ** The date phrase resolver *)

Section DateResolver.
Import Dates Chatbot.

Lemma resolve_today clk :
  parseNaturalDate clk "today" = Some (dayString (resolver_day clk)).
Proof. unfold resolver_day. rewrite <- isoDay_dayString. reflexivity. Qed.

Lemma resolve_in_3_days clk :
  parseNaturalDate clk "in 3 days" = Some (dayString (resolver_day clk + 3)).
Proof.
  unfold resolver_day. rewrite <- Day_shift, <- isoDay_dayString, <- (setDate_shift clk).
  reflexivity.
Qed.

Lemma resolve_next_monday clk :
  exists k, 1 <= k <= 7 /\
    parseNaturalDate clk "next monday" = Some (dayString (resolver_day clk + k)) /\
    (localDay clk + k + 4) mod 7 = 1.
Proof.
  set (du := 1 - (localDay clk + 4) mod 7).
  exists (if du <=? 0 then du + 7 else du).
  assert (0 <= (localDay clk + 4) mod 7 < 7) by (apply Z.mod_pos_bound; lia).
  split; [destruct (Z.leb_spec du 0); lia|]. split.
  - unfold resolver_day.
    rewrite <- Day_shift, <- isoDay_dayString, <- (setDate_shift clk).
    subst du. rewrite <- getDay_setHours0. reflexivity.
  - subst du. destruct (Z.leb_spec (1 - (localDay clk + 4) mod 7) 0);
      Z.div_mod_to_equations; lia.
Qed.

Lemma resolve_garbage clk :
  parse clk "garbage text" = None -> parseNaturalDate clk "garbage text" = None.
Proof.
  intros H. unfold parseNaturalDate.
  change (Str.trim (Str.toLowerCase "garbage text")) with "garbage text".
  rewrite H. reflexivity.
Qed.

(** What the resolver returns, for every clock, in terms of the UTC day of
    local midnight; that day is the local calendar day at or west of UTC and
    the day before it east of UTC. *)
Theorem date_resolver_days clk :
  parseNaturalDate clk "today" = Some (dayString (resolver_day clk)) /\
  parseNaturalDate clk "in 3 days" = Some (dayString (resolver_day clk + 3)) /\
  (exists k, 1 <= k <= 7 /\
     parseNaturalDate clk "next monday" = Some (dayString (resolver_day clk + k)) /\
     (localDay clk + k + 4) mod 7 = 1) /\
  (parse clk "garbage text" = None -> parseNaturalDate clk "garbage text" = None) /\
  (-1440 < offset clk <= 0 -> resolver_day clk = localDay clk) /\
  (0 < offset clk <= 1440 -> resolver_day clk = localDay clk - 1).
Proof.
  split; [apply resolve_today|]. split; [apply resolve_in_3_days|].
  split; [apply resolve_next_monday|]. split; [apply resolve_garbage|].
  split; [apply setHours0_day_west | apply setHours0_day_east].
Qed.

(** C8, at a failing input. Two hours east of UTC, at noon of Monday
    2024-05-06, "today" resolves to 2024-05-05, "in 3 days" to 2024-05-08
    and "next monday" to 2024-05-12, a Sunday, six days after the local
    day; "garbage text" resolves to nothing. Read in UTC, the same instant
    gives 2024-05-06, 2024-05-09 and Monday 2024-05-13. *)
Theorem date_resolver_east_of_utc :
  dayString (localDay noon_east) = "2024-05-06" /\
  WeekDay (localDay noon_east * msPerDay) = 1 /\
  parseNaturalDate noon_east "today" = Some "2024-05-05" /\
  parseNaturalDate noon_east "in 3 days" = Some "2024-05-08" /\
  parseNaturalDate noon_east "next monday" = Some "2024-05-12" /\
  dayString (localDay noon_east + 6) = "2024-05-12" /\
  WeekDay ((localDay noon_east + 6) * msPerDay) = 0 /\
  parseNaturalDate noon_east "garbage text" = None /\
  parseNaturalDate ten_utc "today" = Some "2024-05-06" /\
  parseNaturalDate ten_utc "in 3 days" = Some "2024-05-09" /\
  parseNaturalDate ten_utc "next monday" = Some "2024-05-13".
Proof. repeat split; vm_compute; reflexivity. Qed.

End DateResolver.

(** * Properties of the handlers, the due dates and the view *)

(** ** The task matcher as its callers use it *)

Section MatcherContract.
Import Chatbot.

Lemma elem_of_slice {A} (l : list A) i j x : x ∈ Js.slice l i j -> x ∈ l.
Proof.
  unfold Js.slice. cbv zeta. intros H.
  by apply subseteq_take, subseteq_drop in H.
Qed.

Lemma slice_five_length {A} (l : list A) :
  length (Js.slice l 0 5) = Nat.min 5 (length l).
Proof. change 5 with (Z.of_nat 5). rewrite slice_prefix. apply length_take. Qed.

Lemma find_elem {A} (p : A -> bool) l x : find p l = Some x -> x ∈ l.
Proof. intros [H _]%find_some. by apply list_elem_of_In. Qed.

Lemma elem_of_scored lower allTasks s :
  s ∈ scored lower allTasks -> s_task s ∈ allTasks.
Proof.
  unfold scored. rewrite sort_perm.
  intros [_ H]%list_elem_of_filter.
  apply list_elem_of_fmap in H as (t & -> & Ht). exact Ht.
Qed.

Lemma resolved_ok allTasks t : t ∈ allTasks -> decision_ok allTasks (resolved t).
Proof.
  intros Ht. split; [|split]; simpl.
  - by intros ? [= <-].
  - by intros c ?%elem_of_nil.
  - by left.
Qed.

Lemma unresolved_ok allTasks cs :
  (forall c, c ∈ cs -> c ∈ allTasks) ->
  (2 <= length cs)%nat ->
  decision_ok allTasks (unresolved (Js.slice cs 0 5)).
Proof.
  intros Hsub Hlen. split; [|split]; simpl.
  - done.
  - intros c Hc%elem_of_slice. by apply Hsub.
  - right. rewrite slice_five_length. lia.
Qed.

Lemma quoted_rule_ok message allTasks f :
  quoted_rule message allTasks = Some f -> decision_ok allTasks f.
Proof.
  unfold quoted_rule. destruct (quoted_name message) as [q|]; [|done].
  destruct (find _ allTasks) as [exact|] eqn:Hfind.
  - intros [= <-]. apply resolved_ok. by eapply find_elem.
  - set (partial := filter _ allTasks).
    assert (forall c, c ∈ partial -> c ∈ allTasks) as Hsub.
    { intros c Hc. by apply list_elem_of_filter in Hc as [_ Hc]. }
    destruct partial as [|t [|t' rest]]; [done| |]; intros [= <-].
    + apply resolved_ok, Hsub. apply elem_of_cons; by left.
    + apply unresolved_ok; [exact Hsub|].
      change (length (t :: t' :: rest)) with (S (S (length rest))). lia.
Qed.

Lemma substring_rule_ok lower allTasks t :
  substring_rule lower allTasks = Some t -> t ∈ allTasks.
Proof.
  unfold substring_rule, sortedByLength. intros H%find_elem.
  by rewrite sort_perm in H.
Qed.

Lemma overlap_rule_ok lower allTasks : decision_ok allTasks (overlap_rule lower allTasks).
Proof.
  unfold overlap_rule.
  pose proof (elem_of_scored lower allTasks) as Hsub.
  destruct (scored lower allTasks) as [|s0 [|s1 rest]].
  - split; [|split]; simpl; [done| |by left]. by intros c ?%elem_of_nil.
  - apply resolved_ok, Hsub. apply elem_of_cons; by left.
  - destruct (clear_winner s0 s1).
    + apply resolved_ok, Hsub. apply elem_of_cons. by left.
    + split; [|split]; simpl.
      * done.
      * intros c Hc. apply list_elem_of_fmap in Hc as (s & -> & Hs).
        apply Hsub. by eapply elem_of_slice.
      * right. rewrite length_map, slice_five_length.
        change (length (s0 :: s1 :: rest)) with (S (S (length rest))). lia.
Qed.

Lemma findTaskInMessage_ok message allTasks :
  decision_ok allTasks (findTaskInMessage message allTasks).
Proof.
  unfold findTaskInMessage. destruct allTasks as [|t0 rest].
  - split; [|split]; simpl; [done| |by left]. by intros c ?%elem_of_nil.
  - destruct (quoted_rule message (t0 :: rest)) as [f|] eqn:Hq.
    + by eapply quoted_rule_ok.
    + destruct (substring_rule _ (t0 :: rest)) as [t|] eqn:Hs.
      * apply resolved_ok. by eapply substring_rule_ok.
      * apply overlap_rule_ok.
Qed.

(** Whatever the message, [findTaskInMessage] resolves only to a task
    of the collection it was given, and then offers no candidates; its
    candidates are tasks of the collection; and it offers either none or
    between two and five. On an empty collection it resolves nothing and
    offers nothing. *)
Theorem matcher_contract message allTasks :
  let f := findTaskInMessage message allTasks in
  (forall t, task f = Some t -> t ∈ allTasks /\ candidates f = []) /\
  (forall c, c ∈ candidates f -> c ∈ allTasks) /\
  (candidates f = [] \/ (2 <= length (candidates f) <= 5)%nat) /\
  (allTasks = [] -> task f = None /\ candidates f = []).
Proof.
  intros f. destruct (findTaskInMessage_ok message allTasks) as (H1 & H2 & H3).
  split; [exact H1|]. split; [exact H2|]. split; [exact H3|].
  intros ->. done.
Qed.

End MatcherContract.

(** ** The actions the chat parser emits *)

Section ChatActions.
Import Chatbot ChatbotActions.

Lemma nonempty_spec s : nonempty s = true -> s <> EmptyString.
Proof.
  unfold nonempty. intros H ->. by rewrite String.eqb_refl in H.
Qed.

Lemma reply_fits allTasks t : outcome_fits allTasks (reply t).
Proof. exact I. Qed.

Lemma found_task_fits message allTasks t :
  task (findTaskInMessage message allTasks) = Some t ->
  exists t', t' ∈ allTasks /\ id t' = id t.
Proof.
  intros H. exists t. split; [|done].
  by apply (findTaskInMessage_ok message allTasks) in H as [H _].
Qed.

Lemma add_tags_fits normalized allTasks : outcome_fits allTasks (add_tags normalized allTasks).
Proof.
  unfold add_tags. split_outcome.
  unfold reply_with, outcome_fits, action_fits. cbn [action].
  split; [by eapply found_task_fits|]. done.
Qed.

Lemma remove_tags_fits normalized allTasks :
  outcome_fits allTasks (remove_tags normalized allTasks).
Proof.
  unfold remove_tags. split_outcome.
  unfold reply_with, outcome_fits, action_fits. cbn [action].
  split; [by eapply found_task_fits|]. done.
Qed.

Lemma create_task_fits clk normalized lower allTasks :
  outcome_fits allTasks (create_task clk normalized lower).
Proof.
  unfold create_task. cbv zeta.
  destruct (negb (nonempty (extract_title normalized))); [apply reply_fits|].
  match goal with
  | |- outcome_fits _ (if negb (nonempty ?t) then _ else _) =>
      destruct (nonempty t) eqn:Hne
  end; [|apply reply_fits].
  unfold reply_with, outcome_fits, action_fits. cbn [action negb].
  by apply nonempty_spec.
Qed.

Lemma move_task_fits normalized lower allTasks :
  outcome_fits allTasks (move_task normalized lower allTasks).
Proof.
  unfold move_task. split_outcome.
  unfold reply_with, outcome_fits, action_fits. cbn [action].
  match goal with H : task _ = Some ?t |- _ =>
    exists t; split; [by apply (findTaskInMessage_ok normalized allTasks) in H as [H _]|]
  end.
  split; [done|]. split; [done|]. congruence.
Qed.

Lemma edit_field_fits clk field normalized lower allTasks t :
  t ∈ allTasks ->
  outcome_fits allTasks (edit_field clk field normalized lower t).
Proof.
  intros Ht. unfold edit_field. destruct field; split_outcome;
    unfold reply_with, outcome_fits, action_fits; cbn [action];
    (split; [by exists t|]);
    (split; [done|]); (split; [done|]); (split; [done|]);
    cbn [u_title set_priority set_title set_dueDate set_description]; try done.
  intros [= Hempty].
  match goal with H : nonempty _ = true |- _ => by apply nonempty_spec in H end.
Qed.

Lemma edit_task_fits clk normalized lower allTasks :
  outcome_fits allTasks (edit_task clk normalized lower allTasks).
Proof.
  unfold edit_task. cbv zeta.
  destruct (detect_field lower) as [field|]; [|split_outcome].
  destruct (task (findTaskInMessage normalized allTasks)) as [t|] eqn:Ht;
    [|split_outcome].
  apply edit_field_fits.
  by apply (findTaskInMessage_ok normalized allTasks) in Ht as [Ht _].
Qed.

Lemma delete_task_fits normalized lower allTasks :
  outcome_fits allTasks (delete_task normalized lower allTasks).
Proof.
  unfold delete_task. split_outcome.
  unfold reply_with, outcome_fits, action_fits. cbn [action].
  by eapply found_task_fits.
Qed.

Lemma processCommand_fits clk message allTasks :
  outcome_fits allTasks (processCommand clk message allTasks).
Proof.
  unfold processCommand.
  destruct (processMessage clk message allTasks) as [r|] eqn:Hp.
  - revert Hp. unfold processMessage. cbv zeta.
    destruct (_ || _).
    { intros <-. apply add_tags_fits. }
    destruct (_ || _).
    { intros <-. apply remove_tags_fits. }
    destruct (_ && _); [|done].
    intros <-. apply create_task_fits.
  - unfold later_intents. cbv zeta.
    destruct (Regex.test move_verb_re _); [apply move_task_fits|].
    destruct (Regex.test edit_verb_re _); [apply edit_task_fits|].
    destruct (Regex.test delete_verb_re _); [apply delete_task_fits|].
    exact I.
Qed.

(** Whatever the message, an action the parser emits fits the tasks it
    was given: an update, a deletion or a move names the id of one of these
    tasks; a move names the column that task is in as its source and a
    different column as its destination. *)
Theorem chat_action_targets clk message allTasks r a :
  processCommand clk message allTasks = Replied r ->
  action r = Some a ->
  match a with
  | Create _ _ _ _ _ _ => True
  | Update taskId _ | Delete taskId => exists t, t ∈ allTasks /\ id t = taskId
  | Move taskId sourceCol destCol =>
      exists t, t ∈ allTasks /\ id t = taskId /\ sourceCol = columnId t /\
                destCol <> columnId t
  end.
Proof.
  intros Hp Ha.
  pose proof (processCommand_fits clk message allTasks) as Hfit.
  rewrite Hp in Hfit. unfold outcome_fits in Hfit. rewrite Ha in Hfit.
  destruct a as [| taskId u | taskId | taskId src dst]; simpl in Hfit.
  - done.
  - by destruct Hfit as [Ht _].
  - exact Hfit.
  - destruct Hfit as (t & Ht & Hid & -> & Hne). by exists t.
Qed.

Lemma chat_action_targets_witness :
  exists t, t ∈ [fix_login; review_docs] /\ id t = "r1" /\ todo = columnId t /\
            done <> columnId t.
Proof.
  eapply (chat_action_targets ten_utc "Please complete Review PR docs"
            [fix_login; review_docs] _ (Move "r1" todo done)).
  - vm_compute. reflexivity.
  - reflexivity.
Defined.

(** An update the parser emits sets exactly one field, never the column
    or the completion time, and never an empty title; a task it creates has
    a non-empty title. *)
Theorem chat_update_one_field clk message allTasks r :
  processCommand clk message allTasks = Replied r ->
  match action r with
  | Some (Update _ u) =>
      fields_set u = 1%nat /\ u_columnId u = None /\ u_completedAt u = None /\
      u_title u <> Some EmptyString
  | Some (Create _ ttl _ _ _ _) => ttl <> EmptyString
  | _ => True
  end.
Proof.
  intros Hp.
  pose proof (processCommand_fits clk message allTasks) as Hfit.
  rewrite Hp in Hfit. unfold outcome_fits in Hfit.
  destruct (action r) as [[| taskId u | |]|]; simpl in Hfit; try done.
  by destruct Hfit as [_ Hu].
Qed.

Lemma chat_update_one_field_witness :
  fields_set (set_dueDate (Some "2024-05-07")) = 1%nat /\
  u_columnId (set_dueDate (Some "2024-05-07")) = None /\
  u_completedAt (set_dueDate (Some "2024-05-07")) = None /\
  u_title (set_dueDate (Some "2024-05-07")) <> Some EmptyString.
Proof.
  eapply (chat_update_one_field ten_utc "set the due date of fix login to tomorrow"
            [fix_login; review_docs]
            {| text := _; action := Some (Update "t2" (set_dueDate (Some "2024-05-07"))) |}).
  vm_compute. reflexivity.
Defined.

(** On a board without tasks the parser emits no action but the
    creation of a task. *)
Theorem chat_empty_board_only_creates clk message r a :
  processCommand clk message [] = Replied r ->
  action r = Some a ->
  exists col ttl descr pri due tgs, a = Create col ttl descr pri due tgs.
Proof.
  intros Hp Ha.
  pose proof (processCommand_fits clk message []) as Hfit.
  rewrite Hp in Hfit. unfold outcome_fits in Hfit. rewrite Ha in Hfit.
  destruct a as [col ttl descr pri due tgs| taskId u | taskId | taskId src dst];
    simpl in Hfit.
  - by exists col, ttl, descr, pri, due, tgs.
  - destruct Hfit as [(t & Ht%elem_of_nil & _) _]. done.
  - destruct Hfit as (t & Ht%elem_of_nil & _). done.
  - destruct Hfit as (t & Ht%elem_of_nil & _). done.
Qed.

Lemma chat_empty_board_only_creates_witness :
  exists col ttl descr pri due tgs,
    Create todo "Fix login bug" EmptyString medium None [] =
    Create col ttl descr pri due tgs.
Proof.
  eapply (chat_empty_board_only_creates ten_utc "Create task: Fix login bug").
  - vm_compute. reflexivity.
  - reflexivity.
Defined.

End ChatActions.

(** ** All boards of the store *)

Section WholeStore.
Import Board.

Lemma emptyBoard_inv : board_inv emptyBoard.
Proof.
  split.
  - by intros [].
  - intros tid o Ho. simpl in Ho. by rewrite lookup_empty in Ho.
  - intros []; constructor.
  - intros [] tid Hin; by apply elem_of_nil in Hin.
  - intros tid t Ht. simpl in Ht. by rewrite lookup_empty in Ht.
Qed.

Lemma foldl_insert_keyed (ts : list Task) (m : gmap string TaskObj) :
  (forall tid t, m !! tid = Some (Full t) -> id t = tid) ->
  forall tid t,
    foldl (fun m t => <[id t := Full t]> m) m ts !! tid = Some (Full t) -> id t = tid.
Proof.
  revert m. induction ts as [|t0 ts IH]; intros m Hm; [exact Hm|].
  simpl. apply IH. intros tid t. rewrite lookup_insert.
  destruct (decide (id t0 = tid)) as [<-|]; [by intros [= <-]|apply Hm].
Qed.

Lemma board_of_tasks_keyed ts : keyed_by_id (board_of_tasks ts).
Proof.
  unfold keyed_by_id, board_of_tasks. simpl tasks.
  apply foldl_insert_keyed. intros tid t Ht. by rewrite lookup_empty in Ht.
Qed.

Lemma spread_keyed b taskId u tid t :
  keyed_by_id b ->
  <[taskId := spread (tasks b !! taskId) u]> (tasks b) !! tid = Some (Full t) ->
  id t = tid.
Proof.
  intros Hk. rewrite lookup_insert.
  destruct (decide (taskId = tid)) as [<-|]; [|apply Hk].
  destruct (tasks b !! taskId) as [[t0|p]|] eqn:Ht0; simpl; try done.
  intros [= <-]. simpl. by apply Hk.
Qed.

Lemma mutate_keyed m s s' :
  mutate m s = Some s' -> keyed_by_id (board s) -> keyed_by_id (board s').
Proof.
  intros Hm Hk.
  destruct m; simpl in Hm;
    unfold addTask, updateTask, deleteTask, moveTask, resetBoard, clearBoard in Hm;
    apply with_board_inv in Hm as (_ & _ & Hm).
  - injection Hm as <-. intros tid t. simpl. rewrite lookup_insert.
    destruct (decide (newId = tid)) as [<-|]; [by intros [= <-]|apply Hk].
  - injection Hm as <-. intros tid t. simpl. by apply spread_keyed.
  - unfold deleteTask_board in Hm.
    destruct (tasks (board s) !! taskId) as [o|]; [|by injection Hm as <-].
    destruct (obj_columnId o); [|done]. injection Hm as <-.
    intros tid t. simpl. rewrite lookup_delete.
    destruct (decide (taskId = tid)); [done|apply Hk].
  - unfold moveTask_board in Hm.
    destruct (move_rule destCol (tasks (board s) !! taskId)); [|done].
    injection Hm as <-. intros tid t. simpl. by apply spread_keyed.
  - injection Hm as <-. apply board_of_tasks_keyed.
  - injection Hm as <-. intros tid t Ht. simpl in Ht. by rewrite lookup_empty in Ht.
Qed.

Lemma targeted_call_mutate s s' : targeted_call s s' -> exists m, mutate m s = Some s'.
Proof.
  intros [newId now col ttl descr pri due tgs s1 _ Hop
         |taskId t u s1 _ _ Hop
         |taskId s1 Hop
         |now taskId t dst i s1 _ Hop].
  - by exists (MAdd newId now col ttl descr pri due tgs).
  - by exists (MUpdate taskId u).
  - by exists (MDelete taskId).
  - by exists (MMove now taskId (columnId t) dst i).
Qed.

Lemma Forall_slice_from {A} (P : A -> Prop) l i :
  Forall P l -> Forall P (Js.slice_from l i).
Proof. apply Forall_drop. Qed.

Lemma Forall_slice {A} (P : A -> Prop) l i j :
  Forall P l -> Forall P (Js.slice l i j).
Proof. intros H. unfold Js.slice. cbv zeta. by apply Forall_take, Forall_drop. Qed.

Lemma Forall_last {A} (P : A -> Prop) l x : Forall P l -> last l = Some x -> P x.
Proof.
  intros H Hl. rewrite Forall_forall in H. apply H.
  rewrite last_lookup in Hl. by eapply list_elem_of_lookup_2.
Qed.

(** Pushing, undoing and redoing move boards between the three places of
    the store and drop some; they add none but the new board. *)
Lemma mutate_boards (P : BoardState -> Prop) m s s' :
  mutate m s = Some s' -> Forall P (boards s) -> P (board s') -> Forall P (boards s').
Proof.
  intros [Hh Hf]%mutate_inv Hall Hnew. unfold boards in *.
  apply Forall_cons in Hall as [Hb Hall]. apply Forall_app in Hall as [Hhist _].
  rewrite Hh, Hf, app_nil_r. apply Forall_cons. split; [exact Hnew|].
  apply Forall_app. split; [by apply Forall_slice_from|]. by apply Forall_singleton.
Qed.

Lemma undo_boards (P : BoardState -> Prop) s : Forall P (boards s) -> Forall P (boards (undo s)).
Proof.
  intros Hall. unfold undo. destruct (last (history s)) as [prev|] eqn:Hl; [|done].
  unfold boards in *. simpl.
  apply Forall_cons in Hall as [Hb Hall]. apply Forall_app in Hall as [Hhist Hfut].
  apply Forall_cons. split; [exact (Forall_last _ _ _ Hhist Hl)|].
  apply Forall_app. split; [by apply Forall_slice|].
  apply Forall_app. split; [done|]. by apply Forall_singleton.
Qed.

Lemma redo_boards (P : BoardState -> Prop) s : Forall P (boards s) -> Forall P (boards (redo s)).
Proof.
  intros Hall. unfold redo. destruct (last (future s)) as [next|] eqn:Hl; [|done].
  unfold boards in *. simpl.
  apply Forall_cons in Hall as [Hb Hall]. apply Forall_app in Hall as [Hhist Hfut].
  apply Forall_cons. split; [exact (Forall_last _ _ _ Hfut Hl)|].
  apply Forall_app. split; [|by apply Forall_slice].
  apply Forall_app. split; [done|]. by apply Forall_singleton.
Qed.

Lemma targeted_step_boards s s' :
  targeted_step s s' ->
  Forall (fun b => board_inv b /\ keyed_by_id b) (boards s) ->
  Forall (fun b => board_inv b /\ keyed_by_id b) (boards s').
Proof.
  intros Hstep Hall.
  assert (board_inv (board s) /\ keyed_by_id (board s)) as [Hb Hk].
  { unfold boards in Hall. by apply Forall_cons in Hall as [? _]. }
  destruct Hstep as [s' Hcall| | |s' Hclear|uuid iso s' Hnd Hreset].
  - destruct (targeted_call_mutate _ _ Hcall) as [m Hm].
    apply (mutate_boards _ m s); [done|done|].
    split; [by eapply targeted_call_inv|by eapply mutate_keyed].
  - by apply undo_boards.
  - by apply redo_boards.
  - apply (mutate_boards _ MClear s); [done|done|].
    unfold clearBoard in Hclear. apply with_board_inv in Hclear as (_ & _ & [= <-]).
    split; [apply emptyBoard_inv|].
    intros tid t Ht. simpl in Ht. by rewrite lookup_empty in Ht.
  - apply (mutate_boards _ (MReset uuid iso) s); [done|done|].
    unfold resetBoard in Hreset. apply with_board_inv in Hreset as (_ & _ & [= <-]).
    split; [by apply createDefaultBoard_inv|apply board_of_tasks_keyed].
Qed.

Lemma targeted_steps_boards s0 s :
  rtc targeted_step s0 s ->
  Forall (fun b => board_inv b /\ keyed_by_id b) (boards s0) ->
  Forall (fun b => board_inv b /\ keyed_by_id b) (boards s).
Proof. induction 1; eauto using targeted_step_boards. Qed.

(** From the seed board, under any sequence of well-targeted steps
    (well-targeted calls, undo, redo, clearing, resetting to a seed board
    with six distinct ids), every board the store holds, the current one
    and those on the undo and redo stacks, keeps the invariant of the data
    model and stores each task under its own id. So undo and redo never
    bring back a board that breaks the invariant, as long as every update
    and move names a task that is stored, in the column it names, when the
    call runs. *)
Theorem every_board_of_the_store uuid iso s :
  NoDup (map uuid (seq 0 6)) ->
  rtc targeted_step (initStore (createDefaultBoard uuid iso)) s ->
  forall b, b ∈ boards s -> board_inv b /\ keyed_by_id b.
Proof.
  intros Hnd Hreach.
  apply targeted_steps_boards in Hreach.
  - by rewrite Forall_forall in Hreach.
  - unfold boards. simpl. apply Forall_singleton.
    split; [by apply createDefaultBoard_inv|apply board_of_tasks_keyed].
Qed.

Lemma every_board_of_the_store_witness :
  board_inv (createDefaultBoard demo_uuid demo_iso) /\
  keyed_by_id (createDefaultBoard demo_uuid demo_iso).
Proof.
  apply (every_board_of_the_store demo_uuid demo_iso
           (undo (redo (undo (default demo_store (clearBoard demo_store)))))).
  - apply (bool_decide_unpack _). vm_compute. exact I.
  - eapply rtc_l; [apply step_clear; reflexivity|].
    eapply rtc_l; [apply step_undo|].
    eapply rtc_l; [apply step_redo|].
    eapply rtc_l; [apply step_undo|]. apply rtc_refl.
  - apply elem_of_cons. left. reflexivity.
Defined.

End WholeStore.

(** ** Round trips of the store *)

Section RoundTrips.
Import Board.

Lemma history_snoc s : canUndo s = true -> exists h prev, history s = h ++ [prev].
Proof.
  intros H%canUndo_spec.
  destruct (history s) as [|b h] using rev_ind; [done|]. eauto.
Qed.

Lemma future_snoc s : canRedo s = true -> exists f next, future s = f ++ [next].
Proof.
  intros H%canRedo_spec.
  destruct (future s) as [|b f] using rev_ind; [done|]. eauto.
Qed.

(** Undo and redo are inverse to each other on every store: a redo
    after an undo that had a board to restore gives back the store as it
    was, stacks included, and so does an undo after a redo. With nothing
    to undo (or redo) the store stays as it is. *)
Theorem undo_redo_inverse s :
  (canUndo s = true -> redo (undo s) = s) /\
  (canRedo s = true -> undo (redo s) = s) /\
  (canUndo s = false -> undo s = s) /\
  (canRedo s = false -> redo s = s).
Proof.
  destruct s as [b h f]. split; [|split; [|split]].
  - intros (h' & prev & Hh)%history_snoc. simpl in Hh. subst h.
    unfold undo. simpl. rewrite last_snoc, slice_drop_last_snoc.
    unfold redo. simpl. by rewrite last_snoc, slice_drop_last_snoc.
  - intros (f' & next & Hf)%future_snoc. simpl in Hf. subst f.
    unfold redo. simpl. rewrite last_snoc, slice_drop_last_snoc.
    unfold undo. simpl. by rewrite last_snoc, slice_drop_last_snoc.
  - unfold canUndo, undo. simpl. by destruct h.
  - unfold canRedo, redo. simpl. by destruct f.
Qed.

Lemma undo_redo_inverse_witness :
  undo (redo redoable_store) = redoable_store /\
  undo redoable_store = redoable_store.
Proof.
  destruct (undo_redo_inverse redoable_store) as (_ & Hredo & Hnone & _).
  split; [apply Hredo; reflexivity|apply Hnone; reflexivity].
Defined.

Lemma filter_remove_appended (l : list string) x :
  x ∉ l -> filter (fun i => i ≠ x) (l ++ [x]) = l.
Proof.
  intros Hx. rewrite filter_app, filter_cons_False, filter_nil, app_nil_r by naive_solver.
  induction l as [|y l IH]; [done|].
  apply not_elem_of_cons in Hx as [Hne Hx].
  rewrite filter_cons_True by done. by rewrite IH.
Qed.

Lemma set_col_restore cols c v :
  set_col (set_col cols c v) c
    (mkColumn (col_id (get_col cols c)) (col_title (get_col cols c))
       (taskIds (get_col cols c)))
  = cols.
Proof. destruct cols as [[] [] []], c; reflexivity. Qed.

(** Deleting a task that was just added restores the board exactly:
    on a board that keeps the invariant, [addTask] with an unused id
    followed by [deleteTask] of that id gives back the board. *)
Theorem add_then_delete b newId now col ttl descr pri due tgs :
  board_inv b -> tasks b !! newId = None ->
  deleteTask_board newId (addTask_board newId now col ttl descr pri due tgs b) = Some b.
Proof.
  intros Hb Hnew. unfold deleteTask_board, addTask_board. cbv zeta.
  cbn [tasks columns columnOrder].
  rewrite lookup_insert_eq. cbn [obj_columnId columnId].
  rewrite get_set_col_eq. cbn [with_taskIds taskIds col_id col_title].
  rewrite filter_remove_appended by (by apply (inv_unlisted b newId col Hb)).
  rewrite delete_insert_id by done.
  rewrite set_col_restore. by destruct b.
Qed.

Lemma add_then_delete_witness :
  deleteTask_board "n1"
    (addTask_board "n1" "2024-05-06T10:00:00.000Z" done "Ship it" EmptyString high
       None ["release"] (createDefaultBoard demo_uuid demo_iso))
  = Some (createDefaultBoard demo_uuid demo_iso).
Proof.
  apply add_then_delete.
  - apply createDefaultBoard_inv. apply (bool_decide_unpack _). vm_compute. exact I.
  - reflexivity.
Defined.

End RoundTrips.

(** ** Chat actions on the store *)

Section ChatOnStore.
Import Board Chatbot ChatbotActions.

Lemma elem_of_board_tasks b t :
  t ∈ board_tasks b <-> exists tid, tasks b !! tid = Some (Full t).
Proof.
  unfold board_tasks. rewrite list_elem_of_omap. split.
  - intros (o & Ho & Hfull). destruct o as [t'|]; [|done]. injection Hfull as ->.
    apply list_elem_of_fmap in Ho as ([tid o] & -> & Hin).
    exists tid. by apply elem_of_map_to_list in Hin.
  - intros (tid & Ht). exists (Full t). split; [|done].
    apply list_elem_of_fmap. exists (tid, Full t). split; [done|].
    by apply elem_of_map_to_list.
Qed.

Lemma board_tasks_lookup b t :
  keyed_by_id b -> t ∈ board_tasks b -> tasks b !! id t = Some (Full t).
Proof.
  intros Hk (tid & Ht)%elem_of_board_tasks. by rewrite (Hk tid t Ht).
Qed.

Lemma moveTask_completes now taskId src dst i s o :
  tasks (board s) !! taskId = Some o -> is_Some (moveTask now taskId src dst i s).
Proof.
  intros Ho. unfold moveTask, with_board. simpl. unfold moveTask_board. rewrite Ho.
  destruct (move_rule_Some dst o) as [rule ->]. simpl. eauto.
Qed.

Lemma deleteTask_completes taskId s t :
  tasks (board s) !! taskId = Some (Full t) -> is_Some (deleteTask taskId s).
Proof.
  intros Ht. unfold deleteTask, with_board. simpl. unfold deleteTask_board.
  rewrite Ht. simpl. eauto.
Qed.

(** An action that fits the tasks of the board is a call the store
    completes. *)
Lemma executeAction_step newId now a s :
  keyed_by_id (board s) ->
  tasks (board s) !! newId = None ->
  action_fits (board_tasks (board s)) a ->
  exists s', executeAction newId now (board s) a s = Some s' /\ targeted_call s s'.
Proof.
  intros Hk Hnew Hfit.
  destruct a as [col ttl descr pri due tgs|taskId u|taskId|taskId src dst];
    simpl in Hfit; simpl executeAction.
  - eexists. split; [reflexivity|]. by eapply call_addTask.
  - destruct Hfit as ((t & Ht%(board_tasks_lookup _ _ Hk) & <-) & _ & Hcol & _).
    eexists. split; [reflexivity|].
    eapply call_updateTask; [exact Ht|by left|reflexivity].
  - destruct Hfit as (t & Ht%(board_tasks_lookup _ _ Hk) & <-).
    destruct (deleteTask_completes (id t) s t Ht) as [s' Hs'].
    exists s'. split; [exact Hs'|]. by eapply call_deleteTask.
  - destruct Hfit as (t & Ht%(board_tasks_lookup _ _ Hk) & <- & -> & Hne).
    destruct (moveTask_completes now (id t) (columnId t) dst
                (Z.of_nat (length (taskIds (get_col (columns (board s)) dst)))) s _ Ht)
      as [s' Hs'].
    exists s'. split; [exact Hs'|]. by eapply call_moveTask.
Qed.

(** An action the parser emits for the tasks of a board is safe to execute
    on that board. When the board keeps the invariant and stores each task
    under its id, and the store still holds the board the message was
    processed against, executing the action (with an unused id for a new
    task) completes, is a well-targeted call, leaves a board that keeps the
    invariant and stores each task under its id, and is taken back by one
    undo. *)
Theorem chat_action_keeps_the_board clk newId now message s r a :
  board_inv (board s) ->
  keyed_by_id (board s) ->
  tasks (board s) !! newId = None ->
  processCommand clk message (board_tasks (board s)) = Replied r ->
  action r = Some a ->
  exists s',
    executeAction newId now (board s) a s = Some s' /\
    targeted_call s s' /\
    board_inv (board s') /\ keyed_by_id (board s') /\
    board (undo s') = board s.
Proof.
  intros Hb Hk Hnew Hp Ha.
  pose proof (processCommand_fits clk message (board_tasks (board s))) as Hfit.
  rewrite Hp in Hfit. unfold outcome_fits in Hfit. rewrite Ha in Hfit.
  destruct (executeAction_step newId now a s Hk Hnew Hfit) as (s' & Hex & Hstep).
  exists s'. split; [exact Hex|]. split; [exact Hstep|].
  split; [by eapply targeted_call_inv|].
  destruct (targeted_call_mutate _ _ Hstep) as [m Hm].
  split; [by eapply mutate_keyed|].
  by rewrite (undo_after_mutate _ _ _ Hm).
Qed.

Lemma chat_action_keeps_the_board_witness :
  exists s',
    executeAction "n1" "2024-05-06T10:00:00.000Z" (board demo_store)
      (Move "a" todo done) demo_store = Some s' /\
    targeted_call demo_store s' /\
    board_inv (board s') /\ keyed_by_id (board s') /\
    board (undo s') = board demo_store.
Proof.
  eapply (chat_action_keeps_the_board ten_utc "n1" "2024-05-06T10:00:00.000Z"
            "move Design homepage mockup to done" demo_store).
  - apply createDefaultBoard_inv. apply (bool_decide_unpack _). vm_compute. exact I.
  - apply board_of_tasks_keyed.
  - reflexivity.
  - vm_compute. reflexivity.
  - reflexivity.
Defined.

Lemma insert_at_end {A} (l : list A) x :
  Js.insert_at (Js.relative_index (length l) (Z.of_nat (length l))) x l = l ++ [x].
Proof.
  rewrite relative_index_nonneg by lia. rewrite Nat2Z.id, Nat.min_id.
  unfold Js.insert_at. by rewrite take_ge, drop_ge by lia.
Qed.



Lemma remove_tags_replies normalized allTasks :
  exists r, remove_tags normalized allTasks = Replied r.
Proof.
  unfold remove_tags, reply, reply_with.
  repeat match goal with
  | |- exists r, match ?x with _ => _ end = _ => destruct x
  | |- exists r, (if ?x then _ else _) = _ => destruct x
  | |- exists r, (let _ := _ in _) = _ => cbv zeta
  end; eauto.
Qed.

Lemma add_tags_replies normalized allTasks :
  exists r, add_tags normalized allTasks = Replied r.
Proof.
  unfold add_tags, reply, reply_with.
  repeat match goal with
  | |- exists r, match ?x with _ => _ end = _ => destruct x
  | |- exists r, (if ?x then _ else _) = _ => destruct x
  | |- exists r, (let _ := _ in _) = _ => cbv zeta
  end; eauto.
Qed.

(** A message that gets past the tag and create handlers matches none
    of the patterns of the tag commands: the tag handlers always reply. So
    the guard of the delete handler against messages that start with
    "remove tag" never fires. *)
Theorem tag_commands_never_reach_later_handlers clk message allTasks :
  processMessage clk message allTasks = Later ->
  let lower := Str.toLowerCase (normalizeMessage message) in
  Regex.test remove_tag_re lower = false /\
  Regex.test untag_re lower = false /\
  Regex.test add_tag_re lower = false /\
  Regex.test tag_verb_re lower = false.
Proof.
  unfold processMessage. cbv zeta.
  destruct (Regex.test add_tag_re _) eqn:Hadd; simpl orb.
  { destruct (add_tags_replies (normalizeMessage message) allTasks) as [r ->]. done. }
  destruct (Regex.test tag_verb_re _) eqn:Htag.
  { destruct (add_tags_replies (normalizeMessage message) allTasks) as [r ->]. done. }
  destruct (Regex.test remove_tag_re _) eqn:Hrem; simpl orb.
  { destruct (remove_tags_replies (normalizeMessage message) allTasks) as [r ->]. done. }
  destruct (Regex.test untag_re _) eqn:Hun.
  { destruct (remove_tags_replies (normalizeMessage message) allTasks) as [r ->]. done. }
  done.
Qed.

Lemma tag_commands_never_reach_later_handlers_witness :
  Regex.test remove_tag_re "remove the old tagline task" = false /\
  Regex.test untag_re "remove the old tagline task" = false /\
  Regex.test add_tag_re "remove the old tagline task" = false /\
  Regex.test tag_verb_re "remove the old tagline task" = false.
Proof.
  apply (tag_commands_never_reach_later_handlers ten_utc
           "Remove the old tagline task" [fix_login]).
  vm_compute. reflexivity.
Defined.

End ChatOnStore.

(** ** The handlers of the application *)

Section Handlers.
Import Board App.

Lemma moveTask_board_task b now taskId t src dst i b' :
  tasks b !! taskId = Some (Full t) ->
  moveTask_board now taskId src dst i b = Some b' ->
  exists t', tasks b' !! taskId = Some (Full t') /\ columnId t' = dst /\
             id t' = id t.
Proof.
  intros Ht Hm. unfold moveTask_board in Hm. rewrite Ht in Hm.
  destruct (move_rule dst (Some (Full t))) as [rule|]; [|done].
  injection Hm as <-. simpl. rewrite lookup_insert_eq. eauto.
Qed.

Lemma moveTask_board_completes b now taskId o src dst i :
  tasks b !! taskId = Some o -> is_Some (moveTask_board now taskId src dst i b).
Proof.
  intros Ho. unfold moveTask_board. rewrite Ho.
  destruct (move_rule_Some dst o) as [rule ->]. eauto.
Qed.

Lemma last_slice_from_snoc {A} (l : list A) x :
  last (Js.slice_from (l ++ [x]) (-49)) = Some x.
Proof.
  unfold Js.slice_from. rewrite relative_index_neg by lia.
  rewrite length_app. simpl length.
  rewrite drop_app_le by lia. apply last_snoc.
Qed.

Lemma undo_snoc bx h b f :
  undo {| board := bx; history := h ++ [b]; future := f |}
  = {| board := b; history := h; future := f ++ [bx] |}.
Proof. unfold undo. simpl. by rewrite last_snoc, slice_drop_last_snoc. Qed.

(** Saving the edit dialog with another column for a stored task, on
    a board that keeps the invariant: the save completes; the task carries
    the fields of the dialog and sits at the end of the chosen column; the
    board keeps the invariant. The save leaves two entries on the undo
    stack, both the board before the edit: the first undo restores that
    board and the second changes nothing. *)
Theorem edit_with_column_change newId now t data s :
  board_inv (board s) ->
  tasks (board s) !! id t = Some (Full t) ->
  columnId t <> d_columnId data ->
  exists s' t',
    handleSaveTask newId now (Some t) data s = Some s' /\
    board_inv (board s') /\
    tasks (board s') !! id t = Some (Full t') /\
    title t' = d_title data /\ description t' = d_description data /\
    priority t' = d_priority data /\ dueDate t' = d_dueDate data /\
    tags t' = d_tags data /\ columnId t' = d_columnId data /\
    col_ids (board s') (d_columnId data)
      = col_ids (board s) (d_columnId data) ++ [id t] /\
    board (undo s') = board s /\
    canUndo (undo s') = true /\
    board (undo (undo s')) = board s.
Proof.
  intros Hb Ht Hne.
  set (idx := Z.of_nat (length (taskIds (get_col (columns (board s)) (d_columnId data))))).
  destruct (moveTask_board_completes (board s) now (id t) _ (columnId t)
              (d_columnId data) idx Ht) as [b1 Hm].
  destruct (moveTask_board_task _ _ _ _ _ _ _ _ Ht Hm) as (t1 & Ht1 & Hcol1 & _).
  assert (board_inv b1) as Hb1 by (by eapply moveTask_board_inv).
  destruct (moveTask_board_columns _ _ _ _ _ _ _ (inv_filed _ Hb _ _ Ht) Hm)
    as (Hdst & _ & _).
  rewrite decide_False in Hdst by done. unfold idx in Hdst.
  rewrite insert_at_end in Hdst.
  exists {| board := updateTask_board (id t) (data_updates data) b1;
            history :=
              Js.slice_from (Js.slice_from (history s) (-49) ++ [board s]) (-49)
              ++ [board s];
            future := [] |}.
  exists (apply_updates t1 (data_updates data)).
  split.
  { unfold handleSaveTask. cbv zeta. rewrite decide_False by done.
    unfold call, pushHistory. simpl. fold idx. rewrite Hm. reflexivity. }
  simpl board. split.
  { eapply updateTask_board_inv; [exact Hb1|exact Ht1|]. right. simpl. by rewrite Hcol1. }
  split.
  { unfold updateTask_board. simpl. by rewrite lookup_insert_eq, Ht1. }
  do 6 (split; [reflexivity|]).
  split; [exact Hdst|].
  rewrite undo_snoc. simpl board. split; [reflexivity|].
  split.
  { apply canUndo_spec. simpl. intros Hnil.
    pose proof (last_slice_from_snoc (Js.slice_from (history s) (-49)) (board s)) as Hl.
    by rewrite Hnil in Hl. }
  unfold undo. simpl history. by rewrite last_slice_from_snoc.
Qed.

Lemma edit_with_column_change_witness :
  exists s' t',
    handleSaveTask "n1" "2024-05-06T10:00:00.000Z" (Some sample_task)
      (mkTaskData "Review PR 12" "with care" high (Some "2024-05-07") ["review"] done)
      (initStore one_task_board) = Some s' /\
    board_inv (board s') /\
    tasks (board s') !! "t1" = Some (Full t') /\
    title t' = "Review PR 12" /\ description t' = "with care" /\
    priority t' = high /\ dueDate t' = Some "2024-05-07" /\
    tags t' = ["review"] /\ columnId t' = done /\
    col_ids (board s') done = [] ++ ["t1"] /\
    board (undo s') = one_task_board /\
    canUndo (undo s') = true /\
    board (undo (undo s')) = one_task_board.
Proof.
  apply (edit_with_column_change "n1" "2024-05-06T10:00:00.000Z" sample_task
           (mkTaskData "Review PR 12" "with care" high (Some "2024-05-07") ["review"] done)
           (initStore one_task_board)).
  - apply (board_of_tasks_inv [sample_task]).
    apply (bool_decide_unpack _). vm_compute. exact I.
  - reflexivity.
  - discriminate.
Defined.

Lemma insert_at_lookup {A} (n : nat) (x : A) l :
  (n <= length l)%nat -> Js.insert_at n x l !! n = Some x.
Proof.
  intros Hn. unfold Js.insert_at.
  apply list_lookup_middle. by rewrite length_take_le.
Qed.

Lemma columns_cover_tasks b :
  board_inv b ->
  (map_to_list (tasks b)).*1
  ≡ₚ col_ids b todo ++ col_ids b in_progress ++ col_ids b done.
Proof.
  intros Hb. apply NoDup_Permutation.
  - apply NoDup_fst_map_to_list.
  - apply NoDup_app. split; [apply (inv_nodup b Hb)|]. split.
    + intros x Hx [Hy|Hy]%elem_of_app;
        destruct (inv_listed b Hb _ _ Hx) as (t & Ht & Hc);
        by apply (inv_only_column b x t _ Hb Ht) in Hy; congruence.
    + apply NoDup_app. split; [apply (inv_nodup b Hb)|].
      split; [|apply (inv_nodup b Hb)].
      intros x Hx Hy. destruct (inv_listed b Hb _ _ Hx) as (t & Ht & Hc).
      apply (inv_only_column b x t _ Hb Ht) in Hy. congruence.
  - intros x. rewrite list_elem_of_fmap, !elem_of_app. split.
    + intros ([k o] & -> & Hko%elem_of_map_to_list). simpl.
      destruct (inv_full b Hb _ _ Hko) as [t ->].
      pose proof (inv_filed b Hb _ _ Hko) as Hf.
      destruct (columnId t); tauto.
    + intros Hx.
      assert (exists c, x ∈ col_ids b c) as [c Hc] by (destruct Hx as [|[|]]; eauto).
      destruct (inv_listed b Hb _ _ Hc) as (t & Ht & _).
      exists (x, Full t). split; [done|]. by apply elem_of_map_to_list.
Qed.

(** On a board that keeps the invariant the counts of the header add
    up: the total number of tasks is the sum of the three column counts. *)
Theorem stats_add_up clk b :
  board_inv b ->
  total (stats clk b)
  = (st_todo (stats clk b) + st_inProgress (stats clk b) + st_done (stats clk b))%nat.
Proof.
  intros Hb. unfold stats. simpl.
  rewrite length_fmap, <- (length_fmap fst).
  rewrite (columns_cover_tasks b Hb), !length_app. unfold col_ids. simpl. lia.
Qed.

Lemma stats_add_up_witness :
  total (stats ten_utc (createDefaultBoard demo_uuid demo_iso)) = (3 + 2 + 1)%nat.
Proof.
  apply (stats_add_up ten_utc (createDefaultBoard demo_uuid demo_iso)).
  apply createDefaultBoard_inv. apply (bool_decide_unpack _). vm_compute. exact I.
Defined.

End Handlers.

(** ** Due dates without a time of day *)

Section DueDates.
Import Dates Utils Chatbot.

Lemma length_substring n (s : string) :
  (n <= String.length s)%nat -> String.length (substring 0 n s) = n.
Proof.
  revert n. induction s as [|c s IH]; intros n Hn; simpl in *.
  - assert (n = 0)%nat as -> by lia. done.
  - destruct n as [|n]; [done|]. simpl. rewrite IH by lia. done.
Qed.

Lemma dayString_nonempty d : nonempty (dayString d) = true.
Proof.
  pose proof (length_substring 10 (date_part d) (length_date_part d)) as Hlen.
  unfold dayString. by destruct (substring 0 10 (date_part d)).
Qed.

(** The local day of the instant a date-only string denotes. *)
Lemma Day_local_date_only clk d :
  Day (LocalTime clk (d * msPerDay)) = d + offset clk / 1440.
Proof. unfold Day, LocalTime, msPerDay. Z.div_mod_to_equations. lia. Qed.

Lemma due_time_date_only clk d :
  parse clk (dayString d) = Some (d * msPerDay) ->
  due_time clk (Some (dayString d)) = Some (Some (d * msPerDay)).
Proof. intros Hp. unfold due_time. by rewrite dayString_nonempty, Hp. Qed.

Lemma isOverdue_day clk d :
  parse clk (dayString d) = Some (d * msPerDay) ->
  isOverdue clk (Some (dayString d)) = (d + offset clk / 1440 <? localDay clk).
Proof.
  intros Hp. unfold isOverdue. rewrite (due_time_date_only _ _ Hp).
  unfold setHoursEnd. rewrite Day_local_date_only.
  unfold localDay, UTC, MakeDate, Day, LocalTime, msPerDay.
  destruct (Z.ltb_spec (d + offset clk / 1440) ((now clk + offset clk * 60000) / 86400000));
    [apply Z.ltb_lt|apply Z.ltb_ge]; Z.div_mod_to_equations; lia.
Qed.

Lemma civil_from_days_inj a b : civil_from_days a = civil_from_days b -> a = b.
Proof.
  intros H. pose proof (civil_roundtrip a) as Ha. pose proof (civil_roundtrip b) as Hb.
  rewrite H in Ha. destruct (civil_from_days b) as [[y m] d].
  destruct Ha as [<- _]. by destruct Hb as [<- _].
Qed.

Lemma same_local_date clk t u :
  (getFullYear clk t =? getFullYear clk u)
  && (getMonth clk t =? getMonth clk u)
  && (getDate clk t =? getDate clk u)
  = (Day (LocalTime clk t) =? Day (LocalTime clk u)).
Proof.
  unfold getFullYear, getMonth, getDate, YearFromTime, MonthFromTime, DateFromTime.
  destruct (Z.eqb_spec (Day (LocalTime clk t)) (Day (LocalTime clk u))) as [->|Hne].
  - by rewrite !Z.eqb_refl.
  - apply not_true_is_false. intros H.
    apply andb_true_iff in H as [H Hd]. apply andb_true_iff in H as [Hy Hm].
    apply Z.eqb_eq in Hy, Hm, Hd. apply Hne, civil_from_days_inj.
    destruct (civil_from_days (Day (LocalTime clk t))) as [[y m] d].
    destruct (civil_from_days (Day (LocalTime clk u))) as [[y' m'] d'].
    simpl in *. f_equal; [f_equal|]; lia.
Qed.

Lemma isDueToday_day clk d :
  parse clk (dayString d) = Some (d * msPerDay) ->
  isDueToday clk (Some (dayString d)) = (d + offset clk / 1440 =? localDay clk).
Proof.
  intros Hp. unfold isDueToday. rewrite (due_time_date_only _ _ Hp). cbv zeta.
  by rewrite same_local_date, Day_local_date_only.
Qed.

Lemma isDueThisWeek_day clk d :
  parse clk (dayString d) = Some (d * msPerDay) ->
  isDueThisWeek clk (Some (dayString d))
  = (now clk <=? d * msPerDay)
    && (d + offset clk / 1440 <=? localDay clk + (7 - getDay clk (now clk))).
Proof.
  intros Hp. unfold isDueThisWeek. rewrite (due_time_date_only _ _ Hp). cbv zeta.
  f_equal. rewrite setDate_shift.
  unfold setHoursEnd, localDay, UTC, MakeDate, Day, LocalTime, msPerDay.
  set (k := 7 - getDay clk (now clk)).
  destruct (Z.leb_spec (d + offset clk / 1440)
              ((now clk + offset clk * 60000) / 86400000 + k));
    [apply Z.leb_le|apply Z.leb_gt]; Z.div_mod_to_equations; lia.
Qed.

(** For a due date without a time of day, which the host language
    reads as midnight UTC: in UTC and east of it [isOverdue] holds from the
    local day after the due date on; west of UTC it holds on the due date
    itself already. *)
Theorem overdue_by_time_zone clk d :
  parse clk (dayString d) = Some (d * msPerDay) ->
  (0 <= offset clk < 1440 ->
   isOverdue clk (Some (dayString d)) = (d <? localDay clk)) /\
  (-1440 <= offset clk < 0 ->
   isOverdue clk (Some (dayString d)) = (d <=? localDay clk)).
Proof.
  intros Hp. rewrite (isOverdue_day _ _ Hp). split; intros Hoff.
  - replace (offset clk / 1440) with 0 by (Z.div_mod_to_equations; lia).
    by rewrite Z.add_0_r.
  - replace (offset clk / 1440) with (-1) by (Z.div_mod_to_equations; lia).
    destruct (Z.ltb_spec (d + -1) (localDay clk)), (Z.leb_spec d (localDay clk)); lia.
Qed.

Lemma overdue_by_time_zone_witness :
  isOverdue may_west (Some "2024-05-06") = true /\
  isOverdue may_utc (Some "2024-05-06") = false.
Proof.
  split.
  - apply (proj2 (overdue_by_time_zone may_west 19849 eq_refl)). vm_compute.
    split; [discriminate|reflexivity].
  - apply (proj1 (overdue_by_time_zone may_utc 19849 eq_refl)). vm_compute.
    split; [discriminate|reflexivity].
Defined.

(** For a due date without a time of day, [isDueToday] holds in UTC
    and east of it on the due date; west of UTC it holds on the day before
    the due date and not on the due date. *)
Theorem due_today_by_time_zone clk d :
  parse clk (dayString d) = Some (d * msPerDay) ->
  (0 <= offset clk < 1440 ->
   isDueToday clk (Some (dayString d)) = (d =? localDay clk)) /\
  (-1440 <= offset clk < 0 ->
   isDueToday clk (Some (dayString d)) = (d =? localDay clk + 1)).
Proof.
  intros Hp. rewrite (isDueToday_day _ _ Hp). split; intros Hoff.
  - replace (offset clk / 1440) with 0 by (Z.div_mod_to_equations; lia).
    by rewrite Z.add_0_r.
  - replace (offset clk / 1440) with (-1) by (Z.div_mod_to_equations; lia).
    destruct (Z.eqb_spec (d + -1) (localDay clk)), (Z.eqb_spec d (localDay clk + 1)); lia.
Qed.

Lemma due_today_by_time_zone_witness :
  isDueToday may_west (Some "2024-05-06") = false /\
  isDueToday may_west (Some "2024-05-07") = true /\
  isDueToday may_east (Some "2024-05-06") = true.
Proof.
  split; [|split].
  - apply (proj2 (due_today_by_time_zone may_west 19849 eq_refl)). vm_compute.
    split; [discriminate|reflexivity].
  - apply (proj2 (due_today_by_time_zone may_west 19850 eq_refl)). vm_compute.
    split; [discriminate|reflexivity].
  - apply (proj1 (due_today_by_time_zone may_east 19849 eq_refl)). vm_compute.
    split; [discriminate|reflexivity].
Defined.

(** In UTC, at any time but midnight sharp, [isDueThisWeek] holds for
    a due date without a time of day exactly from tomorrow to the last day
    of the week, which is the coming Sunday and, on a Sunday, the Sunday
    after: a task due today is not due this week. *)
Theorem due_this_week_in_utc clk d :
  parse clk (dayString d) = Some (d * msPerDay) ->
  offset clk = 0 ->
  TimeWithinDay (now clk) <> 0 ->
  let lastDay := localDay clk + (7 - getDay clk (now clk)) in
  isDueThisWeek clk (Some (dayString d)) = (localDay clk <? d) && (d <=? lastDay) /\
  localDay clk < lastDay <= localDay clk + 7 /\
  WeekDay (lastDay * msPerDay) = 0.
Proof.
  intros Hp Hoff Hmid. cbv zeta. split; [|split].
  - rewrite (isDueThisWeek_day _ _ Hp), Hoff. f_equal.
    + unfold localDay, LocalTime, TimeWithinDay, Day, msPerDay in *. rewrite Hoff.
      destruct (Z.leb_spec (now clk) (d * 86400000)),
               (Z.ltb_spec ((now clk + 0 * 60000) / 86400000) d);
        try done; Z.div_mod_to_equations; lia.
    + f_equal. change (0 / 1440) with 0. lia.
  - unfold getDay, WeekDay. Z.div_mod_to_equations. lia.
  - unfold getDay, WeekDay, localDay, Day, msPerDay. Z.div_mod_to_equations. lia.
Qed.

Lemma due_this_week_in_utc_witness :
  isDueThisWeek may_utc (Some "2024-05-06") = false /\
  isDueThisWeek may_utc (Some "2024-05-07") = true.
Proof.
  split.
  - destruct (due_this_week_in_utc may_utc 19849 eq_refl eq_refl) as [H _];
      [discriminate|]. exact H.
  - destruct (due_this_week_in_utc may_utc 19850 eq_refl eq_refl) as [H _];
      [discriminate|]. exact H.
Defined.

(** A task the chat creates or edits as due "today" carries a due
    date that, under a clock less than a day off UTC, is due today and not
    overdue in UTC alone: everywhere else, east or west, the task is
    overdue at once and is not due today. *)
Theorem chat_due_today_outside_utc clk :
  -1440 < offset clk < 1440 ->
  parse clk (dayString (resolver_day clk)) = Some (resolver_day clk * msPerDay) ->
  let due := parseNaturalDate clk "today" in
  due = Some (dayString (resolver_day clk)) /\
  isOverdue clk due = negb (offset clk =? 0) /\
  isDueToday clk due = (offset clk =? 0).
Proof.
  intros Hoff Hp. cbv zeta. rewrite resolve_today. split; [done|].
  rewrite (isOverdue_day _ _ Hp), (isDueToday_day _ _ Hp).
  destruct (Z.eqb_spec (offset clk) 0) as [H0|H0].
  - assert (resolver_day clk = localDay clk) as -> by (apply setHours0_day_west; lia).
    rewrite H0. change (0 / 1440) with 0. rewrite Z.add_0_r.
    by rewrite Z.ltb_irrefl, Z.eqb_refl.
  - destruct (Z.lt_ge_cases (offset clk) 0) as [Hw|He].
    + assert (resolver_day clk = localDay clk) as -> by (apply setHours0_day_west; lia).
      replace (offset clk / 1440) with (-1) by (Z.div_mod_to_equations; lia).
      split; [apply Z.ltb_lt; lia|apply Z.eqb_neq; lia].
    + assert (resolver_day clk = localDay clk - 1) as ->
        by (apply setHours0_day_east; lia).
      replace (offset clk / 1440) with 0 by (Z.div_mod_to_equations; lia).
      split; [apply Z.ltb_lt; lia|apply Z.eqb_neq; lia].
Qed.

Lemma chat_due_today_outside_utc_witness :
  parseNaturalDate may_east "today" = Some "2024-05-05" /\
  isOverdue may_east (parseNaturalDate may_east "today") = true /\
  isDueToday may_east (parseNaturalDate may_east "today") = false.
Proof.
  apply (chat_due_today_outside_utc may_east).
  - vm_compute. split; reflexivity.
  - reflexivity.
Defined.

End DueDates.

(** ** The filtered view of a column *)

Section View.
Import Board App.

Lemma found_stored b ids :
  (forall tid o, tasks b !! tid = Some o -> exists t, o = Full t) ->
  omap (fun taskId => tasks b !! taskId) ids = Full <$> stored_tasks b ids.
Proof.
  intros Hfull. unfold stored_tasks.
  induction ids as [|tid ids IH]; [done|].
  change (omap ?g (tid :: ids)) with
    (match g tid with Some y => y :: omap g ids | None => omap g ids end).
  cbv beta.
  destruct (tasks b !! tid) as [o|] eqn:Ho; [|exact IH].
  destruct (Hfull _ _ Ho) as [t ->]. by rewrite IH.
Qed.

Lemma filter_throwing_full (p : TaskObj -> option bool) (q : Task -> bool)
    (l : list Task) :
  (forall t, p (Full t) = Some (q t)) ->
  filter_throwing p (Full <$> l) = Some (Full <$> filter (fun t => q t = true) l).
Proof.
  intros Hp. induction l as [|t l IH]; [done|].
  rewrite fmap_cons. cbn [filter_throwing]. rewrite Hp, IH. simpl.
  rewrite filter_cons.
  destruct (q t); [by rewrite decide_True|by rewrite decide_False].
Qed.

Lemma filter_full (P : TaskObj -> Prop) `{!forall o, Decision (P o)} (q : Task -> bool)
    (l : list Task) :
  (forall t, P (Full t) <-> q t = true) ->
  filter P (Full <$> l) = Full <$> filter (fun t => q t = true) l.
Proof.
  intros HP. induction l as [|t l IH]; [done|].
  rewrite fmap_cons, !filter_cons, IH.
  destruct (decide (P (Full t))) as [Hd|Hd], (decide (q t = true)) as [Hq|Hq];
    try done; by apply HP in Hd || by apply HP in Hq.
Qed.

Lemma filter_all {A} (q : A -> bool) (l : list A) :
  (forall x, q x = true) -> filter (fun x => q x = true) l = l.
Proof.
  intros Hq. induction l as [|x l IH]; [done|].
  by rewrite filter_cons, decide_True, IH.
Qed.

Lemma filter_both {A} (p q : A -> bool) (l : list A) :
  filter (fun x => q x = true) (filter (fun x => p x = true) l)
  = filter (fun x => p x && q x = true) l.
Proof.
  induction l as [|x l IH]; [done|].
  rewrite !filter_cons. destruct (p x) eqn:Hp; simpl.
  - rewrite filter_cons, IH. by destruct (decide (q x = true)).
  - exact IH.
Qed.

Lemma search_filter_full f (l : list Task) :
  search_filter f (Full <$> l) = Some (Full <$> filter (fun t => search_ok f t = true) l).
Proof.
  unfold search_filter, search_ok. destruct (Chatbot.nonempty (search f)).
  - apply filter_throwing_full. intros t. unfold matches_search. simpl.
    destruct (Str.includes (Str.toLowerCase (title t)) _); [done|].
    destruct (Str.includes (Str.toLowerCase (description t)) _); done.
  - by rewrite (filter_all (fun _ => true)).
Qed.

Lemma priority_filter_full f (l : list Task) :
  priority_filter f (Full <$> l) = Full <$> filter (fun t => priority_ok f t = true) l.
Proof.
  unfold priority_filter, priority_ok. destruct (filterPriority f) as [p|].
  - apply filter_full. intros t. simpl. rewrite bool_decide_eq_true.
    split; congruence.
  - by rewrite (filter_all (fun _ => true)).
Qed.

Lemma due_filter_full clk f (l : list Task) :
  due_filter clk f (Full <$> l) = Full <$> filter (fun t => due_ok clk f t = true) l.
Proof.
  unfold due_filter, due_ok. destruct (filterDueDate f);
    try (by apply filter_full).
  by rewrite (filter_all (fun _ => due_test clk due_all _)).
Qed.

Lemma tag_filter_full f (l : list Task) :
  tag_filter f (Full <$> l) = Some (Full <$> filter (fun t => tag_ok f t = true) l).
Proof.
  unfold tag_filter, tag_ok. destruct (Chatbot.nonempty (filterTag f)).
  - by apply filter_throwing_full.
  - by rewrite (filter_all (fun _ => true)).
Qed.

(** The view before it is sorted: the stored tasks of the ids that pass. *)
Lemma getFilteredTasks_passing clk b f ids :
  (forall tid o, tasks b !! tid = Some o -> exists t, o = Full t) ->
  getFilteredTasks clk b f ids
  = Some (Chatbot.sort (comes_after clk (sortBy f))
            (Full <$> filter (fun t => passes clk f t = true) (stored_tasks b ids))).
Proof.
  intros Hfull. unfold getFilteredTasks. cbv zeta.
  rewrite (found_stored b ids Hfull), search_filter_full. simpl.
  rewrite priority_filter_full, due_filter_full, tag_filter_full. simpl.
  rewrite (filter_both (search_ok f) (priority_ok f)).
  rewrite (filter_both (fun t => search_ok f t && priority_ok f t) (due_ok clk f)).
  rewrite (filter_both (fun t => search_ok f t && priority_ok f t && due_ok clk f t)
             (tag_ok f)).
  reflexivity.
Qed.

Lemma StronglySorted_impl {A} (R R' : A -> A -> Prop) l :
  (forall a b, a ∈ l -> b ∈ l -> R a b -> R' a b) ->
  StronglySorted R l -> StronglySorted R' l.
Proof.
  intros HR Hs. induction Hs as [|x l Hs IH Hx]; [constructor|].
  constructor.
  - apply IH. intros a b Ha Hb. apply HR; apply elem_of_cons; by right.
  - rewrite Forall_forall in *. intros y Hy. apply HR.
    + apply elem_of_cons. by left.
    + apply elem_of_cons. by right.
    + by apply Hx.
Qed.

(** On a board whose stored objects are complete tasks, the filtered
    view of a list of ids never fails; it shows exactly the tasks stored
    under these ids that pass the search and the filters that are switched
    on, each as often as its id is listed; ids without a stored task are
    skipped. *)
Theorem view_shows_passing_tasks clk b f ids :
  (forall tid o, tasks b !! tid = Some o -> exists t, o = Full t) ->
  exists l,
    getFilteredTasks clk b f ids = Some l /\
    l ≡ₚ Full <$> filter (fun t => passes clk f t = true) (stored_tasks b ids).
Proof.
  intros Hfull. eexists. split; [by apply getFilteredTasks_passing|].
  apply sort_perm.
Qed.

(** On such a board the view sorted by priority lists high before
    medium before low. *)
Theorem view_sorted_by_priority clk b f ids :
  (forall tid o, tasks b !! tid = Some o -> exists t, o = Full t) ->
  sortBy f = by_priority ->
  exists l, getFilteredTasks clk b f ids = Some l /\ StronglySorted priority_le l.
Proof.
  intros Hfull Hby. eexists. split; [by apply getFilteredTasks_passing|].
  rewrite Hby.
  set (k := Full <$> filter (fun t => passes clk f t = true) (stored_tasks b ids)).
  assert (forall o, o ∈ k -> exists t, o = Full t) as Hk.
  { intros o (t & -> & _)%list_elem_of_fmap. eauto. }
  eapply StronglySorted_impl; [|apply sort_ordered].
  - intros x y Hx Hy. rewrite !sort_perm in *.
    destruct (Hk x Hx) as [tx ->], (Hk y Hy) as [ty ->].
    unfold comes_after, priority_le, positive_difference. simpl. intros H.
    apply Z.ltb_ge in H. lia.
  - split.
    + intros x y Hx Hy. destruct (Hk x Hx) as [tx ->], (Hk y Hy) as [ty ->].
      unfold comes_after, positive_difference. simpl.
      intros H%Z.ltb_lt. apply Z.ltb_ge. lia.
    + intros x y z Hx Hy Hz.
      destruct (Hk x Hx) as [tx ->], (Hk y Hy) as [ty ->], (Hk z Hz) as [tz ->].
      unfold comes_after, positive_difference. simpl.
      intros H1%Z.ltb_ge H2%Z.ltb_ge. apply Z.ltb_ge. lia.
Qed.

Lemma demo_board_full tid o :
  tasks (createDefaultBoard demo_uuid demo_iso) !! tid = Some o -> exists t, o = Full t.
Proof.
  apply (inv_full (createDefaultBoard demo_uuid demo_iso)).
  apply createDefaultBoard_inv. apply (bool_decide_unpack _). vm_compute. exact I.
Qed.

Lemma view_shows_passing_tasks_witness :
  exists l,
    getFilteredTasks may_utc (createDefaultBoard demo_uuid demo_iso)
      (mkFilters "API" by_created (Some low) due_all "docs") ["a"; "ghost"; "c"]
    = Some l /\
    l ≡ₚ Full <$> filter (fun t => passes may_utc
                                     (mkFilters "API" by_created (Some low) due_all "docs")
                                     t = true)
                    (stored_tasks (createDefaultBoard demo_uuid demo_iso)
                       ["a"; "ghost"; "c"]).
Proof. apply view_shows_passing_tasks. exact demo_board_full. Defined.

Lemma view_sorted_by_priority_witness :
  exists l,
    getFilteredTasks may_utc (createDefaultBoard demo_uuid demo_iso)
      (mkFilters EmptyString by_priority None due_all EmptyString) ["c"; "b"; "a"]
    = Some l /\
    StronglySorted priority_le l.
Proof.
  apply view_sorted_by_priority; [exact demo_board_full|reflexivity].
Defined.

End View.

(** ** Drops *)

Section Drag.
Import Board App.

Lemma length_stored_tasks b ids : (length (stored_tasks b ids) <= length ids)%nat.
Proof.
  unfold stored_tasks. induction ids as [|tid ids IH]; [done|].
  change (omap ?g (tid :: ids)) with
    (match g tid with Some y => y :: omap g ids | None => omap g ids end).
  cbv beta. destruct (tasks b !! tid) as [[t|p]|]; simpl; lia.
Qed.

(** The view of a list of ids is no longer than the list. *)
Lemma length_view clk b f ids view :
  (forall tid o, tasks b !! tid = Some o -> exists t, o = Full t) ->
  getFilteredTasks clk b f ids = Some view ->
  (length view <= length ids)%nat.
Proof.
  intros Hfull Hview. rewrite (getFilteredTasks_passing clk b f ids Hfull) in Hview.
  injection Hview as <-.
  rewrite (Permutation_length (sort_perm _ _)), length_fmap.
  pose proof (length_filter (fun t => passes clk f t = true) (stored_tasks b ids)).
  pose proof (length_stored_tasks b ids). lia.
Qed.

(** The drag library reports the place of a drop as a column and an index
    into the cards the column shows, which are the filtered, sorted view of
    its list; [onDragEnd] hands that index to [moveTask] unchanged, as an
    index into the stored list. On a board that keeps the invariant, for a
    card of the source column and a destination index within the view of
    the destination column (counted without the card when it stays in its
    column): a drop without destination, or at the column and index the
    card came from, leaves the store as it is and adds no undo step; a drop
    anywhere else completes, keeps the invariant, puts the id at that index
    of the stored destination list, and is taken back by one undo. *)
Theorem drop_lands_at_index clk f now draggableId source destination s view :
  board_inv (board s) ->
  draggableId ∈ col_ids (board s) (droppableId source) ->
  getFilteredTasks clk (board s) f (col_ids (board s) (droppableId destination))
  = Some view ->
  0 <= index destination
    <= Z.of_nat (length view)
       - (if decide (droppableId source = droppableId destination) then 1 else 0) ->
  onDragEnd now draggableId source None s = Some s /\
  onDragEnd now draggableId source (Some source) s = Some s /\
  (destination <> source ->
   exists s',
     onDragEnd now draggableId source (Some destination) s = Some s' /\
     board_inv (board s') /\
     col_ids (board s') (droppableId destination) !! Z.to_nat (index destination)
     = Some draggableId /\
     board (undo s') = board s).
Proof.
  intros Hb Hin Hview Hrange.
  split; [reflexivity|]. split.
  { unfold onDragEnd. by rewrite bool_decide_eq_true_2, Z.eqb_refl. }
  intros Hne. unfold onDragEnd.
  destruct (bool_decide (droppableId destination = droppableId source)
            && (index destination =? index source)) eqn:Hguard.
  { apply andb_true_iff in Hguard as [Hcol%bool_decide_eq_true Hidx%Z.eqb_eq].
    exfalso. apply Hne. destruct destination, source. simpl in *. congruence. }
  pose proof (length_view _ _ _ _ _ (inv_full _ Hb) Hview) as Hlen.
  destruct (inv_listed _ Hb _ _ Hin) as (t & Ht & Hcol).
  destruct (moveTask_board_completes (board s) now draggableId _
              (droppableId source) (droppableId destination)
              (index destination) Ht) as [b' Hm].
  exists {| board := b';
            history := Js.slice_from (history s) (-49) ++ [board s];
            future := [] |}.
  split.
  { unfold moveTask, with_board, pushHistory. simpl. by rewrite Hm. }
  split; [by eapply moveTask_board_inv|]. split.
  - simpl board.
    destruct (moveTask_board_columns _ _ _ _ _ _ _ Hin Hm) as (Hdst & _ & _).
    unfold col_ids in *. rewrite Hdst. clear Hdst.
    destruct (decide (droppableId source = droppableId destination)) as [Hc|Hc].
    + rewrite <- Hc in Hlen.
      pose proof (remove_first_length _ _ Hin) as Hrem.
      rewrite relative_index_nonneg by lia.
      rewrite Nat.min_l by lia. apply insert_at_lookup. lia.
    + rewrite relative_index_nonneg by lia.
      rewrite Nat.min_l by lia. apply insert_at_lookup. lia.
  - by rewrite undo_snoc.
Qed.

Lemma drop_lands_at_index_witness :
  onDragEnd "2024-05-06T10:00:00.000Z" "b" (mkLocation todo 1) None demo_store
  = Some demo_store /\
  onDragEnd "2024-05-06T10:00:00.000Z" "b" (mkLocation todo 1)
    (Some (mkLocation todo 1)) demo_store = Some demo_store /\
  (mkLocation in_progress 2 <> mkLocation todo 1 ->
   exists s',
     onDragEnd "2024-05-06T10:00:00.000Z" "b" (mkLocation todo 1)
       (Some (mkLocation in_progress 2)) demo_store = Some s' /\
     board_inv (board s') /\
     col_ids (board s') in_progress !! 2%nat = Some "b" /\
     board (undo s') = board demo_store).
Proof.
  eapply (drop_lands_at_index may_utc
            (mkFilters EmptyString by_created None due_all EmptyString)
            "2024-05-06T10:00:00.000Z" "b" (mkLocation todo 1)
            (mkLocation in_progress 2) demo_store).
  - apply createDefaultBoard_inv. apply (bool_decide_unpack _). vm_compute. exact I.
  - apply (bool_decide_unpack _). vm_compute. exact I.
  - vm_compute. reflexivity.
  - vm_compute. split; discriminate.
Defined.

End Drag.

(** ** Tag commands *)

Section TagCommands.
Import Chatbot.

Lemma existsb_eqb_elem (x : string) l : existsb (String.eqb x) l = true <-> x ∈ l.
Proof.
  rewrite existsb_exists. split.
  - intros (y & Hy%list_elem_of_In & ->%String.eqb_eq). done.
  - intros Hx. exists x. split; [by apply list_elem_of_In|apply String.eqb_refl].
Qed.

Lemma unique_from_spec l acc :
  NoDup acc ->
  let r := fold_left (fun acc x => if existsb (String.eqb x) acc then acc else acc ++ [x])
             l acc in
  NoDup r /\ (forall x, x ∈ r <-> x ∈ acc \/ x ∈ l) /\ acc `prefix_of` r.
Proof.
  revert acc. induction l as [|y l IH]; intros acc Hnd; simpl.
  - split; [done|]. split; [|done]. intros x. rewrite elem_of_nil. tauto.
  - destruct (existsb (String.eqb y) acc) eqn:Hy.
    + apply existsb_eqb_elem in Hy.
      destruct (IH acc Hnd) as (H1 & H2 & H3). split; [done|]. split; [|done].
      intros x. rewrite H2, elem_of_cons. split; [tauto|].
      intros [?|[->|?]]; tauto.
    + assert (y ∉ acc) as Hny.
      { intros Hin%existsb_eqb_elem. congruence. }
      destruct (IH (acc ++ [y])) as (H1 & H2 & H3).
      { apply NoDup_app. split; [done|]. split; [|apply NoDup_singleton].
        by intros x Hx ->%list_elem_of_singleton. }
      split; [done|]. split.
      * intros x. rewrite H2, elem_of_app, list_elem_of_singleton, elem_of_cons. tauto.
      * etrans; [|exact H3]. by apply prefix_app_r.
Qed.

Lemma unique_spec l :
  NoDup (unique l) /\ (forall x, x ∈ unique l <-> x ∈ l).
Proof.
  destruct (unique_from_spec l [] (NoDup_nil_2)) as (H1 & H2 & _).
  split; [exact H1|]. intros x. rewrite (H2 x), elem_of_nil. tauto.
Qed.

(** The tag commands change the tags of a task of the collection and
    nothing else. After "add tag" the tags have no duplicates and hold
    every tag the task had and only non-empty new ones; after "remove tag"
    they are a sub-list of the tags the task had, in their order. *)
Theorem tag_commands_update_tags normalized allTasks r taskId u :
  (add_tags normalized allTasks = Replied r ->
   action r = Some (Update taskId u) ->
   exists t merged,
     t ∈ allTasks /\ id t = taskId /\
     u = mkUpdates None None None None (Some merged) None None /\
     NoDup merged /\
     (forall x, x ∈ tags t -> x ∈ merged) /\
     (forall x, x ∈ merged -> x ∉ tags t -> x <> EmptyString)) /\
  (remove_tags normalized allTasks = Replied r ->
   action r = Some (Update taskId u) ->
   exists t remaining,
     t ∈ allTasks /\ id t = taskId /\
     u = mkUpdates None None None None (Some remaining) None None /\
     remaining `sublist_of` tags t).
Proof.
  split.
  - unfold add_tags.
    destruct (Regex.exec tag_source_re normalized) as [m|]; [|by intros [= <-]].
    cbv zeta.
    set (f := findTaskInMessage _ allTasks).
    set (newTags := List.filter nonempty _).
    pose proof (findTaskInMessage_ok
                  (default EmptyString (Regex.group normalized m 2)) allTasks)
      as (Hres & _). fold f in Hres.
    destruct (task f) as [t|] eqn:Ht.
    + intros [= <-]. simpl. intros [= <- <-].
      destruct (Hres t eq_refl) as [Hin _].
      destruct (unique_spec (tags t ++ newTags)) as [Hnd Hmem].
      exists t, (unique (tags t ++ newTags)).
      split; [done|]. split; [done|]. split; [done|]. split; [done|]. split.
      * intros x Hx. apply Hmem, elem_of_app. by left.
      * intros x Hx Hnot. apply Hmem, elem_of_app in Hx as [Hx|Hx]; [done|].
        subst newTags. apply list_elem_of_In, filter_In in Hx as [_ Hne].
        by apply nonempty_spec.
    + destruct (0 <? length (candidates f))%nat; by intros [= <-].
  - unfold remove_tags.
    destruct (Regex.exec tag_target_re normalized) as [m|]; [|by intros [= <-]].
    cbv zeta.
    set (f := findTaskInMessage _ allTasks).
    pose proof (findTaskInMessage_ok
                  (default EmptyString (Regex.group normalized m 2)) allTasks)
      as (Hres & _). fold f in Hres.
    destruct (task f) as [t|] eqn:Ht.
    + intros [= <-]. simpl. intros [= <- <-].
      destruct (Hres t eq_refl) as [Hin _].
      eexists t, _. split; [done|]. split; [done|]. split; [done|].
      generalize (tags t). intros l. induction l as [|x l IH]; simpl; [done|].
      destruct (negb _); [by apply sublist_skip|by apply sublist_cons].
    + destruct (0 <? length (candidates f))%nat; by intros [= <-].
Qed.

Lemma tag_commands_update_tags_witness :
  exists t merged,
    t ∈ [fix_login; review_docs] /\ id t = "r1" /\
    mkUpdates None None None None (Some ["docs"; "urgent"]) None None
    = mkUpdates None None None None (Some merged) None None /\
    NoDup merged /\
    (forall x, x ∈ tags t -> x ∈ merged) /\
    (forall x, x ∈ merged -> x ∉ tags t -> x <> EmptyString).
Proof.
  eapply (proj1 (tag_commands_update_tags "add tags Docs, urgent to Review PR docs"
                   [fix_login; review_docs] _ "r1" _)).
  - vm_compute. reflexivity.
  - reflexivity.
Defined.

End TagCommands.

(** ** Weekday names *)

Section Weekdays.
Import Dates Chatbot.

(** The date the weekday branch of the resolver computes for the weekday
    number [n]. *)
Lemma weekday_ahead clk n :
  0 <= n <= 6 ->
  let today := setHours0 clk (now clk) in
  let daysUntil := n - getDay clk today in
  let daysUntil := if daysUntil <=? 0 then daysUntil + 7 else daysUntil in
  exists k, 1 <= k <= 7 /\
    isoDay (setDate clk today (getDate clk today + daysUntil))
    = dayString (resolver_day clk + k) /\
    (localDay clk + k + 4) mod 7 = n.
Proof.
  intros Hn. cbv zeta. rewrite getDay_setHours0.
  set (du := n - (localDay clk + 4) mod 7).
  exists (if du <=? 0 then du + 7 else du).
  assert (0 <= (localDay clk + 4) mod 7 < 7) by (apply Z.mod_pos_bound; lia).
  split; [destruct (Z.leb_spec du 0); lia|]. split.
  - unfold resolver_day. by rewrite setDate_shift, isoDay_dayString, Day_shift.
  - subst du. destruct (Z.leb_spec (n - (localDay clk + 4) mod 7) 0);
      Z.div_mod_to_equations; lia.
Qed.

(** Each of the seven weekday names, alone or after "next", resolves
    to the same date: the one [k] days after the resolver's today, with [k]
    from 1 to 7, where the local day plus [k] falls on the named weekday.
    So the name of today's weekday resolves to the date a week ahead, never
    to today. *)
Theorem weekday_names_resolve_ahead clk (i : nat) name :
  dayNames !! i = Some name ->
  exists k, 1 <= k <= 7 /\
    parseNaturalDate clk name = Some (dayString (resolver_day clk + k)) /\
    parseNaturalDate clk ("next " +:+ name) = Some (dayString (resolver_day clk + k)) /\
    (localDay clk + k + 4) mod 7 = Z.of_nat i.
Proof.
  intros Hname.
  assert (0 <= Z.of_nat i <= 6) as Hi.
  { apply lookup_lt_Some in Hname. simpl in Hname. lia. }
  destruct (weekday_ahead clk (Z.of_nat i) Hi) as (k & Hk & Hday & Hwd).
  exists k. split; [exact Hk|]. rewrite <- Hday. split; [|split; [|exact Hwd]];
    do 7 (destruct i as [|i]; [injection Hname as <-; reflexivity|]);
    by apply lookup_lt_Some in Hname; simpl in Hname; lia.
Qed.

Lemma weekday_names_resolve_ahead_witness :
  exists k, 1 <= k <= 7 /\
    parseNaturalDate may_utc "monday" = Some (dayString (resolver_day may_utc + k)) /\
    parseNaturalDate may_utc "next monday" = Some (dayString (resolver_day may_utc + k)) /\
    (localDay may_utc + k + 4) mod 7 = 1.
Proof. apply (weekday_names_resolve_ahead may_utc 1 "monday"). reflexivity. Defined.

End Weekdays.

(** ** Deleting a task *)

Section Delete.
Import Board.

Lemma filter_keeps_all (x : string) (l : list string) :
  x ∉ l -> filter (fun i => i ≠ x) l = l.
Proof.
  induction l as [|y l IH]; [done|].
  intros [Hne Hx]%not_elem_of_cons.
  rewrite filter_cons, decide_True by done. by rewrite IH.
Qed.

(** Deleting a stored task from a board that keeps the invariant
    completes and removes the task from the store and from every column;
    every other task and the order of the remaining ids stay as they were. *)
Theorem delete_removes_everywhere b taskId t :
  board_inv b ->
  tasks b !! taskId = Some (Full t) ->
  exists b',
    deleteTask_board taskId b = Some b' /\
    tasks b' !! taskId = None /\
    (forall k, k <> taskId -> tasks b' !! k = tasks b !! k) /\
    (forall c, taskId ∉ col_ids b' c) /\
    (forall c, col_ids b' c = filter (fun i => i ≠ taskId) (col_ids b c)) /\
    length (col_ids b' (columnId t)) = (length (col_ids b (columnId t)) - 1)%nat.
Proof.
  intros Hb Ht. unfold deleteTask_board. rewrite Ht. simpl obj_columnId. cbv iota beta.
  eexists. split; [reflexivity|]. simpl tasks.
  split; [apply lookup_delete_eq|].
  split; [intros k Hk; by apply lookup_delete_ne|].
  assert (forall c,
    col_ids {| tasks := delete taskId (tasks b);
               columns := set_col (columns b) (columnId t)
                            (with_taskIds (get_col (columns b) (columnId t))
                               (filter (fun i => i ≠ taskId)
                                  (taskIds (get_col (columns b) (columnId t)))));
               columnOrder := columnOrder b |} c
    = filter (fun i => i ≠ taskId) (col_ids b c)) as Hcols.
  { intros c. rewrite (col_ids_set b) by done. simpl.
    destruct (decide (columnId t = c)) as [<-|Hc]; [done|].
    symmetry. apply filter_keeps_all. intros Hx.
    by apply Hc; symmetry; apply (inv_only_column b taskId). }
  split; [|split; [exact Hcols|]].
  - intros c. rewrite Hcols. intros [Hne _]%list_elem_of_filter. done.
  - rewrite Hcols.
    pose proof (inv_filed b Hb _ _ Ht) as Hin.
    pose proof (inv_nodup b Hb (columnId t)) as Hnd.
    induction (col_ids b (columnId t)) as [|x l IH]; [by apply elem_of_nil in Hin|].
    apply NoDup_cons in Hnd as [Hx Hnd]. rewrite filter_cons.
    destruct (decide (x ≠ taskId)) as [Hne|Heq].
    + apply elem_of_cons in Hin as [->|Hin]; [done|].
      simpl. rewrite IH by done.
      destruct l; [by apply elem_of_nil in Hin|simpl; lia].
    + apply dec_stable in Heq. subst x.
      rewrite filter_keeps_all by done. simpl. lia.
Qed.

Lemma delete_removes_everywhere_witness :
  exists b',
    deleteTask_board "t1" one_task_board = Some b' /\
    tasks b' !! "t1" = None /\
    (forall k, k <> "t1" -> tasks b' !! k = tasks one_task_board !! k) /\
    (forall c, "t1" ∉ col_ids b' c) /\
    (forall c, col_ids b' c = filter (fun i => i ≠ "t1") (col_ids one_task_board c)) /\
    length (col_ids b' todo) = (length (col_ids one_task_board todo) - 1)%nat.
Proof.
  apply (delete_removes_everywhere one_task_board "t1" sample_task).
  - apply (board_of_tasks_inv [sample_task]).
    apply (bool_decide_unpack _). vm_compute. exact I.
  - reflexivity.
Defined.

End Delete.
